(** * QP inverse-dynamics controller: [QPController::ResizeQP] and
    [QPController::Control] of
    drake/examples/QPInverseDynamicsForHumanoids/qp_controller.cc

    The controller is embedded as pure functions over an explicit controller
    state.  Dense Eigen matrices are rows of coefficients together with their
    two dimensions, the MathematicalProgram is the ordered registry of the
    constraints and costs declared on it, and the handles the controller keeps
    (eq_dynamics_, ineq_torque_limit_, ...) are positions in that registry.
    A call either returns or is cut short by a failed DRAKE_ASSERT, an
    uncaught exception or a dereferenced null handle.

    Counts and sizes are natural numbers: the int counters of the source
    index Eigen objects that were allocated, so they stay far below INT_MAX.
    The definitions come first (scalars, matrices, the data model, the two
    member functions, the properties stated of them, a concrete robot), the
    lemmas and theorems follow. *)

From stdpp Require Import base numbers list strings.
From Stdlib Require QArith Qabs.

Local Open Scope nat_scope.

(** ** Scalars

    The code computes in [double].  Nothing below depends on how the scalar
    operations round, so they are the methods of a class; the few statements
    that rewrite an expression name the algebraic laws they use. *)

Class Scalar (R : Type) := {
  sc_zero : R;
  sc_one : R;
  sc_int : Z → R;            (* an integer literal, such as the 1000 of ResizeQP *)
  sc_add : R → R → R;
  sc_sub : R → R → R;
  sc_mul : R → R → R;
  sc_neg : R → R;
  sc_abs : R → R;
  sc_leb : R → R → bool;     (* x <= y *)
}.

(** The laws behind "a minus b is minus b plus a" and "minus distributes over
    a matrix-vector product". *)
Class ScalarLaws (R : Type) `{Scalar R} := {
  sc_add_comm : ∀ x y : R, sc_add x y = sc_add y x;
  sc_sub_def : ∀ x y : R, sc_sub x y = sc_add x (sc_neg y);
  sc_neg_zero : sc_neg sc_zero = (sc_zero : R);
  sc_neg_add : ∀ x y : R, sc_neg (sc_add x y) = sc_add (sc_neg x) (sc_neg y);
  sc_mul_neg_l : ∀ x y : R, sc_mul (sc_neg x) y = sc_neg (sc_mul x y);
}.

(** ** Dense vectors and matrices (Eigen) *)

Section Dense.
Context {R : Type} `{Scalar R}.

Definition Vector := list R.

(** A matrix keeps its dimensions next to its rows: a 0 x n matrix and an
    n x 0 matrix are different Eigen objects. *)
Record Matrix := mkMatrix {
  mrows : nat;
  mcols : nat;
  mdata : list (list R);
}.

Definition vget (v : Vector) (i : nat) : R := nth i v sc_zero.
Definition mget (M : Matrix) (i j : nat) : R := nth j (nth i (mdata M) []) sc_zero.

Definition vbuild (n : nat) (f : nat → R) : Vector := map f (seq 0 n).
Definition mbuild (r c : nat) (f : nat → nat → R) : Matrix :=
  mkMatrix r c (map (λ i, map (f i) (seq 0 c)) (seq 0 r)).

(** MatrixXd::Zero, MatrixXd::Identity, VectorXd::Zero, VectorXd::Constant *)
Definition mZero (r c : nat) : Matrix := mbuild r c (λ _ _, sc_zero).
Definition mIdentity (r c : nat) : Matrix :=
  mbuild r c (λ i j, if Nat.eqb i j then sc_one else sc_zero).
Definition vZero (n : nat) : Vector := vbuild n (λ _, sc_zero).
Definition vConstant (n : nat) (x : R) : Vector := vbuild n (λ _, x).

(** setZero keeps the dimensions. *)
Definition msetZero (M : Matrix) : Matrix := mZero (mrows M) (mcols M).

(** Sum of f 0, ..., f (n-1), accumulated from the left. *)
Definition ssum (n : nat) (f : nat → R) : R :=
  fold_left (λ acc k, sc_add acc (f k)) (seq 0 n) sc_zero.

Definition mtranspose (M : Matrix) : Matrix :=
  mbuild (mcols M) (mrows M) (λ i j, mget M j i).
Definition mneg (M : Matrix) : Matrix :=
  mbuild (mrows M) (mcols M) (λ i j, sc_neg (mget M i j)).
Definition mscale (w : R) (M : Matrix) : Matrix :=
  mbuild (mrows M) (mcols M) (λ i j, sc_mul w (mget M i j)).
Definition mmul (A B : Matrix) : Matrix :=
  mbuild (mrows A) (mcols B)
    (λ i j, ssum (mcols A) (λ k, sc_mul (mget A i k) (mget B k j))).
Definition mvmul (A : Matrix) (x : Vector) : Vector :=
  vbuild (mrows A) (λ i, ssum (mcols A) (λ k, sc_mul (mget A i k) (vget x k))).

Definition vneg (v : Vector) : Vector := map sc_neg v.
Definition vscale (w : R) (v : Vector) : Vector := map (sc_mul w) v.
(** Coefficient-wise sum and difference.  Eigen checks the shapes of its
    operands with assertions of its own and leaves a misuse undefined when
    they are compiled out; the operations here are total (a sum stops at the
    shorter operand, a coefficient outside a matrix reads as zero), and the
    statements that depend on a shape say so. *)
Definition vadd (u v : Vector) : Vector := zip_with sc_add u v.
Definition vsub (u v : Vector) : Vector := zip_with sc_sub u v.

(** topRows, bottomRows, block (read), head, tail, segment (read) *)
Definition topRows (n : nat) (M : Matrix) : Matrix := mbuild n (mcols M) (mget M).
Definition bottomRows (n : nat) (M : Matrix) : Matrix :=
  mbuild n (mcols M) (λ i j, mget M (mrows M - n + i) j).
Definition mblock (r0 c0 h w : nat) (M : Matrix) : Matrix :=
  mbuild h w (λ i j, mget M (r0 + i) (c0 + j)).
Definition vhead (n : nat) (v : Vector) : Vector := vbuild n (vget v).
Definition vtail (n : nat) (v : Vector) : Vector :=
  vbuild n (λ i, vget v (length v - n + i)).
Definition vsegment (start n : nat) (v : Vector) : Vector :=
  vbuild n (λ i, vget v (start + i)).

(** [M.block(r0, c0, h, w) = src] and [v.segment(start, n) = src]: the
    coefficients inside the window are replaced, the others stay. *)
Definition in_window (lo len i : nat) : bool := (lo <=? i) && (i <? lo + len).
Definition mset_block (r0 c0 h w : nat) (src dst : Matrix) : Matrix :=
  mbuild (mrows dst) (mcols dst)
    (λ i j, if in_window r0 h i && in_window c0 w j
            then mget src (i - r0) (j - c0) else mget dst i j).
Definition vset_segment (start n : nat) (src dst : Vector) : Vector :=
  vbuild (length dst)
    (λ i, if in_window start n i then vget src (i - start) else vget dst i).

(** [v.isZero(prec)]: every coefficient is at most prec in absolute value. *)
Definition visZero (prec : R) (v : Vector) : bool :=
  forallb (λ x, sc_leb (sc_abs x) prec) v.

(** Cross product of two 3-vectors. *)
Definition cross (a b : Vector) : Vector :=
  [ sc_sub (sc_mul (vget a 1) (vget b 2)) (sc_mul (vget a 2) (vget b 1));
    sc_sub (sc_mul (vget a 2) (vget b 0)) (sc_mul (vget a 0) (vget b 2));
    sc_sub (sc_mul (vget a 0) (vget b 1)) (sc_mul (vget a 1) (vget b 0)) ].

End Dense.

Arguments Vector R : clear implicits.
Arguments Matrix R : clear implicits.

(** ** Outcome of a call

    A call returns, or it is cut short: a DRAKE_ASSERT that fails while
    assertions are armed, an exception nobody catches (GetVariable on a name
    the program does not have), a null handle that is dereferenced. *)

Inductive Run (A : Type) : Type :=
  | Returned (a : A)
  | Aborted (why : string).
Arguments Returned {A} a.
Arguments Aborted {A} why.

#[global] Instance Run_ret : MRet Run := λ A a, Returned a.
#[global] Instance Run_bind : MBind Run := λ A B f m,
  match m with
  | Returned a => f a
  | Aborted why => Aborted why
  end.

Definition or_abort {A} (why : string) (o : option A) : Run A :=
  match o with
  | Some a => Returned a
  | None => Aborted why
  end.

(** [for (int i = start; i < start + n; i++) body(i)] over a threaded state. *)
Fixpoint for_range {St : Type} (start n : nat) (body : nat → St → Run St) (s : St) : Run St :=
  match n with
  | 0 => Returned s
  | S n' => s' ← body start s; for_range (S start) n' body s'
  end.

(** ** Data model *)

Section Model.
Context {R : Type} `{Scalar R}.

Record RigidBody := { get_name : string; body_index : nat }.

Record RigidBodyActuator := {
  effort_limit_min_ : R;
  effort_limit_max_ : R;
}.

Record RigidBodyTree := {
  number_of_velocities : nat;
  actuators : list RigidBodyActuator;
  B : Matrix R;
  getMass : R;
  a_grav : Vector R;
}.

Record ContactInformation := {
  ci_body : RigidBody;
  ci_name : string;
  ci_contact_points : list (Vector R);
  ci_num_basis : nat;
}.
Definition ci_num_contact_points (s : ContactInformation) : nat :=
  length (ci_contact_points s).

Record DesiredBodyAcceleration := {
  dba_body : RigidBody;
  dba_name : string;
  dba_weight : R;
  dba_acceleration : Vector R;
}.

Record QPInput := {
  contact_info : list ContactInformation;
  desired_body_accelerations : list DesiredBodyAcceleration;
  desired_comdd : Vector R;
  desired_vd : Vector R;
  w_com : R;
  w_vd : R;
  w_basis_reg : R;
}.

Record ResolvedContact := {
  rc_body : RigidBody;
  rc_basis : Vector R;
  rc_point_forces : list (Vector R);
  rc_contact_points : list (Vector R);
  rc_equivalent_wrench : Vector R;
  rc_reference_point : Vector R;
}.

Record BodyAcceleration := {
  ba_body : RigidBody;
  ba_acceleration : Vector R;
}.

Record QPOutput := {
  vd : Vector R;
  comdd : Vector R;
  joint_torque : Vector R;
  resolved_contacts : list ResolvedContact;
  body_accelerations : list BodyAcceleration;
  costs : list (string * R);
}.

(** ** MathematicalProgram *)

Record DecisionVariableView := { dv_index : nat; dv_size : nat }.

Inductive Constraint :=
  | LinearEqualityConstraint (A : Matrix R) (beq : Vector R)
  | LinearConstraint (A : Matrix R) (lb ub : Vector R)
  | QuadraticConstraint (Q : Matrix R) (b : Vector R).

Record Binding := {
  constraint : Constraint;
  description : string;
  variable_list : list DecisionVariableView;
}.

(** Modelled from the spec: MathematicalProgram and its constraint classes
    belong to drake/solvers, which is not among the sources.  "represent as
    stable integer or opaque-token indices into an internal registry of
    constraint/cost records assigned once at topology-build time; the
    per-cycle formulator writes into these records by index".  The program
    is the registry of what was declared on it, in the order of the calls;
    [linear_equality_constraints], [linear_constraints] and
    [quadratic_costs] select the declarations of one kind, each in insertion
    order, as the three accessors of the C++ class do. *)
Record MathematicalProgram := {
  variables : list (string * DecisionVariableView);
  num_vars : nat;
  bindings : list Binding;
  x_values : Vector R;           (* what the views read: one value per variable *)
}.

Definition MathematicalProgram_new : MathematicalProgram :=
  {| variables := []; num_vars := 0; bindings := []; x_values := [] |}.

Definition AddContinuousVariables (n : nat) (name : string) (p : MathematicalProgram)
  : DecisionVariableView * MathematicalProgram :=
  let v := {| dv_index := num_vars p; dv_size := n |} in
  (v, {| variables := variables p ++ [(name, v)];
         num_vars := num_vars p + n;
         bindings := bindings p;
         x_values := x_values p ++ vZero n |}).

(** GetVariable throws when no variable has the name. *)
Definition GetVariable (name : string) (p : MathematicalProgram) : option DecisionVariableView :=
  snd <$> find (λ nv, String.eqb (fst nv) name) (variables p).

(** A handle is the shared pointer an Add... call returns: here the position
    of the declaration, or [None] for a null pointer. *)
Definition Handle := option nat.

(** An Add... call together with the set_description that follows it on the
    handle it returned. *)
Definition add_binding (c : Constraint) (vars : list DecisionVariableView) (d : string)
    (p : MathematicalProgram) : Handle * MathematicalProgram :=
  (Some (length (bindings p)),
   {| variables := variables p; num_vars := num_vars p;
      bindings := bindings p ++ [{| constraint := c; description := d; variable_list := vars |}];
      x_values := x_values p |}).

Definition AddLinearEqualityConstraint (A : Matrix R) (beq : Vector R) :=
  add_binding (LinearEqualityConstraint A beq).
Definition AddLinearConstraint (A : Matrix R) (lb ub : Vector R) :=
  add_binding (LinearConstraint A lb ub).
Definition AddQuadraticCost (Q : Matrix R) (b : Vector R) :=
  add_binding (QuadraticConstraint Q b).

(** Writing through a handle changes the object the program holds; a null
    pointer, or one that does not point into the program, cannot be written
    through. *)
Definition update_binding (h : Handle) (f : Binding → Binding) (p : MathematicalProgram)
  : option MathematicalProgram :=
  i ← h;
  if decide (i < length (bindings p)) then
    Some {| variables := variables p; num_vars := num_vars p;
            bindings := alter f i (bindings p);
            x_values := x_values p |}
  else None.

(** UpdateConstraint replaces the coefficients and keeps the description and
    the variables.  (It refuses a matrix whose number of columns differs from
    the declared one; the refusal is not modelled.) *)
Definition with_constraint (c : Constraint) (b : Binding) : Binding :=
  {| constraint := c; description := description b; variable_list := variable_list b |}.
Definition UpdateEquality (h : Handle) (A : Matrix R) (beq : Vector R) :=
  update_binding h (with_constraint (LinearEqualityConstraint A beq)).
Definition UpdateLinear (h : Handle) (A : Matrix R) (lb ub : Vector R) :=
  update_binding h (with_constraint (LinearConstraint A lb ub)).
Definition UpdateQuadratic (h : Handle) (Q : Matrix R) (b : Vector R) :=
  update_binding h (with_constraint (QuadraticConstraint Q b)).

Definition is_linear_equality (b : Binding) : bool :=
  match constraint b with LinearEqualityConstraint _ _ => true | _ => false end.
Definition is_linear_inequality (b : Binding) : bool :=
  match constraint b with LinearConstraint _ _ _ => true | _ => false end.
Definition is_quadratic_cost (b : Binding) : bool :=
  match constraint b with QuadraticConstraint _ _ => true | _ => false end.

Definition linear_equality_constraints (p : MathematicalProgram) : list Binding :=
  List.filter is_linear_equality (bindings p).
Definition linear_constraints (p : MathematicalProgram) : list Binding :=
  List.filter is_linear_inequality (bindings p).
Definition quadratic_costs (p : MathematicalProgram) : list Binding :=
  List.filter is_quadratic_cost (bindings p).

Definition value (v : DecisionVariableView) (p : MathematicalProgram) : Vector R :=
  vsegment (dv_index v) (dv_size v) (x_values p).
Definition VariableListToVectorXd (b : Binding) (p : MathematicalProgram) : Vector R :=
  concat (map (λ v, value v p) (variable_list b)).
Definition GetSolution (p : MathematicalProgram) : Vector R := x_values p.
Definition SetDecisionVariableValues (x : Vector R) (p : MathematicalProgram) : MathematicalProgram :=
  {| variables := variables p; num_vars := num_vars p;
     bindings := bindings p; x_values := x |}.

Inductive SolutionResult :=
  | kSolutionFound
  | kInvalidInput
  | kInfeasibleConstraints
  | kUnknownError.

Definition is_kSolutionFound (r : SolutionResult) : bool :=
  match r with kSolutionFound => true | _ => false end.

End Model.

Arguments RigidBodyActuator R : clear implicits.
Arguments RigidBodyTree R : clear implicits.
Arguments ContactInformation R : clear implicits.
Arguments DesiredBodyAcceleration R : clear implicits.
Arguments QPInput R : clear implicits.
Arguments ResolvedContact R : clear implicits.
Arguments BodyAcceleration R : clear implicits.
Arguments QPOutput R : clear implicits.
Arguments Constraint R : clear implicits.
Arguments Binding R : clear implicits.
Arguments MathematicalProgram R : clear implicits.

(** ** What the controller is linked against

    The kinematics and dynamics provider, the solver back end, the output's
    validity check and the build configuration are not part of
    qp_controller.cc; the controller is stated for any of them. *)

Class Collaborators (R : Type) `{Scalar R} := {
  KinematicsCache : Type;
  (* qp_controller.h: the tolerance of the checks after the solve *)
  EPSILON : R;
  (* drake_assert.h: DRAKE_ASSERT evaluates its condition only in a build
     where assertions are armed (a debug build); elsewhere it does nothing *)
  kDrakeAssertIsArmed : bool;
  (* the coefficients of a matrix that was allocated or resized and not yet
     written; in the source they are indeterminate, and no statement below
     says what they are or that two allocations agree on them *)
  uninitialized : nat → nat → R;
  (* ContactInformation *)
  ComputeBasisMatrix : ContactInformation R → RigidBodyTree R → KinematicsCache → Matrix R;
  ComputeJacobianAtContactPoints :
    ContactInformation R → RigidBodyTree R → KinematicsCache → Matrix R;
  ComputeJacobianDotTimesVAtContactPoints :
    ContactInformation R → RigidBodyTree R → KinematicsCache → Vector R;
  ComputeContactPointsAndWrenchReferencePoint :
    ContactInformation R → RigidBodyTree R → KinematicsCache → Vector R →
    list (Vector R) * Vector R;
  ComputeWrenchMatrix : ContactInformation R → list (Vector R) → Vector R → Matrix R;
  (* task-space kinematics *)
  GetTaskSpaceJacobian : RigidBodyTree R → KinematicsCache → RigidBody → Vector R → Matrix R;
  GetTaskSpaceJacobianDotTimesV :
    RigidBodyTree R → KinematicsCache → RigidBody → Vector R → Vector R;
  (* SnoptSolver: Solve writes the values it found into the program *)
  available : bool;
  Solve : MathematicalProgram R → SolutionResult * Vector R;
  (* Constraint::Eval and QPOutput::is_valid *)
  Eval : Constraint R → Vector R → Vector R;
  QPOutput_is_valid : QPOutput R → nat → nat → bool;
}.

Section Controller.
Context {R : Type} `{Collaborators R}.

Record HumanoidStatus := {
  robot : RigidBodyTree R;
  cache : KinematicsCache;
  M : Matrix R;
  bias_term : Vector R;
  J_com : Matrix R;
  Jdot_times_v_com : Vector R;
  centroidal_momentum_matrix : Matrix R;
  centroidal_momentum_matrix_dot_times_v : Vector R;
  com : Vector R;
}.

(** Modelled from the spec: QPInput::is_valid is declared in qp_controller.h,
    which is not among the sources.  "validity precondition:
    desired-generalized-acceleration regularization target dimension equals
    the model's velocity count". *)
Definition QPInput_is_valid (input : QPInput R) (num_vd : nat) : bool :=
  Nat.eqb (length (desired_vd input)) num_vd.

(** Modelled from the spec: DRAKE_ASSERT is defined in drake_assert.h, which
    is not among the sources.  A failed validation is "a hard/fatal condition
    during development (assertion-level), though a production build may
    choose to degrade gracefully": armed, a false condition cuts the call
    short; disarmed, the condition is not looked at. *)
Definition DRAKE_ASSERT (condition : bool) (what : string) : Run unit :=
  if kDrakeAssertIsArmed && negb condition then Aborted what else Returned ().

(** *** Controller state *)

Record Topology := {
  num_contact_body_ : nat;
  num_vd_ : nat;
  num_basis_ : nat;
  num_point_force_ : nat;
  num_torque_ : nat;
  num_variable_ : nat;
  num_body_acceleration_ : nat;
}.

Record Handles := {
  eq_dynamics_ : Handle;
  eq_contacts_ : list Handle;
  ineq_contact_wrench_ : Handle;
  ineq_torque_limit_ : Handle;
  cost_comdd_ : Handle;
  cost_body_accelerations_ : list Handle;
  cost_vd_reg_ : Handle;
  cost_basis_reg_ : Handle;
}.

Record Scratch := {
  stacked_contact_jacobians_ : Matrix R;
  basis_to_force_matrix_ : Matrix R;
  stacked_contact_jacobians_dot_times_v_ : Vector R;
  torque_linear_ : Matrix R;
  dynamics_linear_ : Matrix R;
  torque_constant_ : Vector R;
  dynamics_constant_ : Vector R;
  JB_ : Matrix R;
  inequality_linear_ : Matrix R;
  inequality_lower_bound_ : Vector R;
  inequality_upper_bound_ : Vector R;
  point_forces_ : Vector R;
  body_J_ : list (Matrix R);
  body_Jdv_ : list (Vector R);
}.

Record QPController := {
  topology : Topology;
  prog_ : MathematicalProgram R;
  handles : Handles;
  scratch : Scratch;
}.

(** Eigen's resize: nothing happens when the dimensions are already the
    requested ones, otherwise the coefficients are not specified. *)
Definition mresize (r c : nat) (A : Matrix R) : Matrix R :=
  if Nat.eqb (mrows A) r && Nat.eqb (mcols A) c then A else mbuild r c uninitialized.
Definition vresize (n : nat) (v : Vector R) : Vector R :=
  if Nat.eqb (length v) n then v else vbuild n (λ i, uninitialized i 0).

(** [for (size_t i = 0; i < l.size(); i++) body(i, l[i])] *)
Fixpoint fold_indexed {A St : Type} (body : nat → A → St → St) (i : nat) (l : list A) (s : St)
  : St :=
  match l with
  | [] => s
  | a :: l' => fold_indexed body (S i) l' (body i a s)
  end.

(** *** ResizeQP, lines 9-99 *)

(** Lines 15-20: the two sums over the contact descriptors. *)
Definition count_dimensions (all_supports : list (ContactInformation R)) : nat * nat :=
  fold_left
    (λ '(num_basis, num_point_force) s,
       (num_basis + ci_num_basis s, num_point_force + length (ci_contact_points s)))
    all_supports (0, 0).

(** Lines 13-23 and 27: the seven counts of this cycle. *)
Definition current_topology (robot : RigidBodyTree R)
    (all_supports : list (ContactInformation R))
    (all_body_accelerations : list (DesiredBodyAcceleration R)) : Topology :=
  let num_contact_body := length all_supports in
  let num_vd := number_of_velocities robot in
  let '(num_basis, num_point_force) := count_dimensions all_supports in
  let num_torque := length (actuators robot) in
  let num_variable := num_vd + num_basis in
  {| num_contact_body_ := num_contact_body;
     num_vd_ := num_vd;
     num_basis_ := num_basis;
     num_point_force_ := num_point_force;
     num_torque_ := num_torque;
     num_variable_ := num_variable;
     num_body_acceleration_ := length all_body_accelerations |}.

(** Lines 24-27: the comparison with the stored counts. *)
Definition same_topology (now stored : Topology) : bool :=
  Nat.eqb (num_contact_body_ now) (num_contact_body_ stored) &&
  Nat.eqb (num_vd_ now) (num_vd_ stored) &&
  Nat.eqb (num_basis_ now) (num_basis_ stored) &&
  Nat.eqb (num_point_force_ now) (num_point_force_ stored) &&
  Nat.eqb (num_torque_ now) (num_torque_ stored) &&
  Nat.eqb (num_variable_ now) (num_variable_ stored) &&
  Nat.eqb (num_body_acceleration_ now) (num_body_acceleration_ stored).

(** Lines 58-65: one contact equality per contact body. *)
Definition declare_contacts (num_vd : nat) (vd_view : DecisionVariableView)
    (all_supports : list (ContactInformation R))
    (init : list Handle * MathematicalProgram R) : list Handle * MathematicalProgram R :=
  fold_indexed
    (λ i s '(eq_contacts, p),
       let rows := 3 * length (ci_contact_points s) in
       let '(h, p') :=
         AddLinearEqualityConstraint (mZero rows num_vd) (vZero rows) [vd_view]
                 (ci_name s +:+ " contact eq") p in
       (<[i := h]> eq_contacts, p'))
    0 all_supports init.

(** Lines 86-92: one quadratic cost per tracked body motion. *)
Definition declare_body_costs (tmp_matrix_vd : Matrix R) (tmp_vector_vd : Vector R)
    (vd_view : DecisionVariableView)
    (all_body_accelerations : list (DesiredBodyAcceleration R))
    (init : list Handle * MathematicalProgram R) : list Handle * MathematicalProgram R :=
  fold_indexed
    (λ i a '(cost_body_accelerations, p),
       let '(h, p') :=
         AddQuadraticCost tmp_matrix_vd tmp_vector_vd [vd_view]
                 (dba_name a +:+ " cost") p in
       (<[i := h]> cost_body_accelerations, p'))
    0 all_body_accelerations init.

(** Lines 30-98: the counts are stored and the problem is declared anew. *)
Definition rebuild (t : Topology)
    (all_supports : list (ContactInformation R))
    (all_body_accelerations : list (DesiredBodyAcceleration R))
    (c : QPController) : QPController :=
  let prog := MathematicalProgram_new in
  let '(vd_view, prog) := AddContinuousVariables (num_vd_ t) "vd" prog in
  let '(basis_view, prog) := AddContinuousVariables (num_basis_ t) "basis" prog in
  let '(eq_dynamics, prog) :=
    AddLinearEqualityConstraint (mZero 6 (num_variable_ t)) (vZero 6)
            [vd_view; basis_view] "dynamics eq" prog in
  let '(eq_contacts, prog) :=
    declare_contacts (num_vd_ t) vd_view all_supports
      (resize (num_contact_body_ t) None (eq_contacts_ (handles c)), prog) in
  let '(ineq_contact_wrench, prog) :=
    AddLinearConstraint (mIdentity (num_basis_ t) (num_basis_ t))
               (vZero (num_basis_ t)) (vConstant (num_basis_ t) (sc_int 1000))
            [basis_view] "contact force basis ineq" prog in
  let '(ineq_torque_limit, prog) :=
    AddLinearConstraint (mZero (num_torque_ t) (num_variable_ t))
               (vZero (num_torque_ t)) (vZero (num_torque_ t))
            [vd_view; basis_view] "torque limit ineq" prog in
  let tmp_matrix_vd := mbuild (num_vd_ t) (num_vd_ t) uninitialized in
  let tmp_vector_vd := vbuild (num_vd_ t) (λ i, uninitialized i 0) in
  let '(cost_comdd, prog) :=
    AddQuadraticCost tmp_matrix_vd tmp_vector_vd [vd_view] "com cost" prog in
  let '(cost_body_accelerations, prog) :=
    declare_body_costs tmp_matrix_vd tmp_vector_vd vd_view all_body_accelerations
      (resize (length all_body_accelerations) None (cost_body_accelerations_ (handles c)),
       prog) in
  let '(cost_vd_reg, prog) :=
    AddQuadraticCost tmp_matrix_vd tmp_vector_vd [vd_view] "vd reg cost" prog in
  let '(cost_basis_reg, prog) :=
    AddQuadraticCost (mIdentity (num_basis_ t) (num_basis_ t))
               (vZero (num_basis_ t))
            [basis_view] "basis reg cost" prog in
  let s := scratch c in
  {| topology := t;
     prog_ := prog;
     handles :=
       {| eq_dynamics_ := eq_dynamics;
          eq_contacts_ := eq_contacts;
          ineq_contact_wrench_ := ineq_contact_wrench;
          ineq_torque_limit_ := ineq_torque_limit;
          cost_comdd_ := cost_comdd;
          cost_body_accelerations_ := cost_body_accelerations;
          cost_vd_reg_ := cost_vd_reg;
          cost_basis_reg_ := cost_basis_reg |};
     scratch :=
       {| stacked_contact_jacobians_ :=
            mresize (3 * num_point_force_ t) (num_vd_ t) (stacked_contact_jacobians_ s);
          basis_to_force_matrix_ :=
            mresize (3 * num_point_force_ t) (num_basis_ t) (basis_to_force_matrix_ s);
          stacked_contact_jacobians_dot_times_v_ :=
            vresize (3 * num_point_force_ t) (stacked_contact_jacobians_dot_times_v_ s);
          torque_linear_ := mresize (num_torque_ t) (num_variable_ t) (torque_linear_ s);
          dynamics_linear_ := mresize 6 (num_variable_ t) (dynamics_linear_ s);
          torque_constant_ := torque_constant_ s;
          dynamics_constant_ := dynamics_constant_ s;
          JB_ := JB_ s;
          inequality_linear_ := inequality_linear_ s;
          inequality_lower_bound_ := inequality_lower_bound_ s;
          inequality_upper_bound_ := inequality_upper_bound_ s;
          point_forces_ := point_forces_ s;
          body_J_ := resize (length all_body_accelerations) (mZero 0 0) (body_J_ s);
          body_Jdv_ := resize (length all_body_accelerations) [] (body_Jdv_ s) |} |}.

Definition ResizeQP (robot : RigidBodyTree R)
    (all_supports : list (ContactInformation R))
    (all_body_accelerations : list (DesiredBodyAcceleration R))
    (c : QPController) : QPController :=
  let t := current_topology robot all_supports all_body_accelerations in
  if same_topology t (topology c) then c
  else rebuild t all_supports all_body_accelerations c.

(** *** Control, lines 101-370 *)

(** [for (size_t i = 0; i < l.size(); i++) body(i, l[i])] where the body can
    be cut short. *)
Fixpoint for_each {A St : Type} (body : nat → A → St → Run St) (i : nat) (l : list A) (s : St)
  : Run St :=
  match l with
  | [] => Returned s
  | a :: l' => s' ← body i a s; for_each body (S i) l' s'
  end.

(** [l[i] = x] on a std::vector. *)
Definition assign_at {A : Type} (l : list A) (i : nat) (x : A) : option (list A) :=
  if decide (i < length l) then Some (<[i := x]> l) else None.

Definition out_of_range : string := "index out of range".
Definition null_handle : string := "null handle".
Definition no_such_variable : string := "GetVariable: no such variable".

(** Modelled from the spec: SetTempMatricesToZero is defined in
    qp_controller.h, which is not among the sources.  "reset (zero-filled or
    fully overwritten) at the start of each cycle": the three matrices that
    Control fills block by block are zero-filled, with their dimensions
    kept. *)
Definition SetTempMatricesToZero (c : QPController) : QPController :=
  let s := scratch c in
  {| topology := topology c;
     prog_ := prog_ c;
     handles := handles c;
     scratch :=
       {| stacked_contact_jacobians_ := stacked_contact_jacobians_ s;
          basis_to_force_matrix_ := msetZero (basis_to_force_matrix_ s);
          stacked_contact_jacobians_dot_times_v_ := stacked_contact_jacobians_dot_times_v_ s;
          torque_linear_ := msetZero (torque_linear_ s);
          dynamics_linear_ := msetZero (dynamics_linear_ s);
          torque_constant_ := torque_constant_ s;
          dynamics_constant_ := dynamics_constant_ s;
          JB_ := JB_ s;
          inequality_linear_ := inequality_linear_ s;
          inequality_lower_bound_ := inequality_lower_bound_ s;
          inequality_upper_bound_ := inequality_upper_bound_ s;
          point_forces_ := point_forces_ s;
          body_J_ := body_J_ s;
          body_Jdv_ := body_Jdv_ s |} |}.

Definition force_dim_of (support : ContactInformation R) : nat :=
  3 * length (ci_contact_points support).

(** Lines 158-172: the contact Jacobians and basis matrices are stacked.  The
    state is rowIdx, colIdx and the three buffers. *)
Definition stack_contacts (rs : HumanoidStatus) (input : QPInput R) (t : Topology)
    (s : Scratch) : Run (nat * nat * Matrix R * Matrix R * Vector R) :=
  for_range 0 (num_contact_body_ t)
    (λ b '(rowIdx, colIdx, basis_to_force_matrix, stacked_contact_jacobians,
           stacked_contact_jacobians_dot_times_v),
       support ← or_abort out_of_range (contact_info input !! b);
       let force_dim := force_dim_of support in
       let basis_dim := ci_num_basis support in
       Returned
         (rowIdx + force_dim, colIdx + basis_dim,
          mset_block rowIdx colIdx force_dim basis_dim
            (ComputeBasisMatrix support (robot rs) (cache rs)) basis_to_force_matrix,
          mset_block rowIdx 0 force_dim (num_vd_ t)
            (ComputeJacobianAtContactPoints support (robot rs) (cache rs))
            stacked_contact_jacobians,
          vset_segment rowIdx force_dim
            (ComputeJacobianDotTimesVAtContactPoints support (robot rs) (cache rs))
            stacked_contact_jacobians_dot_times_v))
    (0, 0, basis_to_force_matrix_ s, stacked_contact_jacobians_ s,
     stacked_contact_jacobians_dot_times_v_ s).

(** Lines 194-201: the contact equalities are refreshed, three rows per
    contact point. *)
Definition update_contacts (input : QPInput R) (t : Topology) (hs : Handles)
    (stacked_contact_jacobians : Matrix R) (stacked_contact_jacobians_dot_times_v : Vector R)
    (prog : MathematicalProgram R) : Run (nat * MathematicalProgram R) :=
  for_range 0 (num_contact_body_ t)
    (λ i '(rowIdx, prog),
       support ← or_abort out_of_range (contact_info input !! i);
       let force_dim := force_dim_of support in
       h ← or_abort out_of_range (eq_contacts_ hs !! i);
       prog' ← or_abort null_handle
         (UpdateEquality h
            (mblock rowIdx 0 force_dim (num_vd_ t) stacked_contact_jacobians)
            (vneg (vsegment rowIdx force_dim stacked_contact_jacobians_dot_times_v))
            prog);
       Returned (rowIdx + force_dim, prog'))
    (0, prog).

(** Lines 221-224: the effort limits are added to the two bounds. *)
Definition add_effort_limits (acts : list (RigidBodyActuator R))
    (inequality_lower_bound inequality_upper_bound : Vector R) : Vector R * Vector R :=
  fold_indexed
    (λ i a '(lb, ub),
       (<[i := sc_add (vget lb i) (effort_limit_min_ a)]> lb,
        <[i := sc_add (vget ub i) (effort_limit_max_ a)]> ub))
    0 acts (inequality_lower_bound, inequality_upper_bound).

(** Lines 237-247: the Jacobians of the tracked bodies are stored and their
    costs refreshed. *)
Definition update_body_costs (rs : HumanoidStatus)
    (body_motions_d : list (DesiredBodyAcceleration R)) (hs : Handles)
    (init : list (Matrix R) * list (Vector R) * MathematicalProgram R)
  : Run (list (Matrix R) * list (Vector R) * MathematicalProgram R) :=
  for_each
    (λ i body_motion_d '(body_J, body_Jdv, prog),
       let J := GetTaskSpaceJacobian (robot rs) (cache rs) (dba_body body_motion_d) (vZero 3) in
       let Jdv :=
         GetTaskSpaceJacobianDotTimesV (robot rs) (cache rs) (dba_body body_motion_d)
           (vZero 3) in
       body_J' ← or_abort out_of_range (assign_at body_J i J);
       body_Jdv' ← or_abort out_of_range (assign_at body_Jdv i Jdv);
       h ← or_abort out_of_range (cost_body_accelerations_ hs !! i);
       prog' ← or_abort null_handle
         (UpdateQuadratic h
            (mmul (mscale (dba_weight body_motion_d) (mtranspose J)) J)
            (mvmul (mscale (dba_weight body_motion_d) (mtranspose J))
               (vsub Jdv (dba_acceleration body_motion_d)))
            prog);
       Returned (body_J', body_Jdv', prog'))
    0 body_motions_d init.

(** Lines 154-255: every constraint and cost receives this cycle's
    coefficients.  [vd_view] and [basis_view] are the views of lines 151-152. *)
Definition Formulate (rs : HumanoidStatus) (input : QPInput R)
    (vd_view basis_view : DecisionVariableView) (c : QPController) : Run QPController :=
  let t := topology c in
  let hs := handles c in
  let s := scratch c in
  let basis_start := dv_index basis_view in
  let vd_start := dv_index vd_view in
  '(rowIdx, colIdx, basis_to_force_matrix, stacked_contact_jacobians,
    stacked_contact_jacobians_dot_times_v) ← stack_contacts rs input t s;
  let JB := mmul (mtranspose stacked_contact_jacobians) basis_to_force_matrix in
  _ ← DRAKE_ASSERT (Nat.eqb rowIdx (num_point_force_ t * 3)) "rowIdx == num_point_force_ * 3";
  _ ← DRAKE_ASSERT (Nat.eqb colIdx (num_basis_ t)) "colIdx == num_basis_";
  let torque_linear :=
    mset_block 0 basis_start (num_torque_ t) (num_basis_ t)
      (mneg (bottomRows (num_torque_ t) JB))
      (mset_block 0 vd_start (num_torque_ t) (num_vd_ t)
         (bottomRows (num_torque_ t) (M rs)) (torque_linear_ s)) in
  let torque_constant := vtail (num_torque_ t) (bias_term rs) in
  let dynamics_linear :=
    mset_block 0 basis_start 6 (num_basis_ t) (mneg (topRows 6 JB))
      (mset_block 0 vd_start 6 (num_vd_ t) (topRows 6 (M rs)) (dynamics_linear_ s)) in
  let dynamics_constant := vneg (vhead 6 (bias_term rs)) in
  prog ← or_abort null_handle
    (UpdateEquality (eq_dynamics_ hs) dynamics_linear dynamics_constant (prog_ c));
  '(rowIdx', prog) ←
    update_contacts input t hs stacked_contact_jacobians
      stacked_contact_jacobians_dot_times_v prog;
  _ ← DRAKE_ASSERT (Nat.eqb rowIdx' (num_point_force_ t * 3)) "rowIdx == num_point_force_ * 3";
  let B_l_transpose := mtranspose (bottomRows (num_torque_ t) (B (robot rs))) in
  let inequality_linear := mmul B_l_transpose torque_linear in
  let projected := mvmul (mneg B_l_transpose) torque_constant in
  let '(inequality_lower_bound, inequality_upper_bound) :=
    add_effort_limits (actuators (robot rs)) projected projected in
  prog ← or_abort null_handle
    (UpdateLinear (ineq_torque_limit_ hs) inequality_linear inequality_lower_bound
       inequality_upper_bound prog);
  prog ← or_abort null_handle
    (UpdateQuadratic (cost_comdd_ hs)
       (mmul (mscale (w_com input) (mtranspose (J_com rs))) (J_com rs))
       (mvmul (mscale (w_com input) (mtranspose (J_com rs)))
          (vsub (Jdot_times_v_com rs) (desired_comdd input)))
       prog);
  '(body_J, body_Jdv, prog) ←
    update_body_costs rs (desired_body_accelerations input) hs
      (body_J_ s, body_Jdv_ s, prog);
  prog ← or_abort null_handle
    (UpdateQuadratic (cost_vd_reg_ hs)
       (mscale (w_vd input) (mIdentity (num_vd_ t) (num_vd_ t)))
       (vscale (w_vd input) (vneg (desired_vd input)))
       prog);
  prog ← or_abort null_handle
    (UpdateQuadratic (cost_basis_reg_ hs)
       (mscale (w_basis_reg input) (mIdentity (num_basis_ t) (num_basis_ t)))
       (vZero (num_basis_ t))
       prog);
  Returned
    {| topology := t;
       prog_ := prog;
       handles := hs;
       scratch :=
         {| stacked_contact_jacobians_ := stacked_contact_jacobians;
            basis_to_force_matrix_ := basis_to_force_matrix;
            stacked_contact_jacobians_dot_times_v_ := stacked_contact_jacobians_dot_times_v;
            torque_linear_ := torque_linear;
            dynamics_linear_ := dynamics_linear;
            torque_constant_ := torque_constant;
            dynamics_constant_ := dynamics_constant;
            JB_ := JB;
            inequality_linear_ := inequality_linear;
            inequality_lower_bound_ := inequality_lower_bound;
            inequality_upper_bound_ := inequality_upper_bound;
            point_forces_ := point_forces_ s;
            body_J_ := body_J;
            body_Jdv_ := body_Jdv |} |}.

(** A(), lower_bound() and upper_bound() of a constraint.  The bounds of a
    cost are never read by the controller. *)
Definition constraint_A (c : Constraint R) : Matrix R :=
  match c with
  | LinearEqualityConstraint A _ => A
  | LinearConstraint A _ _ => A
  | QuadraticConstraint Q _ => Q
  end.
Definition lower_bound (c : Constraint R) : Vector R :=
  match c with
  | LinearEqualityConstraint _ beq => beq
  | LinearConstraint _ lb _ => lb
  | QuadraticConstraint _ _ => []
  end.
Definition upper_bound (c : Constraint R) : Vector R :=
  match c with
  | LinearEqualityConstraint _ beq => beq
  | LinearConstraint _ _ ub => ub
  | QuadraticConstraint _ _ => []
  end.

(** Lines 278-287: the value of every cost term, with its description. *)
Definition cost_values (p : MathematicalProgram R) : list (string * R) :=
  map (λ cost_b,
         (description cost_b,
          vget (Eval (constraint cost_b) (VariableListToVectorXd cost_b p)) 0))
      (quadratic_costs p).

(** Line 292: the condition asserted for one equality. *)
Definition equality_residual_ok (eq_b : Binding R) (p : MathematicalProgram R) : bool :=
  let X := VariableListToVectorXd eq_b p in
  visZero EPSILON (vsub (mvmul (constraint_A (constraint eq_b)) X) (lower_bound (constraint eq_b))).

(** Lines 300-301: the condition asserted for row i of one inequality. *)
Definition within_bounds (ineq : Constraint R) (X : Vector R) (i : nat) : bool :=
  sc_leb (sc_sub (vget (lower_bound ineq) i) EPSILON) (vget X i) &&
  sc_leb (vget X i) (sc_add (vget (upper_bound ineq) i) EPSILON).

(** Lines 289-293. *)
Definition check_equalities (p : MathematicalProgram R) : Run unit :=
  for_each
    (λ _ eq_b _, DRAKE_ASSERT (equality_residual_ok eq_b p) "equality constraint residual")
    0 (linear_equality_constraints p) ().

(** Lines 295-303. *)
Definition check_inequalities (p : MathematicalProgram R) : Run unit :=
  for_each
    (λ _ ineq_b _,
       let X := mvmul (constraint_A (constraint ineq_b)) (VariableListToVectorXd ineq_b p) in
       for_range 0 (length X)
         (λ i _, DRAKE_ASSERT (within_bounds (constraint ineq_b) X i)
                   "inequality constraint bounds")
         ())
    0 (linear_constraints p) ().

(** Lines 312-333: the solution is split into one ResolvedContact per
    contact body.  The state is basis_index, point_force_index and the
    contacts resolved so far. *)
Definition resolve_contacts (rs : HumanoidStatus) (contacts : list (ContactInformation R))
    (basis_value point_forces : Vector R) : list (ResolvedContact R) :=
  snd (fold_left
    (λ '(basis_index, point_force_index, resolved) contact_info,
       let '(contact_points, reference_point) :=
         ComputeContactPointsAndWrenchReferencePoint contact_info (robot rs) (cache rs)
           (vZero 3) in
       let n := ci_num_contact_points contact_info in
       let resolved_contact :=
         {| rc_body := ci_body contact_info;
            rc_basis := vsegment basis_index (ci_num_basis contact_info) basis_value;
            rc_point_forces :=
              map (λ j, vsegment (point_force_index + 3 * j) 3 point_forces) (seq 0 n);
            rc_contact_points := contact_points;
            rc_equivalent_wrench :=
              mvmul (ComputeWrenchMatrix contact_info contact_points reference_point)
                    (vsegment point_force_index (3 * n) point_forces);
            rc_reference_point := reference_point |} in
       ((basis_index + ci_num_basis contact_info, point_force_index + 3 * n),
        resolved ++ [resolved_contact]))
    contacts ((0, 0), [])).

(** Lines 339-344: the acceleration of every tracked body, from the stored
    Jacobians. *)
Definition output_body_accelerations (motions : list (DesiredBodyAcceleration R))
    (body_J : list (Matrix R)) (body_Jdv : list (Vector R)) (vd_out : Vector R)
  : Run (list (BodyAcceleration R)) :=
  for_each
    (λ i d acc,
       J ← or_abort out_of_range (body_J !! i);
       Jdv ← or_abort out_of_range (body_Jdv !! i);
       Returned (acc ++ [{| ba_body := dba_body d;
                            ba_acceleration := vadd (mvmul J vd_out) Jdv |}]))
    0 motions [].

(** Lines 354-361: gravity plus the contact wrenches, each moment taken
    about the centre of mass. *)
Definition net_external_wrench (rs : HumanoidStatus) (t : Topology)
    (resolved : list (ResolvedContact R)) : Run (Vector R) :=
  for_range 0 (num_contact_body_ t)
    (λ i net_wrench,
       rc ← or_abort out_of_range (resolved !! i);
       let contact_wrench := rc_equivalent_wrench rc in
       let ref_point := rc_reference_point rc in
       let net_wrench := vadd net_wrench contact_wrench in
       Returned
         (vset_segment 0 3
            (vadd (vsegment 0 3 net_wrench)
                  (cross (vsub ref_point (com rs)) (vsegment 3 3 contact_wrench)))
            net_wrench))
    (vscale (getMass (robot rs)) (a_grav (robot rs))).

(** Line 352. *)
Definition momentum_rate (rs : HumanoidStatus) (vd_out : Vector R) : Vector R :=
  vadd (mvmul (centroidal_momentum_matrix rs) vd_out)
       (centroidal_momentum_matrix_dot_times_v rs).

(** What a call hands back: the int it returns, the lines it wrote to
    std::cerr, and the two objects it may have changed. *)
Record ControlResult := {
  ret : Z;
  cerr : list string;
  controller : QPController;
  qp_output : QPOutput R;
}.

Definition with_prog (p : MathematicalProgram R) (c : QPController) : QPController :=
  {| topology := topology c; prog_ := p; handles := handles c; scratch := scratch c |}.

Definition with_point_forces (f : Vector R) (c : QPController) : QPController :=
  let s := scratch c in
  {| topology := topology c;
     prog_ := prog_ c;
     handles := handles c;
     scratch :=
       {| stacked_contact_jacobians_ := stacked_contact_jacobians_ s;
          basis_to_force_matrix_ := basis_to_force_matrix_ s;
          stacked_contact_jacobians_dot_times_v_ := stacked_contact_jacobians_dot_times_v_ s;
          torque_linear_ := torque_linear_ s;
          dynamics_linear_ := dynamics_linear_ s;
          torque_constant_ := torque_constant_ s;
          dynamics_constant_ := dynamics_constant_ s;
          JB_ := JB_ s;
          inequality_linear_ := inequality_linear_ s;
          inequality_lower_bound_ := inequality_lower_bound_ s;
          inequality_upper_bound_ := inequality_upper_bound_ s;
          point_forces_ := f;
          body_J_ := body_J_ s;
          body_Jdv_ := body_Jdv_ s |} |}.

(** Lines 270-369: the solution is checked and written to the output. *)
Definition Decompose (rs : HumanoidStatus) (input : QPInput R)
    (vd_view basis_view : DecisionVariableView) (c : QPController)
    (output : QPOutput R) : Run ControlResult :=
  let t := topology c in
  let s := scratch c in
  let solution := GetSolution (prog_ c) in
  let output_costs := cost_values (prog_ c) in
  _ ← check_equalities (prog_ c);
  _ ← check_inequalities (prog_ c);
  let point_forces := mvmul (basis_to_force_matrix_ s) (value basis_view (prog_ c)) in
  let resolved :=
    resolve_contacts rs (contact_info input) (value basis_view (prog_ c)) point_forces in
  let output_vd := value vd_view (prog_ c) in
  let output_comdd := vadd (mvmul (J_com rs) output_vd) (Jdot_times_v_com rs) in
  accelerations ←
    output_body_accelerations (desired_body_accelerations input) (body_J_ s) (body_Jdv_ s)
      output_vd;
  let output_joint_torque := vadd (mvmul (torque_linear_ s) solution) (torque_constant_ s) in
  let Ld := momentum_rate rs output_vd in
  net_wrench ← net_external_wrench rs t resolved;
  _ ← DRAKE_ASSERT (visZero EPSILON (vsub net_wrench Ld)) "(net_wrench - Ld).isZero(EPSILON)";
  let output' :=
    {| vd := output_vd;
       comdd := output_comdd;
       joint_torque := output_joint_torque;
       resolved_contacts := resolved;
       body_accelerations := accelerations;
       costs := output_costs |} in
  let c' := with_point_forces point_forces c in
  if negb (QPOutput_is_valid output' (number_of_velocities (robot rs))
             (length (actuators (robot rs))))
  then Returned {| ret := (-1)%Z; cerr := ["output is invalid"];
                   controller := c'; qp_output := output' |}
  else Returned {| ret := 0%Z; cerr := []; controller := c'; qp_output := output' |}.

(** Lines 257-369: the solver is asked, and its answer is checked and
    written to the output. *)
Definition solve_and_decompose (rs : HumanoidStatus) (input : QPInput R)
    (vd_view basis_view : DecisionVariableView) (c : QPController)
    (output : QPOutput R) : Run ControlResult :=
  if negb available then
    Returned {| ret := (-1)%Z; cerr := ["Solver not available."];
                controller := c; qp_output := output |}
  else
    let '(result, x) := Solve (prog_ c) in
    let c := with_prog (SetDecisionVariableValues x (prog_ c)) c in
    if negb (is_kSolutionFound result) then
      Returned {| ret := (-1)%Z; cerr := ["solution not found"];
                  controller := c; qp_output := output |}
    else Decompose rs input vd_view basis_view c output.

(** Lines 108-110: the controller as Control hands it to the formulation. *)
Definition prepared (rs : HumanoidStatus) (input : QPInput R) (c : QPController)
  : QPController :=
  SetTempMatricesToZero
    (ResizeQP (robot rs) (contact_info input) (desired_body_accelerations input) c).

(** Lines 101-370.  The lines written to std::cerr are kept without their
    final newline. *)
Definition Control (rs : HumanoidStatus) (input : QPInput R) (c : QPController)
    (output : QPOutput R) : Run ControlResult :=
  if negb (QPInput_is_valid input (number_of_velocities (robot rs))) then
    Returned {| ret := (-1)%Z; cerr := ["input is invalid"];
                controller := c; qp_output := output |}
  else
    let c := prepared rs input c in
    vd_view ← or_abort no_such_variable (GetVariable "vd" (prog_ c));
    basis_view ← or_abort no_such_variable (GetVariable "basis" (prog_ c));
    c ← Formulate rs input vd_view basis_view c;
    solve_and_decompose rs input vd_view basis_view c output.

(** *** The structure a controller keeps between cycles

    [layout t] is where ResizeQP leaves each handle; [structured c] says that
    the program, the handles and the buffers of [c] are the ones ResizeQP
    built for the counts [c] stores. *)

Definition layout (t : Topology) : Handles :=
  let n := num_contact_body_ t in
  let m := num_body_acceleration_ t in
  {| eq_dynamics_ := Some 0;
     eq_contacts_ := Some <$> seq 1 n;
     ineq_contact_wrench_ := Some (1 + n);
     ineq_torque_limit_ := Some (2 + n);
     cost_comdd_ := Some (3 + n);
     cost_body_accelerations_ := Some <$> seq (4 + n) m;
     cost_vd_reg_ := Some (4 + n + m);
     cost_basis_reg_ := Some (5 + n + m) |}.

Definition has_dims (r c : nat) (A : Matrix R) : Prop := mrows A = r ∧ mcols A = c.

Record structured (c : QPController) : Prop := {
  st_variables :
    variables (prog_ c) =
      [ ("vd", {| dv_index := 0; dv_size := num_vd_ (topology c) |});
        ("basis", {| dv_index := num_vd_ (topology c); dv_size := num_basis_ (topology c) |}) ];
  st_num_variable :
    num_variable_ (topology c) = num_vd_ (topology c) + num_basis_ (topology c);
  st_handles : handles c = layout (topology c);
  st_bindings :
    length (bindings (prog_ c)) =
      6 + num_contact_body_ (topology c) + num_body_acceleration_ (topology c);
  st_body_J : length (body_J_ (scratch c)) = num_body_acceleration_ (topology c);
  st_body_Jdv : length (body_Jdv_ (scratch c)) = num_body_acceleration_ (topology c);
  st_stacked :
    has_dims (3 * num_point_force_ (topology c)) (num_vd_ (topology c))
      (stacked_contact_jacobians_ (scratch c));
  st_basis_to_force :
    has_dims (3 * num_point_force_ (topology c)) (num_basis_ (topology c))
      (basis_to_force_matrix_ (scratch c));
  st_stacked_dot :
    length (stacked_contact_jacobians_dot_times_v_ (scratch c)) =
      3 * num_point_force_ (topology c);
  st_torque_linear :
    has_dims (num_torque_ (topology c)) (num_variable_ (topology c))
      (torque_linear_ (scratch c));
  st_dynamics_linear :
    has_dims 6 (num_variable_ (topology c)) (dynamics_linear_ (scratch c));
}.

(** The two sums of lines 17-20, as sums. *)
Fixpoint total_basis (l : list (ContactInformation R)) : nat :=
  match l with
  | [] => 0
  | s :: l' => ci_num_basis s + total_basis l'
  end.
Fixpoint total_points (l : list (ContactInformation R)) : nat :=
  match l with
  | [] => 0
  | s :: l' => length (ci_contact_points s) + total_points l'
  end.

(** What Formulate has done when it returns [c'] for the controller [c] it
    received: the counts, the handles and the shape of the program are kept,
    the buffers hold this cycle's quantities, and each declaration the
    handles point to has this cycle's coefficients (the basis inequality, which
    is constant, keeps its own). *)
Record formulated (rs : HumanoidStatus) (input : QPInput R) (c c' : QPController) : Prop := {
  fm_topology : topology c' = topology c;
  fm_handles : handles c' = handles c;
  fm_variables : variables (prog_ c') = variables (prog_ c);
  fm_num_vars : num_vars (prog_ c') = num_vars (prog_ c);
  fm_x_values : x_values (prog_ c') = x_values (prog_ c);
  fm_length : length (bindings (prog_ c')) = length (bindings (prog_ c));
  fm_stacked_dims : ∀ r k,
    has_dims r k (stacked_contact_jacobians_ (scratch c)) →
    has_dims r k (stacked_contact_jacobians_ (scratch c'));
  fm_basis_to_force_dims : ∀ r k,
    has_dims r k (basis_to_force_matrix_ (scratch c)) →
    has_dims r k (basis_to_force_matrix_ (scratch c'));
  fm_stacked_dot_length :
    length (stacked_contact_jacobians_dot_times_v_ (scratch c')) =
    length (stacked_contact_jacobians_dot_times_v_ (scratch c));
  fm_body_J_length : length (body_J_ (scratch c')) = length (body_J_ (scratch c));
  fm_body_Jdv_length : length (body_Jdv_ (scratch c')) = length (body_Jdv_ (scratch c));
  fm_point_forces : point_forces_ (scratch c') = point_forces_ (scratch c);
  fm_JB :
    JB_ (scratch c') =
      mmul (mtranspose (stacked_contact_jacobians_ (scratch c')))
           (basis_to_force_matrix_ (scratch c'));
  fm_torque_linear :
    torque_linear_ (scratch c') =
      mset_block 0 (num_vd_ (topology c)) (num_torque_ (topology c)) (num_basis_ (topology c))
        (mneg (bottomRows (num_torque_ (topology c)) (JB_ (scratch c'))))
        (mset_block 0 0 (num_torque_ (topology c)) (num_vd_ (topology c))
           (bottomRows (num_torque_ (topology c)) (M rs)) (torque_linear_ (scratch c)));
  fm_torque_constant :
    torque_constant_ (scratch c') = vtail (num_torque_ (topology c)) (bias_term rs);
  fm_dynamics_linear :
    dynamics_linear_ (scratch c') =
      mset_block 0 (num_vd_ (topology c)) 6 (num_basis_ (topology c))
        (mneg (topRows 6 (JB_ (scratch c'))))
        (mset_block 0 0 6 (num_vd_ (topology c)) (topRows 6 (M rs))
           (dynamics_linear_ (scratch c)));
  fm_dynamics_constant : dynamics_constant_ (scratch c') = vneg (vhead 6 (bias_term rs));
  fm_inequality_linear :
    inequality_linear_ (scratch c') =
      mmul (mtranspose (bottomRows (num_torque_ (topology c)) (B (robot rs))))
           (torque_linear_ (scratch c'));
  fm_inequality_bounds :
    (inequality_lower_bound_ (scratch c'), inequality_upper_bound_ (scratch c')) =
      add_effort_limits (actuators (robot rs))
        (mvmul (mneg (mtranspose (bottomRows (num_torque_ (topology c)) (B (robot rs)))))
               (torque_constant_ (scratch c')))
        (mvmul (mneg (mtranspose (bottomRows (num_torque_ (topology c)) (B (robot rs)))))
               (torque_constant_ (scratch c')));
  fm_eq_dynamics :
    bindings (prog_ c') !! 0 =
      with_constraint
        (LinearEqualityConstraint (dynamics_linear_ (scratch c'))
           (dynamics_constant_ (scratch c')))
      <$> bindings (prog_ c) !! 0;
  fm_eq_contacts : ∀ i s,
    contact_info input !! i = Some s →
    bindings (prog_ c') !! (1 + i) =
      with_constraint
        (LinearEqualityConstraint
           (mblock (3 * total_points (take i (contact_info input))) 0 (force_dim_of s)
              (num_vd_ (topology c)) (stacked_contact_jacobians_ (scratch c')))
           (vneg (vsegment (3 * total_points (take i (contact_info input))) (force_dim_of s)
                    (stacked_contact_jacobians_dot_times_v_ (scratch c')))))
      <$> bindings (prog_ c) !! (1 + i);
  fm_ineq_contact_wrench :
    bindings (prog_ c') !! (1 + num_contact_body_ (topology c)) =
    bindings (prog_ c) !! (1 + num_contact_body_ (topology c));
  fm_ineq_torque_limit :
    bindings (prog_ c') !! (2 + num_contact_body_ (topology c)) =
      with_constraint
        (LinearConstraint (inequality_linear_ (scratch c'))
           (inequality_lower_bound_ (scratch c')) (inequality_upper_bound_ (scratch c')))
      <$> bindings (prog_ c) !! (2 + num_contact_body_ (topology c));
  fm_cost_comdd :
    bindings (prog_ c') !! (3 + num_contact_body_ (topology c)) =
      with_constraint
        (QuadraticConstraint
           (mmul (mscale (w_com input) (mtranspose (J_com rs))) (J_com rs))
           (mvmul (mscale (w_com input) (mtranspose (J_com rs)))
              (vsub (Jdot_times_v_com rs) (desired_comdd input))))
      <$> bindings (prog_ c) !! (3 + num_contact_body_ (topology c));
  fm_cost_bodies : ∀ i d,
    desired_body_accelerations input !! i = Some d →
    let J := GetTaskSpaceJacobian (robot rs) (cache rs) (dba_body d) (vZero 3) in
    let Jdv := GetTaskSpaceJacobianDotTimesV (robot rs) (cache rs) (dba_body d) (vZero 3) in
    body_J_ (scratch c') !! i = Some J ∧
    body_Jdv_ (scratch c') !! i = Some Jdv ∧
    bindings (prog_ c') !! (4 + num_contact_body_ (topology c) + i) =
      with_constraint
        (QuadraticConstraint
           (mmul (mscale (dba_weight d) (mtranspose J)) J)
           (mvmul (mscale (dba_weight d) (mtranspose J)) (vsub Jdv (dba_acceleration d))))
      <$> bindings (prog_ c) !! (4 + num_contact_body_ (topology c) + i);
  fm_cost_vd_reg :
    bindings (prog_ c') !!
      (4 + num_contact_body_ (topology c) + num_body_acceleration_ (topology c)) =
      with_constraint
        (QuadraticConstraint
           (mscale (w_vd input) (mIdentity (num_vd_ (topology c)) (num_vd_ (topology c))))
           (vscale (w_vd input) (vneg (desired_vd input))))
      <$> bindings (prog_ c) !!
            (4 + num_contact_body_ (topology c) + num_body_acceleration_ (topology c));
  fm_cost_basis_reg :
    bindings (prog_ c') !!
      (5 + num_contact_body_ (topology c) + num_body_acceleration_ (topology c)) =
      with_constraint
        (QuadraticConstraint
           (mscale (w_basis_reg input)
              (mIdentity (num_basis_ (topology c)) (num_basis_ (topology c))))
           (vZero (num_basis_ (topology c))))
      <$> bindings (prog_ c) !!
            (5 + num_contact_body_ (topology c) + num_body_acceleration_ (topology c));
}.

(** A controller is ready for a cycle when it is structured, or when its
    stored counts differ from the cycle's, so that ResizeQP rebuilds it. *)
Definition ready (rs : HumanoidStatus) (input : QPInput R) (c : QPController) : Prop :=
  structured c ∨
  topology c ≠ current_topology (robot rs) (contact_info input)
                 (desired_body_accelerations input).

(** The kind and the description of a declaration. *)
Inductive Kind := equality | inequality | cost.
Definition kind_of (b : Binding R) : Kind :=
  match constraint b with
  | LinearEqualityConstraint _ _ => equality
  | LinearConstraint _ _ _ => inequality
  | QuadraticConstraint _ _ => cost
  end.
Definition declaration (b : Binding R) : Kind * string := (kind_of b, description b).

(** The five outcomes of a cycle the specification names, read off the line
    the call wrote to std::cerr. *)
Inductive CycleOutcome :=
  | success
  | input_invalid
  | solver_unavailable
  | no_solution_found
  | output_invalid.

Definition message (o : CycleOutcome) : list string :=
  match o with
  | success => []
  | input_invalid => ["input is invalid"]
  | solver_unavailable => ["Solver not available."]
  | no_solution_found => ["solution not found"]
  | output_invalid => ["output is invalid"]
  end.

(** The wrench balance in the specification's words: the gravity wrench plus
    every resolved contact wrench, the moment of each recombined about the
    centre of mass. *)
Definition recombined_about_com (rs : HumanoidStatus) (rc : ResolvedContact R)
    (net_wrench : Vector R) : Vector R :=
  let sum := vadd net_wrench (rc_equivalent_wrench rc) in
  vset_segment 0 3
    (vadd (vsegment 0 3 sum)
          (cross (vsub (rc_reference_point rc) (com rs))
                 (vsegment 3 3 (rc_equivalent_wrench rc))))
    sum.
Definition net_wrench_about_com (rs : HumanoidStatus) (resolved : list (ResolvedContact R))
  : Vector R :=
  fold_left (λ w rc, recombined_about_com rs rc w) resolved
    (vscale (getMass (robot rs)) (a_grav (robot rs))).


(** *** The properties claimed of a cycle *)

(** The output torque is the affine map of the solver's vector, and the map
    is built from the mass matrix, JB_ and the bias term. *)
Definition torque_affine_map (rs : HumanoidStatus) (r : ControlResult) : Prop :=
  let s := scratch (controller r) in
  let t := topology (controller r) in
  let solution := GetSolution (prog_ (controller r)) in
  (∃ p result, Solve p = (result, solution)) ∧
  joint_torque (qp_output r) = vadd (mvmul (torque_linear_ s) solution) (torque_constant_ s) ∧
  mblock 0 0 (num_torque_ t) (num_vd_ t) (torque_linear_ s)
    = bottomRows (num_torque_ t) (M rs) ∧
  mblock 0 (num_vd_ t) (num_torque_ t) (num_basis_ t) (torque_linear_ s)
    = mneg (bottomRows (num_torque_ t) (JB_ s)) ∧
  JB_ s = mmul (mtranspose (stacked_contact_jacobians_ s)) (basis_to_force_matrix_ s) ∧
  torque_constant_ s = vtail (num_torque_ t) (bias_term rs).

(** The declaration ineq_torque_limit_ points to holds the projected torque
    map and, per actuator, the effort limits minus the projected constant. *)
Definition torque_limit_refreshed (rs : HumanoidStatus) (r : ControlResult) : Prop :=
  let s := scratch (controller r) in
  let t := topology (controller r) in
  let B_l_transpose := mtranspose (bottomRows (num_torque_ t) (B (robot rs))) in
  let projected := mvmul B_l_transpose (torque_constant_ s) in
  ∃ i_limit b lb ub,
    ineq_torque_limit_ (handles (controller r)) = Some i_limit ∧
    bindings (prog_ (controller r)) !! i_limit = Some b ∧
    constraint b = LinearConstraint (mmul B_l_transpose (torque_linear_ s)) lb ub ∧
    length lb = length (actuators (robot rs)) ∧
    length ub = length (actuators (robot rs)) ∧
    ∀ i a, actuators (robot rs) !! i = Some a →
      vget lb i = sc_sub (effort_limit_min_ a) (vget projected i) ∧
      vget ub i = sc_sub (effort_limit_max_ a) (vget projected i).



(** The claim that the int Control returns identifies the outcome: some way
    of reading the int gives, for every cycle that returns, the outcome whose
    line the cycle wrote. *)
Definition return_code_tells_outcome : Prop :=
  ∃ decode : Z → CycleOutcome,
    ∀ (rs : HumanoidStatus) (input : QPInput R) (c : QPController) (output : QPOutput R)
      (r : ControlResult),
      Control rs input c output = Returned r → cerr r = message (decode (ret r)).

(** The cycle got past the solve: it succeeded, or only the validity check
    of the output failed. *)
Definition past_solve (r : ControlResult) : Prop :=
  cerr r = message success ∨ cerr r = message output_invalid.

(** The cycle failed at the solver. *)
Definition failed_at_solver (r : ControlResult) : Prop :=
  cerr r = message solver_unavailable ∨ cerr r = message no_solution_found.

End Controller.

Arguments Scratch R : clear implicits.
Arguments QPController R : clear implicits.
Arguments ControlResult R : clear implicits.

(** ** A concrete robot: rational scalars, one contact, one actuator

    A floating base with a single actuated joint stands on one contact point
    under its centre of mass.  Generalized velocities are ordered angular,
    linear, joint; gravity pulls with 10 along -z on a unit mass. *)

Module Example.
Import QArith Qabs.

#[export] Instance Q_scalar : Scalar Q := {|
  sc_zero := 0%Q;
  sc_one := 1%Q;
  sc_int := inject_Z;
  sc_add := Qplus;
  sc_sub := Qminus;
  sc_mul := Qmult;
  sc_neg := Qopp;
  sc_abs := Qabs;
  sc_leb := Qle_bool;
|}.

Definition q (z : Z) : Q := inject_Z z.
Definition qv (l : list Z) : Vector Q := map q l.
Definition qm (r c : nat) (l : list (list Z)) : Matrix Q := mkMatrix r c (map (map q) l).

(** 0.5 x'Qx + b'x, the value of a quadratic cost; a linear constraint
    evaluates to Ax. *)
Definition quadratic_value (c : Constraint Q) (x : Vector Q) : Vector Q :=
  match c with
  | QuadraticConstraint Q0 b =>
      [ Qplus (Qmult (1 # 2) (ssum (length x) (λ i, Qmult (vget x i) (vget (mvmul Q0 x) i))))
              (ssum (length x) (λ i, Qmult (vget b i) (vget x i))) ]
  | LinearEqualityConstraint A _ => mvmul A x
  | LinearConstraint A _ _ => mvmul A x
  end.

Definition foot : RigidBody := {| get_name := "foot"; body_index := 1 |}.
Definition pelvis : RigidBody := {| get_name := "pelvis"; body_index := 0 |}.

Definition contact_jacobian : Matrix Q :=
  qm 3 7 [ [0; 0; 0; 1; 0; 0; 0]; [0; 0; 0; 0; 1; 0; 0]; [0; 0; 0; 0; 0; 1; 0] ]%Z.

Definition wrench_matrix : Matrix Q :=
  qm 6 3 [ [0; 0; 0]; [0; 0; 0]; [0; 0; 0]; [1; 0; 0]; [0; 1; 0]; [0; 0; 1] ]%Z.

Definition pelvis_jacobian : Matrix Q :=
  qm 6 7 [ [1; 0; 0; 0; 0; 0; 0]; [0; 1; 0; 0; 0; 0; 0]; [0; 0; 1; 0; 0; 0; 0];
           [0; 0; 0; 1; 0; 0; 0]; [0; 0; 0; 0; 1; 0; 0]; [0; 0; 0; 0; 0; 1; 0] ]%Z.

(** The collaborators, for a given build (assertions armed or not) and a
    given solver back end. *)
Definition collaborators (armed : bool) (solver_available : bool)
    (solve : MathematicalProgram Q → SolutionResult * Vector Q) : Collaborators Q := {|
  KinematicsCache := unit;
  EPSILON := (1 # 100000000)%Q;
  kDrakeAssertIsArmed := armed;
  uninitialized := λ i j, q (Z.of_nat (7 + i + j));
  ComputeBasisMatrix := λ _ _ _, qm 3 1 [ [0]; [0]; [1] ]%Z;
  ComputeJacobianAtContactPoints := λ _ _ _, contact_jacobian;
  ComputeJacobianDotTimesVAtContactPoints := λ _ _ _, qv [0; 0; 0]%Z;
  ComputeContactPointsAndWrenchReferencePoint :=
    λ _ _ _ _, ([qv [0; 0; 0]%Z], qv [0; 0; 0]%Z);
  ComputeWrenchMatrix := λ _ _ _, wrench_matrix;
  GetTaskSpaceJacobian := λ _ _ _ _, pelvis_jacobian;
  GetTaskSpaceJacobianDotTimesV := λ _ _ _ _, qv [0; 0; 0; 0; 0; 0]%Z;
  available := solver_available;
  Solve := solve;
  Eval := quadratic_value;
  QPOutput_is_valid := λ out num_vd num_actuators,
    Nat.eqb (length (vd out)) num_vd && Nat.eqb (length (joint_torque out)) num_actuators;
|}.

Definition the_robot : RigidBodyTree Q := {|
  number_of_velocities := 7;
  actuators := [ {| effort_limit_min_ := q (-5); effort_limit_max_ := q 5 |} ];
  B := qm 7 1 [ [0]; [0]; [0]; [0]; [0]; [0]; [1] ]%Z;
  getMass := q 1;
  a_grav := qv [0; 0; 0; 0; 0; -10]%Z;
|}.

Definition standing {C : Collaborators Q} (cache_ : KinematicsCache) : HumanoidStatus := {|
  robot := the_robot;
  cache := cache_;
  M := mIdentity 7 7;
  bias_term := qv [0; 0; 0; 0; 0; 10; 2]%Z;
  J_com := contact_jacobian;
  Jdot_times_v_com := qv [0; 0; 0]%Z;
  centroidal_momentum_matrix := pelvis_jacobian;
  centroidal_momentum_matrix_dot_times_v := qv [0; 0; 0; 0; 0; 0]%Z;
  com := qv [0; 0; 0]%Z;
|}.

Definition foot_contact : ContactInformation Q := {|
  ci_body := foot;
  ci_name := "foot";
  ci_contact_points := [ qv [0; 0; 0]%Z ];
  ci_num_basis := 1;
|}.

Definition hold_pelvis : DesiredBodyAcceleration Q := {|
  dba_body := pelvis;
  dba_name := "pelvis";
  dba_weight := q 1;
  dba_acceleration := qv [0; 0; 0; 0; 0; 0]%Z;
|}.

Definition stand_still : QPInput Q := {|
  contact_info := [foot_contact];
  desired_body_accelerations := [hold_pelvis];
  desired_comdd := qv [0; 0; 0]%Z;
  desired_vd := qv [0; 0; 0; 0; 0; 0; 0]%Z;
  w_com := q 1;
  w_vd := q 1;
  w_basis_reg := q 1;
|}.

(** The same request with a regularization target of the wrong size. *)
Definition malformed : QPInput Q := {|
  contact_info := [foot_contact];
  desired_body_accelerations := [hold_pelvis];
  desired_comdd := qv [0; 0; 0]%Z;
  desired_vd := qv [0; 0; 0]%Z;
  w_com := q 1;
  w_vd := q 1;
  w_basis_reg := q 1;
|}.

(** A controller that has not run yet, and an output nobody has written. *)
Definition fresh_controller : QPController Q := {|
  topology := {| num_contact_body_ := 0; num_vd_ := 0; num_basis_ := 0; num_point_force_ := 0;
                 num_torque_ := 0; num_variable_ := 0; num_body_acceleration_ := 0 |};
  prog_ := MathematicalProgram_new;
  handles := {| eq_dynamics_ := None; eq_contacts_ := []; ineq_contact_wrench_ := None;
                ineq_torque_limit_ := None; cost_comdd_ := None;
                cost_body_accelerations_ := []; cost_vd_reg_ := None;
                cost_basis_reg_ := None |};
  scratch := {| stacked_contact_jacobians_ := mZero 0 0; basis_to_force_matrix_ := mZero 0 0;
                stacked_contact_jacobians_dot_times_v_ := []; torque_linear_ := mZero 0 0;
                dynamics_linear_ := mZero 0 0; torque_constant_ := [];
                dynamics_constant_ := []; JB_ := mZero 0 0; inequality_linear_ := mZero 0 0;
                inequality_lower_bound_ := []; inequality_upper_bound_ := [];
                point_forces_ := []; body_J_ := []; body_Jdv_ := [] |};
|}.

Definition blank_output : QPOutput Q := {|
  vd := []; comdd := []; joint_torque := []; resolved_contacts := [];
  body_accelerations := []; costs := [];
|}.

(** Three back ends: one that balances gravity with the contact force, one
    that reports a solution violating the dynamics, one that finds none. *)
Definition balancing_solver (p : MathematicalProgram Q) : SolutionResult * Vector Q :=
  (kSolutionFound, qv [0; 0; 0; 0; 0; 0; 0; 10]%Z).
Definition careless_solver (p : MathematicalProgram Q) : SolutionResult * Vector Q :=
  (kSolutionFound, qv [0; 0; 0; 0; 0; 0; 0; 3]%Z).
Definition failing_solver (p : MathematicalProgram Q) : SolutionResult * Vector Q :=
  (kInfeasibleConstraints, qv [0; 0; 0; 0; 0; 0; 0; 0]%Z).

(** The builds of the controller: assertions armed with each of the three
    back ends and with no back end, and assertions compiled out. *)
Definition checked_build : Collaborators Q := collaborators true true balancing_solver.
Definition careless_build : Collaborators Q := collaborators true true careless_solver.
Definition unchecked_build : Collaborators Q := collaborators false true careless_solver.
Definition infeasible_build : Collaborators Q := collaborators true true failing_solver.
Definition solverless_build : Collaborators Q := collaborators true false balancing_solver.

Definition returned (m : Run (ControlResult Q)) : ControlResult Q :=
  match m with
  | Returned r => r
  | Aborted _ =>
      {| ret := 1%Z; cerr := ["aborted"]; controller := fresh_controller;
         qp_output := blank_output |}
  end.

Definition balanced_result : ControlResult Q :=
  Eval vm_compute in
    returned (@Control Q _ checked_build (@standing checked_build tt) stand_still fresh_controller
                blank_output).
Definition unavailable_result : ControlResult Q :=
  Eval vm_compute in
    returned (@Control Q _ solverless_build (@standing solverless_build tt) stand_still fresh_controller
                blank_output).
Definition no_solution_result : ControlResult Q :=
  Eval vm_compute in
    returned (@Control Q _ infeasible_build (@standing infeasible_build tt) stand_still fresh_controller
                blank_output).
Definition rejected_result : ControlResult Q :=
  Eval vm_compute in
    returned (@Control Q _ solverless_build (@standing solverless_build tt) malformed
                fresh_controller blank_output).

End Example.

(** ** Further properties of a cycle

    What the rest of ResizeQP and Control does, stated of the result of a
    cycle: which assertions can cut it short, what the equalities hold, how
    the solution is split over the output, and what stays as ResizeQP
    declared it. *)

Section CycleProperties.
Context {R : Type} `{Collaborators R}.

(** The three checks after the solve (lines 292, 300-301 and 362), by the
    text of their assertion. *)
Definition post_solve_check (why : string) : Prop :=
  why = "equality constraint residual" ∨
  why = "inequality constraint bounds" ∨
  why = "(net_wrench - Ld).isZero(EPSILON)".

(** The h x (w1 + w2) matrix whose first w1 columns are read from X and whose
    last w2 columns are read from Y. *)
Definition beside (h w1 w2 : nat) (X Y : Matrix R) : Matrix R :=
  mbuild h (w1 + w2) (λ i j, if j <? w1 then mget X i j else mget Y i (j - w1)).

(** The declaration eq_dynamics_ points to holds the upper six rows of the
    equations of motion, and nothing else. *)
Definition dynamics_equality_refreshed (rs : HumanoidStatus) (r : ControlResult R) : Prop :=
  let s := scratch (controller r) in
  let t := topology (controller r) in
  ∃ i b,
    eq_dynamics_ (handles (controller r)) = Some i ∧
    bindings (prog_ (controller r)) !! i = Some b ∧
    constraint b = LinearEqualityConstraint (dynamics_linear_ s) (dynamics_constant_ s) ∧
    dynamics_linear_ s
      = beside 6 (num_vd_ t) (num_basis_ t) (topRows 6 (M rs)) (mneg (topRows 6 (JB_ s))) ∧
    dynamics_constant_ s = vneg (vhead 6 (bias_term rs)).

(** The declaration eq_contacts_[i] points to holds the Jacobian of contact
    i at its contact points, read as 3 rows per contact point by num_vd_
    columns, and minus its Jacobian-dot-times-v term. *)
Definition contact_equalities_refreshed (rs : HumanoidStatus) (input : QPInput R)
    (r : ControlResult R) : Prop :=
  ∀ i support, contact_info input !! i = Some support →
    ∃ j b,
      eq_contacts_ (handles (controller r)) !! i = Some (Some j) ∧
      bindings (prog_ (controller r)) !! j = Some b ∧
      constraint b =
        LinearEqualityConstraint
          (mbuild (force_dim_of support) (num_vd_ (topology (controller r)))
             (mget (ComputeJacobianAtContactPoints support (robot rs) (cache rs))))
          (vneg (vbuild (force_dim_of support)
                   (vget (ComputeJacobianDotTimesVAtContactPoints support (robot rs)
                            (cache rs))))).

(** Coefficient (x, y) of basis_to_force_matrix_ lies in the block of contact
    i: its rows are the three rows of each of its contact points, its columns
    its basis vectors. *)
Definition in_contact_block (l : list (ContactInformation R)) (i : nat)
    (support : ContactInformation R) (x y : nat) : Prop :=
  3 * total_points (take i l) ≤ x < 3 * total_points (take i l) + force_dim_of support ∧
  total_basis (take i l) ≤ y < total_basis (take i l) + ci_num_basis support.

(** basis_to_force_matrix_ is block diagonal: the block of contact i is the
    basis matrix of that contact, and every coefficient outside the blocks is
    zero. *)
Definition basis_to_force_block_diagonal (rs : HumanoidStatus) (input : QPInput R)
    (r : ControlResult R) : Prop :=
  let l := contact_info input in
  let basis_to_force_matrix := basis_to_force_matrix_ (scratch (controller r)) in
  (∀ i support, l !! i = Some support →
     mblock (3 * total_points (take i l)) (total_basis (take i l)) (force_dim_of support)
       (ci_num_basis support) basis_to_force_matrix
     = mbuild (force_dim_of support) (ci_num_basis support)
         (mget (ComputeBasisMatrix support (robot rs) (cache rs)))) ∧
  (∀ x y,
     (∀ i support, l !! i = Some support → ¬ in_contact_block l i support x y) →
     mget basis_to_force_matrix x y = sc_zero).

(** What a resolved contact holds for the contact descriptor it was made
    from: the body, as many basis coefficients as the descriptor has basis
    vectors, one 3-vector per contact point, the points and reference point
    the descriptor computes, and the wrench matrix applied to the contact's
    own point forces. *)
Definition resolved_like (rs : HumanoidStatus) (support : ContactInformation R)
    (rc : ResolvedContact R) : Prop :=
  rc_body rc = ci_body support ∧
  length (rc_basis rc) = ci_num_basis support ∧
  length (rc_point_forces rc) = ci_num_contact_points support ∧
  Forall (λ f, length f = 3) (rc_point_forces rc) ∧
  (rc_contact_points rc, rc_reference_point rc)
    = ComputeContactPointsAndWrenchReferencePoint support (robot rs) (cache rs) (vZero 3) ∧
  rc_equivalent_wrench rc
    = mvmul (ComputeWrenchMatrix support (rc_contact_points rc) (rc_reference_point rc))
            (concat (rc_point_forces rc)).

(** The acceleration reported for a tracked body: its task-space Jacobian at
    this cycle's state times the output acceleration, plus the
    Jacobian-dot-times-v term. *)
Definition body_acceleration_of (rs : HumanoidStatus) (vd_out : Vector R)
    (d : DesiredBodyAcceleration R) : BodyAcceleration R :=
  {| ba_body := dba_body d;
     ba_acceleration :=
       vadd (mvmul (GetTaskSpaceJacobian (robot rs) (cache rs) (dba_body d) (vZero 3)) vd_out)
            (GetTaskSpaceJacobianDotTimesV (robot rs) (cache rs) (dba_body d) (vZero 3)) |}.

(** The basis inequality as ResizeQP declares it (lines 70-73). *)
Definition basis_inequality (t : Topology) : Binding R :=
  {| constraint :=
       LinearConstraint (mIdentity (num_basis_ t) (num_basis_ t)) (vZero (num_basis_ t))
         (vConstant (num_basis_ t) (sc_int 1000));
     description := "contact force basis ineq";
     variable_list := [ {| dv_index := num_vd_ t; dv_size := num_basis_ t |} ] |}.

(** The kinds and descriptions ResizeQP gives to the declarations, in
    order. *)
Definition declared (all_supports : list (ContactInformation R))
    (all_body_accelerations : list (DesiredBodyAcceleration R)) : list (Kind * string) :=
  [ (equality, "dynamics eq") ] ++
  ((λ s, (equality, ci_name s +:+ " contact eq")) <$> all_supports) ++
  [ (inequality, "contact force basis ineq");
    (inequality, "torque limit ineq");
    (cost, "com cost") ] ++
  ((λ a, (cost, dba_name a +:+ " cost")) <$> all_body_accelerations) ++
  [ (cost, "vd reg cost");
    (cost, "basis reg cost") ].

(** The output Decompose writes, read off the controller that holds the
    solver's values. *)
Definition output_written (rs : HumanoidStatus) (input : QPInput R) (r : ControlResult R)
  : Prop :=
  let c := controller r in
  let t := topology c in
  let out := qp_output r in
  let vd_view := {| dv_index := 0; dv_size := num_vd_ t |} in
  vd out = value vd_view (prog_ c) ∧
  comdd out = vadd (mvmul (J_com rs) (vd out)) (Jdot_times_v_com rs) ∧
  joint_torque out
    = vadd (mvmul (torque_linear_ (scratch c)) (GetSolution (prog_ c)))
           (torque_constant_ (scratch c)) ∧
  length (resolved_contacts out) = length (contact_info input) ∧
  length (body_accelerations out) = length (desired_body_accelerations input) ∧
  costs out = cost_values (prog_ c).

(** The cost w * |J * vd + target|^2 as UpdateConstraint receives it (lines
    232-246): the matrix w * J' * J and the vector w * J' * target. *)
Definition tracking_cost (w : R) (J : Matrix R) (target : Vector R) : Constraint R :=
  QuadraticConstraint (mmul (mscale w (mtranspose J)) J)
                      (mvmul (mscale w (mtranspose J)) target).

(** The declaration behind a handle holds the given coefficients. *)
Definition holds (c : QPController R) (h : Handle) (coefficients : Constraint R) : Prop :=
  ∃ i b, h = Some i ∧ bindings (prog_ c) !! i = Some b ∧ constraint b = coefficients.

(** Every cost has this cycle's coefficients. *)
Definition costs_refreshed (rs : HumanoidStatus) (input : QPInput R) (r : ControlResult R)
  : Prop :=
  let c := controller r in
  let t := topology c in
  holds c (cost_comdd_ (handles c))
    (tracking_cost (w_com input) (J_com rs)
       (vsub (Jdot_times_v_com rs) (desired_comdd input))) ∧
  (∀ i d, desired_body_accelerations input !! i = Some d →
     ∃ h, cost_body_accelerations_ (handles c) !! i = Some h ∧
       holds c h
         (tracking_cost (dba_weight d)
            (GetTaskSpaceJacobian (robot rs) (cache rs) (dba_body d) (vZero 3))
            (vsub (GetTaskSpaceJacobianDotTimesV (robot rs) (cache rs) (dba_body d) (vZero 3))
                  (dba_acceleration d)))) ∧
  holds c (cost_vd_reg_ (handles c))
    (QuadraticConstraint (mscale (w_vd input) (mIdentity (num_vd_ t) (num_vd_ t)))
       (vscale (w_vd input) (vneg (desired_vd input)))) ∧
  holds c (cost_basis_reg_ (handles c))
    (QuadraticConstraint
       (mscale (w_basis_reg input) (mIdentity (num_basis_ t) (num_basis_ t)))
       (vZero (num_basis_ t))).

(** Two declarations agree in what ResizeQP decides: kind, description,
    variables, and the coefficients of a constraint.  The coefficients of a
    cost are not compared: three of the costs are declared from
    tmp_matrix_vd and tmp_vector_vd (lines 81-94), which nothing has
    written. *)
Definition same_declaration (b b' : Binding R) : Prop :=
  declaration b = declaration b' ∧
  variable_list b = variable_list b' ∧
  (kind_of b ≠ cost → constraint b = constraint b').

(** Every buffer the formulation step fills holds this cycle's quantities:
    the three stacked buffers contact by contact (lines 158-172), JB_ (line
    173), the torque and dynamics maps with their constants (lines 179-190),
    the projected torque map and the two bounds (lines 217-224), and the
    Jacobians of the tracked bodies (lines 240-241). *)
Definition buffers_refreshed (rs : HumanoidStatus) (input : QPInput R) (c : QPController R)
  : Prop :=
  let s := scratch c in
  let t := topology c in
  let l := contact_info input in
  let B_l_transpose := mtranspose (bottomRows (num_torque_ t) (B (robot rs))) in
  let projected := mvmul (mneg B_l_transpose) (torque_constant_ s) in
  (∀ i support, l !! i = Some support →
     mblock (3 * total_points (take i l)) 0 (force_dim_of support) (num_vd_ t)
       (stacked_contact_jacobians_ s)
     = mbuild (force_dim_of support) (num_vd_ t)
         (mget (ComputeJacobianAtContactPoints support (robot rs) (cache rs))) ∧
     vsegment (3 * total_points (take i l)) (force_dim_of support)
       (stacked_contact_jacobians_dot_times_v_ s)
     = vbuild (force_dim_of support)
         (vget (ComputeJacobianDotTimesVAtContactPoints support (robot rs) (cache rs))) ∧
     mblock (3 * total_points (take i l)) (total_basis (take i l)) (force_dim_of support)
       (ci_num_basis support) (basis_to_force_matrix_ s)
     = mbuild (force_dim_of support) (ci_num_basis support)
         (mget (ComputeBasisMatrix support (robot rs) (cache rs)))) ∧
  (∀ x y,
     (∀ i support, l !! i = Some support → ¬ in_contact_block l i support x y) →
     mget (basis_to_force_matrix_ s) x y = sc_zero) ∧
  JB_ s = mmul (mtranspose (stacked_contact_jacobians_ s)) (basis_to_force_matrix_ s) ∧
  torque_linear_ s
    = beside (num_torque_ t) (num_vd_ t) (num_basis_ t)
        (bottomRows (num_torque_ t) (M rs)) (mneg (bottomRows (num_torque_ t) (JB_ s))) ∧
  torque_constant_ s = vtail (num_torque_ t) (bias_term rs) ∧
  dynamics_linear_ s
    = beside 6 (num_vd_ t) (num_basis_ t) (topRows 6 (M rs)) (mneg (topRows 6 (JB_ s))) ∧
  dynamics_constant_ s = vneg (vhead 6 (bias_term rs)) ∧
  inequality_linear_ s = mmul B_l_transpose (torque_linear_ s) ∧
  length (inequality_lower_bound_ s) = length projected ∧
  length (inequality_upper_bound_ s) = length projected ∧
  (∀ i a, actuators (robot rs) !! i = Some a → i < length projected →
     vget (inequality_lower_bound_ s) i = sc_add (vget projected i) (effort_limit_min_ a) ∧
     vget (inequality_upper_bound_ s) i = sc_add (vget projected i) (effort_limit_max_ a)) ∧
  (∀ i d, desired_body_accelerations input !! i = Some d →
     body_J_ s !! i
       = Some (GetTaskSpaceJacobian (robot rs) (cache rs) (dba_body d) (vZero 3)) ∧
     body_Jdv_ s !! i
       = Some (GetTaskSpaceJacobianDotTimesV (robot rs) (cache rs) (dba_body d) (vZero 3))).

(** Every declaration the formulation step updates holds this cycle's
    coefficients, read from the buffers (lines 191, 197-199, 225-226 and
    232-255). *)
Definition coefficients_refreshed (rs : HumanoidStatus) (input : QPInput R)
    (r : ControlResult R) : Prop :=
  let c := controller r in
  let s := scratch c in
  holds c (eq_dynamics_ (handles c))
    (LinearEqualityConstraint (dynamics_linear_ s) (dynamics_constant_ s)) ∧
  contact_equalities_refreshed rs input r ∧
  holds c (ineq_torque_limit_ (handles c))
    (LinearConstraint (inequality_linear_ s) (inequality_lower_bound_ s)
       (inequality_upper_bound_ s)) ∧
  costs_refreshed rs input r.

(** The output is untouched while the controller holds this cycle's counts,
    the structure for them, and this cycle's buffers and coefficients. *)
Definition formulation_kept (rs : HumanoidStatus) (input : QPInput R) (output : QPOutput R)
    (r : ControlResult R) : Prop :=
  ret r = (-1)%Z ∧
  qp_output r = output ∧
  topology (controller r)
    = current_topology (robot rs) (contact_info input) (desired_body_accelerations input) ∧
  structured (controller r) ∧
  buffers_refreshed rs input (controller r) ∧
  coefficients_refreshed rs input r.

End CycleProperties.

(** ** More of the concrete robot: a renamed request, and nothing at all *)

Module MoreExamples.
Import QArith Qabs Example.

(** The standing request with the same counts under other names. *)
Definition toe_contact : ContactInformation Q := {|
  ci_body := foot;
  ci_name := "toe";
  ci_contact_points := [ qv [0; 0; 0]%Z ];
  ci_num_basis := 1;
|}.

Definition hold_torso : DesiredBodyAcceleration Q := {|
  dba_body := pelvis;
  dba_name := "torso";
  dba_weight := q 1;
  dba_acceleration := qv [0; 0; 0; 0; 0; 0]%Z;
|}.

Definition stand_renamed : QPInput Q := {|
  contact_info := [toe_contact];
  desired_body_accelerations := [hold_torso];
  desired_comdd := qv [0; 0; 0]%Z;
  desired_vd := qv [0; 0; 0; 0; 0; 0; 0]%Z;
  w_com := q 1;
  w_vd := q 1;
  w_basis_reg := q 1;
|}.

(** The second cycle, on the controller the standing cycle left. *)
Definition renamed_result : ControlResult Q :=
  Eval vm_compute in
    returned (@Control Q _ checked_build (@standing checked_build tt) stand_renamed
                (controller balanced_result) blank_output).

(** A model without velocities or actuators, and a request that asks for
    nothing: the seven counts are all zero, as in a controller that never
    ran. *)
Definition no_robot : RigidBodyTree Q := {|
  number_of_velocities := 0;
  actuators := [];
  B := qm 0 0 [];
  getMass := q 0;
  a_grav := qv [0; 0; 0; 0; 0; 0]%Z;
|}.

Definition nowhere {C : Collaborators Q} (cache_ : KinematicsCache) : HumanoidStatus := {|
  robot := no_robot;
  cache := cache_;
  M := qm 0 0 [];
  bias_term := [];
  J_com := qm 3 0 [ []; []; [] ];
  Jdot_times_v_com := qv [0; 0; 0]%Z;
  centroidal_momentum_matrix := qm 6 0 [ []; []; []; []; []; [] ];
  centroidal_momentum_matrix_dot_times_v := qv [0; 0; 0; 0; 0; 0]%Z;
  com := qv [0; 0; 0]%Z;
|}.

Definition nothing_asked : QPInput Q := {|
  contact_info := [];
  desired_body_accelerations := [];
  desired_comdd := qv [0; 0; 0]%Z;
  desired_vd := [];
  w_com := q 1;
  w_vd := q 1;
  w_basis_reg := q 1;
|}.

(** A build where the output's validity check refuses everything. *)
Definition strict_build : Collaborators Q := {|
  KinematicsCache := unit;
  EPSILON := (1 # 100000000)%Q;
  kDrakeAssertIsArmed := true;
  uninitialized := λ i j, q (Z.of_nat (7 + i + j));
  ComputeBasisMatrix := λ _ _ _, qm 3 1 [ [0]; [0]; [1] ]%Z;
  ComputeJacobianAtContactPoints := λ _ _ _, contact_jacobian;
  ComputeJacobianDotTimesVAtContactPoints := λ _ _ _, qv [0; 0; 0]%Z;
  ComputeContactPointsAndWrenchReferencePoint :=
    λ _ _ _ _, ([qv [0; 0; 0]%Z], qv [0; 0; 0]%Z);
  ComputeWrenchMatrix := λ _ _ _, wrench_matrix;
  GetTaskSpaceJacobian := λ _ _ _ _, pelvis_jacobian;
  GetTaskSpaceJacobianDotTimesV := λ _ _ _ _, qv [0; 0; 0; 0; 0; 0]%Z;
  available := true;
  Solve := balancing_solver;
  Eval := quadratic_value;
  QPOutput_is_valid := λ _ _ _, false;
|}.

Definition refused_result : ControlResult Q :=
  Eval vm_compute in
    returned (@Control Q _ strict_build (@standing strict_build tt) stand_still
                fresh_controller blank_output).

End MoreExamples.

(** * Properties *)

(** ** Dense vectors and matrices *)

Section DenseFacts.
Context {R : Type} `{Scalar R}.


Lemma vget_vbuild n (f : nat → R) i : i < n → vget (vbuild n f) i = f i.
Proof.
  intros Hi. unfold vget, vbuild.
  rewrite nth_lookup, list_lookup_fmap.
  rewrite (proj2 (lookup_seq 0 n i i)); [done | lia].
Qed.

Lemma length_vbuild n (f : nat → R) : length (vbuild n f) = n.
Proof. unfold vbuild. by rewrite length_map, length_seq. Qed.

Lemma mget_mbuild r c (f : nat → nat → R) i j : i < r → j < c → mget (mbuild r c f) i j = f i j.
Proof.
  intros Hi Hj. unfold mget, mbuild; simpl.
  rewrite (nth_lookup _ i), list_lookup_fmap.
  rewrite (proj2 (lookup_seq 0 r i i)); [simpl | lia].
  rewrite nth_lookup, list_lookup_fmap.
  rewrite (proj2 (lookup_seq 0 c j j)); [done | lia].
Qed.

Lemma vbuild_ext n (f g : nat → R) : (∀ i, i < n → f i = g i) → vbuild n f = vbuild n g.
Proof.
  intros E. unfold vbuild. apply map_ext_in. intros i Hi.
  apply in_seq in Hi. apply E. lia.
Qed.

Lemma mbuild_ext r c (f g : nat → nat → R) :
  (∀ i j, i < r → j < c → f i j = g i j) → mbuild r c f = mbuild r c g.
Proof.
  intros E. unfold mbuild. f_equal. apply map_ext_in. intros i Hi.
  apply in_seq in Hi. apply map_ext_in. intros j Hj. apply in_seq in Hj.
  apply E; lia.
Qed.

Lemma ssum_ext n (f g : nat → R) : (∀ k, k < n → f k = g k) → ssum n f = ssum n g.
Proof.
  unfold ssum. generalize (sc_zero : R) as acc.
  assert (G : ∀ l acc, (∀ k, In k l → f k = g k) →
    fold_left (λ a k, sc_add a (f k)) l acc = fold_left (λ a k, sc_add a (g k)) l acc).
  { induction l as [|k l IH]; intros acc E; simpl; [done |].
    rewrite (E k) by (by left). apply IH. intros k' Hk'. apply E. by right. }
  intros acc E. apply G. intros k Hk. apply in_seq in Hk. apply E. lia.
Qed.

Lemma in_window_true lo len i : in_window lo len i = true ↔ lo ≤ i < lo + len.
Proof.
  unfold in_window. rewrite andb_true_iff, Nat.leb_le, Nat.ltb_lt. done.
Qed.

Lemma in_window_false lo len i : in_window lo len i = false ↔ ¬ (lo ≤ i < lo + len).
Proof. rewrite <- in_window_true. by destruct (in_window lo len i). Qed.

Lemma mrows_mbuild r c (f : nat → nat → R) : mrows (mbuild r c f) = r.
Proof. done. Qed.

Lemma mcols_mbuild r c (f : nat → nat → R) : mcols (mbuild r c f) = c.
Proof. done. Qed.

Lemma has_window lo len i : lo ≤ i → i < lo + len → in_window lo len i = true.
Proof. intros. apply in_window_true. lia. Qed.

Lemma out_of_window lo len i : i < lo ∨ lo + len ≤ i → in_window lo len i = false.
Proof. intros. apply in_window_false. lia. Qed.

End DenseFacts.

(** ** Loops *)

Section Loops.

Lemma bind_Returned {A B} (m : Run A) (f : A → Run B) b :
  m ≫= f = Returned b → ∃ a, m = Returned a ∧ f a = Returned b.
Proof. destruct m as [a|why]; simpl; [eauto | discriminate]. Qed.

(** A loop whose body keeps an invariant and always returns, returns with
    the invariant. *)
Lemma for_range_inv {St} (P : nat → St → Prop) (body : nat → St → Run St) start n s :
  P start s →
  (∀ k s, start ≤ k < start + n → P k s → ∃ s', body k s = Returned s' ∧ P (S k) s') →
  ∃ s', for_range start n body s = Returned s' ∧ P (start + n) s'.
Proof.
  revert start s. induction n as [|n IH]; intros start s HP Hstep; simpl.
  - exists s. by rewrite Nat.add_0_r.
  - destruct (Hstep start s) as (s1 & E1 & HP1); [lia | done |].
    rewrite E1; simpl.
    destruct (IH (S start) s1) as (s2 & E2 & HP2); [done | |].
    + intros k s' Hk. apply Hstep. lia.
    + exists s2. split; [done |]. by replace (start + S n) with (S start + n) by lia.
Qed.

Lemma for_each_inv {A St} (P : nat → St → Prop) (body : nat → A → St → Run St) l s :
  P 0 s →
  (∀ k a s, l !! k = Some a → P k s → ∃ s', body k a s = Returned s' ∧ P (S k) s') →
  ∃ s', for_each body 0 l s = Returned s' ∧ P (length l) s'.
Proof.
  assert (G : ∀ l i s, P i s →
    (∀ k a s, l !! k = Some a → P (i + k) s →
       ∃ s', body (i + k) a s = Returned s' ∧ P (S (i + k)) s') →
    ∃ s', for_each body i l s = Returned s' ∧ P (i + length l) s').
  { clear l s. induction l as [|a l IH]; intros i s HP Hstep; simpl.
    - exists s. by rewrite Nat.add_0_r.
    - destruct (Hstep 0 a s) as (s1 & E1 & HP1); [done | by rewrite Nat.add_0_r |].
      rewrite Nat.add_0_r in E1, HP1. rewrite E1; simpl.
      destruct (IH (S i) s1) as (s2 & E2 & HP2); [done | |].
      + intros k a' s' Hk HPk.
        replace (S i + k) with (i + S k) in * by lia. by apply Hstep.
      + exists s2. split; [done |]. by replace (i + S (length l)) with (S i + length l) by lia. }
  intros HP Hstep. apply (G l 0 s HP). intros k a s'. simpl. apply Hstep.
Qed.



End Loops.

(** ** Blocks, sums and bounds *)

Section BlockFacts.
Context {R : Type} `{Scalar R}.

(** Two blocks written side by side into a matrix of exactly their joint
    width are read back unchanged. *)
Lemma side_by_side_left (h w1 w2 : nat) (f : nat → nat → R) (X dst : Matrix R) :
  mrows dst = h → mcols dst = w1 + w2 →
  mblock 0 0 h w1 (mset_block 0 w1 h w2 X (mset_block 0 0 h w1 (mbuild h w1 f) dst))
  = mbuild h w1 f.
Proof.
  intros Hr Hc. unfold mblock. apply mbuild_ext. intros i j Hi Hj. simpl.
  unfold mset_block at 1. rewrite mget_mbuild by (simpl; lia).
  rewrite (out_of_window w1 w2 j) by lia. rewrite andb_false_r.
  unfold mset_block. rewrite mget_mbuild by lia.
  rewrite !has_window by lia. simpl. rewrite !Nat.sub_0_r. by rewrite mget_mbuild.
Qed.

Lemma side_by_side_right (h w1 w2 : nat) (g : nat → nat → R) (Y dst : Matrix R) :
  mrows dst = h → mcols dst = w1 + w2 →
  mblock 0 w1 h w2 (mset_block 0 w1 h w2 (mbuild h w2 g) (mset_block 0 0 h w1 Y dst))
  = mbuild h w2 g.
Proof.
  intros Hr Hc. unfold mblock. apply mbuild_ext. intros i j Hi Hj. simpl.
  unfold mset_block at 1. rewrite mget_mbuild by (simpl; lia).
  rewrite !has_window by lia. simpl.
  replace (w1 + j - w1) with j by lia. rewrite Nat.sub_0_r. by rewrite mget_mbuild.
Qed.

Lemma vget_insert_eq (v : Vector R) i x : i < length v → vget (<[i := x]> v) i = x.
Proof. intros Hi. unfold vget. by rewrite nth_lookup, list_lookup_insert_eq. Qed.

Lemma vget_insert_ne (v : Vector R) i j x : i ≠ j → vget (<[i := x]> v) j = vget v j.
Proof. intros Hne. unfold vget. by rewrite !nth_lookup, list_lookup_insert_ne. Qed.

(** Lines 221-224: every bound receives its actuator's limit. *)
Lemma add_effort_limits_spec (acts : list (RigidBodyActuator R)) (lb0 ub0 lb ub : Vector R) :
  length acts ≤ length lb0 → length acts ≤ length ub0 →
  add_effort_limits acts lb0 ub0 = (lb, ub) →
  length lb = length lb0 ∧ length ub = length ub0 ∧
  ∀ i a, acts !! i = Some a →
    vget lb i = sc_add (vget lb0 i) (effort_limit_min_ a) ∧
    vget ub i = sc_add (vget ub0 i) (effort_limit_max_ a).
Proof.
  unfold add_effort_limits.
  match goal with |- context [fold_indexed ?f 0 acts _] => set (body := f) end.
  assert (G : ∀ l k lb0 ub0 lb ub,
    k + length l ≤ length lb0 → k + length l ≤ length ub0 →
    fold_indexed body k l (lb0, ub0) = (lb, ub) →
    length lb = length lb0 ∧ length ub = length ub0 ∧
    (∀ i, i < k → vget lb i = vget lb0 i ∧ vget ub i = vget ub0 i) ∧
    (∀ i a, l !! i = Some a →
       vget lb (k + i) = sc_add (vget lb0 (k + i)) (effort_limit_min_ a) ∧
       vget ub (k + i) = sc_add (vget ub0 (k + i)) (effort_limit_max_ a))).
  { clear. induction l as [|a l IH]; intros k lb0 ub0 lb ub Hl Hu E; simpl in *.
    - injection E as <- <-. repeat split; try done.
    - apply IH in E as (El & Eu & Hbelow & Hat); rewrite ?length_insert; try lia.
      rewrite !length_insert in *. split; [done |]. split; [done |]. split.
      + intros i Hi. destruct (Hbelow i) as [-> ->]; [lia |].
        by rewrite !vget_insert_ne by lia.
      + intros [|i] a' Ei; simpl in Ei.
        * injection Ei as <-. rewrite Nat.add_0_r.
          destruct (Hbelow k) as [-> ->]; [lia |].
          by rewrite !vget_insert_eq by lia.
        * destruct (Hat i a' Ei) as [E1 E2].
          replace (k + S i) with (S k + i) by lia. rewrite E1, E2.
          by rewrite !vget_insert_ne by lia. }
  intros Hl Hu E. destruct (G acts 0 lb0 ub0 lb ub) as (El & Eu & _ & Hat); try done.
Qed.

Section WithLaws.
Context `{!ScalarLaws R}.

Lemma ssum_neg n (f : nat → R) : ssum n (λ k, sc_neg (f k)) = sc_neg (ssum n f).
Proof.
  unfold ssum. rewrite <- sc_neg_zero at 1. generalize (sc_zero : R) as acc.
  induction (seq 0 n) as [|k l IH]; intros acc; simpl; [done |].
  by rewrite <- sc_neg_add, IH.
Qed.

(** The negated matrix applied to a vector is the negated product. *)
Lemma vget_mvmul_mneg r c (f : nat → nat → R) (x : Vector R) i :
  i < r →
  vget (mvmul (mneg (mbuild r c f)) x) i = sc_neg (vget (mvmul (mbuild r c f) x) i).
Proof.
  intros Hi. unfold mvmul. rewrite !vget_vbuild by done. simpl.
  rewrite <- ssum_neg. apply ssum_ext. intros k Hk.
  unfold mneg. rewrite mget_mbuild by done. apply sc_mul_neg_l.
Qed.

Lemma minus_as_negated_sum (e p : R) : sc_add (sc_neg p) e = sc_sub e p.
Proof. by rewrite sc_add_comm, sc_sub_def. Qed.

End WithLaws.
End BlockFacts.

(** ** ResizeQP *)

Section ResizeFacts.
Context {R : Type} `{Collaborators R}.

Lemma same_topology_true (now stored : Topology) :
  same_topology now stored = true ↔ now = stored.
Proof.
  unfold same_topology. rewrite !andb_true_iff, !Nat.eqb_eq.
  destruct now, stored; simpl. split.
  - intros [[[[[[-> ->] ->] ->] ->] ->] ->]. done.
  - intros [= -> -> -> -> -> -> ->]. done.
Qed.

Lemma same_topology_false (now stored : Topology) :
  same_topology now stored = false ↔ now ≠ stored.
Proof.
  rewrite <- same_topology_true. by destruct (same_topology now stored).
Qed.

Lemma count_dimensions_sums (l : list (ContactInformation R)) :
  count_dimensions l = (total_basis l, total_points l).
Proof.
  unfold count_dimensions.
  assert (G : ∀ l nb np,
    fold_left (λ '(num_basis, num_point_force) (s : ContactInformation R),
                 (num_basis + ci_num_basis s,
                  num_point_force + length (ci_contact_points s))) l (nb, np)
    = (nb + total_basis l, np + total_points l)).
  { clear l. induction l as [|s l IH]; intros nb np; simpl.
    - by rewrite !Nat.add_0_r.
    - rewrite IH. f_equal; lia. }
  apply G.
Qed.

(** A run of declarations appends one binding per element and stores the
    handles at consecutive positions. *)
Lemma declare_fold {A} (mk : A → Constraint R) (vars : list DecisionVariableView)
    (d : A → string) (l : list A) :
  ∀ i (hs : list Handle) (p : MathematicalProgram R),
  i + length l ≤ length hs →
  fold_indexed
    (λ i a '(hs, p),
       let '(h, p') := add_binding (mk a) vars (d a) p in (<[i := h]> hs, p'))
    i l (hs, p)
  = (take i hs ++ (Some <$> seq (length (bindings p)) (length l)) ++ drop (i + length l) hs,
     {| variables := variables p; num_vars := num_vars p;
        bindings := bindings p ++
          ((λ a, {| constraint := mk a; description := d a; variable_list := vars |}) <$> l);
        x_values := x_values p |}).
Proof.
  unfold Handle. induction l as [|a l IH]; intros i hs p Hlen; simpl in *.
  - rewrite Nat.add_0_r, take_drop, app_nil_r. by destruct p.
  - rewrite IH by (rewrite length_insert; lia). simpl.
    rewrite length_app, <- app_assoc. simpl.
    f_equal.
    rewrite (take_S_r _ _ (Some (length (bindings p)))) by (apply list_lookup_insert_eq; lia).
    rewrite take_insert_ge by lia.
    rewrite drop_insert_lt by lia.
    rewrite <- app_assoc. simpl.
    replace (length (bindings p) + 1) with (S (length (bindings p))) by lia.
    by replace (i + S (length l)) with (S (i + length l)) by lia.
Qed.

Lemma declare_contacts_eq num_vd vd_view (l : list (ContactInformation R)) hs p :
  length hs = length l →
  declare_contacts num_vd vd_view l (hs, p)
  = (Some <$> seq (length (bindings p)) (length l),
     {| variables := variables p; num_vars := num_vars p;
        bindings := bindings p ++
          ((λ s, {| constraint :=
                      LinearEqualityConstraint
                        (mZero (3 * length (ci_contact_points s)) num_vd)
                        (vZero (3 * length (ci_contact_points s)));
                    description := ci_name s +:+ " contact eq";
                    variable_list := [vd_view] |}) <$> l);
        x_values := x_values p |}).
Proof.
  intros Hlen. unfold declare_contacts.
  etrans; [apply (declare_fold
    (λ s, LinearEqualityConstraint (mZero (3 * length (ci_contact_points s)) num_vd)
            (vZero (3 * length (ci_contact_points s))))
    [vd_view] (λ s, ci_name s +:+ " contact eq")); simpl; lia |].
  simpl. rewrite <- Hlen, drop_all, app_nil_r. done.
Qed.

Lemma declare_body_costs_eq Q b vd_view (l : list (DesiredBodyAcceleration R)) hs p :
  length hs = length l →
  declare_body_costs Q b vd_view l (hs, p)
  = (Some <$> seq (length (bindings p)) (length l),
     {| variables := variables p; num_vars := num_vars p;
        bindings := bindings p ++
          ((λ a, {| constraint := QuadraticConstraint Q b;
                    description := dba_name a +:+ " cost";
                    variable_list := [vd_view] |}) <$> l);
        x_values := x_values p |}).
Proof.
  intros Hlen. unfold declare_body_costs.
  etrans; [apply (declare_fold (λ _, QuadraticConstraint Q b) [vd_view]
                    (λ a, dba_name a +:+ " cost")); simpl; lia |].
  simpl. rewrite <- Hlen, drop_all, app_nil_r. done.
Qed.

Lemma rebuild_components t (supports : list (ContactInformation R))
    (accs : list (DesiredBodyAcceleration R)) c :
  num_contact_body_ t = length supports →
  let vd_view := {| dv_index := 0; dv_size := num_vd_ t |} in
  let basis_view := {| dv_index := num_vd_ t; dv_size := num_basis_ t |} in
  let tmp_matrix_vd := mbuild (num_vd_ t) (num_vd_ t) uninitialized in
  let tmp_vector_vd := vbuild (num_vd_ t) (λ i, uninitialized i 0) in
  topology (rebuild t supports accs c) = t ∧
  variables (prog_ (rebuild t supports accs c)) = [("vd", vd_view); ("basis", basis_view)] ∧
  bindings (prog_ (rebuild t supports accs c)) =
    {| constraint := LinearEqualityConstraint (mZero 6 (num_variable_ t)) (vZero 6);
       description := "dynamics eq"; variable_list := [vd_view; basis_view] |} ::
    ((λ s, {| constraint :=
                LinearEqualityConstraint
                  (mZero (3 * length (ci_contact_points s)) (num_vd_ t))
                  (vZero (3 * length (ci_contact_points s)));
              description := ci_name s +:+ " contact eq";
              variable_list := [vd_view] |}) <$> supports) ++
    [ {| constraint :=
           LinearConstraint (mIdentity (num_basis_ t) (num_basis_ t)) (vZero (num_basis_ t))
             (vConstant (num_basis_ t) (sc_int 1000));
         description := "contact force basis ineq"; variable_list := [basis_view] |};
      {| constraint :=
           LinearConstraint (mZero (num_torque_ t) (num_variable_ t)) (vZero (num_torque_ t))
             (vZero (num_torque_ t));
         description := "torque limit ineq"; variable_list := [vd_view; basis_view] |};
      {| constraint := QuadraticConstraint tmp_matrix_vd tmp_vector_vd;
         description := "com cost"; variable_list := [vd_view] |} ] ++
    ((λ a, {| constraint := QuadraticConstraint tmp_matrix_vd tmp_vector_vd;
              description := dba_name a +:+ " cost";
              variable_list := [vd_view] |}) <$> accs) ++
    [ {| constraint := QuadraticConstraint tmp_matrix_vd tmp_vector_vd;
         description := "vd reg cost"; variable_list := [vd_view] |};
      {| constraint :=
           QuadraticConstraint (mIdentity (num_basis_ t) (num_basis_ t)) (vZero (num_basis_ t));
         description := "basis reg cost"; variable_list := [basis_view] |} ] ∧
  handles (rebuild t supports accs c) =
    {| eq_dynamics_ := Some 0;
       eq_contacts_ := Some <$> seq 1 (length supports);
       ineq_contact_wrench_ := Some (1 + length supports);
       ineq_torque_limit_ := Some (2 + length supports);
       cost_comdd_ := Some (3 + length supports);
       cost_body_accelerations_ := Some <$> seq (4 + length supports) (length accs);
       cost_vd_reg_ := Some (4 + length supports + length accs);
       cost_basis_reg_ := Some (5 + length supports + length accs) |} ∧
  scratch (rebuild t supports accs c) =
    {| stacked_contact_jacobians_ :=
         mresize (3 * num_point_force_ t) (num_vd_ t) (stacked_contact_jacobians_ (scratch c));
       basis_to_force_matrix_ :=
         mresize (3 * num_point_force_ t) (num_basis_ t) (basis_to_force_matrix_ (scratch c));
       stacked_contact_jacobians_dot_times_v_ :=
         vresize (3 * num_point_force_ t) (stacked_contact_jacobians_dot_times_v_ (scratch c));
       torque_linear_ :=
         mresize (num_torque_ t) (num_variable_ t) (torque_linear_ (scratch c));
       dynamics_linear_ := mresize 6 (num_variable_ t) (dynamics_linear_ (scratch c));
       torque_constant_ := torque_constant_ (scratch c);
       dynamics_constant_ := dynamics_constant_ (scratch c);
       JB_ := JB_ (scratch c);
       inequality_linear_ := inequality_linear_ (scratch c);
       inequality_lower_bound_ := inequality_lower_bound_ (scratch c);
       inequality_upper_bound_ := inequality_upper_bound_ (scratch c);
       point_forces_ := point_forces_ (scratch c);
       body_J_ := resize (length accs) (mZero 0 0) (body_J_ (scratch c));
       body_Jdv_ := resize (length accs) [] (body_Jdv_ (scratch c)) |}.
Proof.
  intros Hn vd_view basis_view tmp_matrix_vd tmp_vector_vd.
  unfold rebuild, AddContinuousVariables, AddLinearEqualityConstraint, AddLinearConstraint,
    AddQuadraticCost, add_binding.
  cbn [MathematicalProgram_new num_vars variables bindings x_values Nat.add].
  rewrite declare_contacts_eq by (rewrite length_resize; done).
  cbn [bindings variables num_vars x_values].
  rewrite declare_body_costs_eq by (by rewrite length_resize).
  cbn [bindings variables num_vars x_values topology prog_ handles scratch].
  repeat split.
  - rewrite <- !app_assoc. simpl. done.
  - repeat (rewrite ?length_app, ?length_fmap; simpl).
    f_equal; solve [f_equal; lia | do 2 f_equal; lia].
Qed.

Lemma current_topology_eq (robot : RigidBodyTree R) (supports : list (ContactInformation R))
    (accs : list (DesiredBodyAcceleration R)) :
  current_topology robot supports accs =
    {| num_contact_body_ := length supports;
       num_vd_ := number_of_velocities robot;
       num_basis_ := total_basis supports;
       num_point_force_ := total_points supports;
       num_torque_ := length (actuators robot);
       num_variable_ := number_of_velocities robot + total_basis supports;
       num_body_acceleration_ := length accs |}.
Proof. unfold current_topology. by rewrite count_dimensions_sums. Qed.

Lemma mresize_dims r c (A : Matrix R) : has_dims r c (mresize r c A).
Proof.
  unfold mresize, has_dims.
  destruct (Nat.eqb (mrows A) r && Nat.eqb (mcols A) c) eqn:E; [| done].
  apply andb_true_iff in E as [E1 E2]. by apply Nat.eqb_eq in E1, E2.
Qed.

Lemma vresize_length n (v : Vector R) : length (vresize n v) = n.
Proof.
  unfold vresize. destruct (Nat.eqb (length v) n) eqn:E.
  - by apply Nat.eqb_eq in E.
  - apply length_vbuild.
Qed.

Lemma rebuild_structured (robot : RigidBodyTree R) (supports : list (ContactInformation R))
    (accs : list (DesiredBodyAcceleration R)) c :
  structured (rebuild (current_topology robot supports accs) supports accs c).
Proof.
  set (t := current_topology robot supports accs).
  assert (Ht := current_topology_eq robot supports accs). fold t in Ht.
  assert (Hn : num_contact_body_ t = length supports) by (by rewrite Ht).
  assert (Hm : num_body_acceleration_ t = length accs) by (by rewrite Ht).
  destruct (rebuild_components t supports accs c Hn) as (Et & Ev & Eb & Eh & Es).
  constructor; rewrite ?Et, ?Es; cbn [body_J_ body_Jdv_ stacked_contact_jacobians_
    basis_to_force_matrix_ stacked_contact_jacobians_dot_times_v_ torque_linear_
    dynamics_linear_].
  - done.
  - by rewrite Ht.
  - rewrite Eh. unfold layout. by rewrite Hn, Hm.
  - rewrite Eb, Hn, Hm. simpl. rewrite !length_app, !length_fmap. simpl.
    rewrite !length_app, !length_fmap. simpl. lia.
  - by rewrite length_resize.
  - by rewrite length_resize.
  - apply mresize_dims.
  - apply mresize_dims.
  - apply vresize_length.
  - apply mresize_dims.
  - apply mresize_dims.
Qed.

Lemma ResizeQP_same (robot : RigidBodyTree R) supports accs c :
  topology c = current_topology robot supports accs → ResizeQP robot supports accs c = c.
Proof.
  intros E. unfold ResizeQP.
  by rewrite (proj2 (same_topology_true _ _) (eq_sym E)).
Qed.

Lemma ResizeQP_changed (robot : RigidBodyTree R) supports accs c :
  topology c ≠ current_topology robot supports accs →
  ResizeQP robot supports accs c = rebuild (current_topology robot supports accs) supports accs c.
Proof.
  intros E. unfold ResizeQP.
  rewrite (proj2 (same_topology_false _ _)); [done | congruence].
Qed.

Lemma topology_same_or_not (stored now : Topology) : stored = now ∨ stored ≠ now.
Proof.
  destruct (same_topology now stored) eqn:E.
  - left. symmetry. by apply same_topology_true.
  - right. intros ->. apply same_topology_false in E. done.
Qed.

Lemma ResizeQP_topology (robot : RigidBodyTree R) supports accs c :
  topology (ResizeQP robot supports accs c) = current_topology robot supports accs.
Proof.
  destruct (topology_same_or_not (topology c) (current_topology robot supports accs)) as [E|E].
  - by rewrite ResizeQP_same.
  - rewrite ResizeQP_changed by done.
    apply rebuild_components. by rewrite current_topology_eq.
Qed.

Lemma ResizeQP_structured (robot : RigidBodyTree R) supports accs c :
  structured c ∨ topology c ≠ current_topology robot supports accs →
  structured (ResizeQP robot supports accs c).
Proof.
  intros [Hs|Hne].
  - destruct (topology_same_or_not (topology c) (current_topology robot supports accs))
      as [E|E].
    + by rewrite ResizeQP_same.
    + rewrite ResizeQP_changed by done. apply rebuild_structured.
  - rewrite ResizeQP_changed by done. apply rebuild_structured.
Qed.

(** C2. ResizeQP computes the seven counts of the cycle from the robot and
    the contact and tracked-body descriptors.  When they are the stored
    counts it returns the controller as it received it; only when one of them
    differs does it store the new counts and declare the problem anew. *)
Theorem ResizeQP_reuses_or_rebuilds (robot : RigidBodyTree R)
    (all_supports : list (ContactInformation R))
    (all_body_accelerations : list (DesiredBodyAcceleration R)) (c : QPController R) :
  let now := current_topology robot all_supports all_body_accelerations in
  now = {| num_contact_body_ := length all_supports;
           num_vd_ := number_of_velocities robot;
           num_basis_ := total_basis all_supports;
           num_point_force_ := total_points all_supports;
           num_torque_ := length (actuators robot);
           num_variable_ := number_of_velocities robot + total_basis all_supports;
           num_body_acceleration_ := length all_body_accelerations |} ∧
  (topology c = now → ResizeQP robot all_supports all_body_accelerations c = c) ∧
  (topology c ≠ now →
     ResizeQP robot all_supports all_body_accelerations c
       = rebuild now all_supports all_body_accelerations c ∧
     topology (ResizeQP robot all_supports all_body_accelerations c) = now ∧
     ResizeQP robot all_supports all_body_accelerations c ≠ c).
Proof.
  intros now. split; [apply current_topology_eq |]. split.
  - apply ResizeQP_same.
  - intros Hne. split; [by apply ResizeQP_changed |]. split; [apply ResizeQP_topology |].
    intros E. apply Hne. rewrite <- E at 1. apply ResizeQP_topology.
Qed.

(** C6. When ResizeQP rebuilds, the declarations of the new program are, in
    this order: the dynamics equality, one contact equality per contact body
    in descriptor order, the basis inequality, the torque-limit inequality,
    the CoM cost, one cost per tracked body motion in descriptor order, the
    generalized-acceleration regularization cost, the basis regularization
    cost. *)
Theorem ResizeQP_declaration_order (robot : RigidBodyTree R)
    (all_supports : list (ContactInformation R))
    (all_body_accelerations : list (DesiredBodyAcceleration R)) (c : QPController R) :
  topology c ≠ current_topology robot all_supports all_body_accelerations →
  declaration <$> bindings (prog_ (ResizeQP robot all_supports all_body_accelerations c)) =
    [ (equality, "dynamics eq") ] ++
    ((λ s, (equality, ci_name s +:+ " contact eq")) <$> all_supports) ++
    [ (inequality, "contact force basis ineq");
      (inequality, "torque limit ineq");
      (cost, "com cost") ] ++
    ((λ a, (cost, dba_name a +:+ " cost")) <$> all_body_accelerations) ++
    [ (cost, "vd reg cost");
      (cost, "basis reg cost") ].
Proof.
  intros Hne. rewrite ResizeQP_changed by done.
  destruct (rebuild_components (current_topology robot all_supports all_body_accelerations)
              all_supports all_body_accelerations c) as (_ & _ & Eb & _ & _).
  { by rewrite current_topology_eq. }
  rewrite Eb. rewrite fmap_cons, !fmap_app, <- !list_fmap_compose. done.
Qed.

End ResizeFacts.

(** ** The formulation step *)

Section FormulateFacts.
Context {R : Type} `{Collaborators R}.

#[local] Arguments Nat.mul : simpl never.
#[local] Arguments update_binding : simpl never.

Lemma total_points_app (l k : list (ContactInformation R)) :
  total_points (l ++ k) = total_points l + total_points k.
Proof. induction l as [|s l IH]; simpl; [done | rewrite IH; lia]. Qed.

Lemma total_basis_app (l k : list (ContactInformation R)) :
  total_basis (l ++ k) = total_basis l + total_basis k.
Proof. induction l as [|s l IH]; simpl; [done | rewrite IH; lia]. Qed.

Lemma total_points_take_S (l : list (ContactInformation R)) k s :
  l !! k = Some s →
  total_points (take (S k) l) = total_points (take k l) + length (ci_contact_points s).
Proof.
  intros E. rewrite (take_S_r _ _ _ E), total_points_app. simpl. lia.
Qed.

Lemma total_basis_take_S (l : list (ContactInformation R)) k s :
  l !! k = Some s → total_basis (take (S k) l) = total_basis (take k l) + ci_num_basis s.
Proof.
  intros E. rewrite (take_S_r _ _ _ E), total_basis_app. simpl. lia.
Qed.

Lemma DRAKE_ASSERT_true what : DRAKE_ASSERT true what = Returned ().
Proof. unfold DRAKE_ASSERT. by rewrite andb_false_r. Qed.

Lemma DRAKE_ASSERT_Returned condition what :
  kDrakeAssertIsArmed = true → DRAKE_ASSERT condition what = Returned () → condition = true.
Proof.
  unfold DRAKE_ASSERT. intros ->. by destruct condition.
Qed.

Lemma mset_block_dims r0 c0 h w (src dst : Matrix R) r c :
  has_dims r c dst → has_dims r c (mset_block r0 c0 h w src dst).
Proof. by intros [<- <-]. Qed.

Lemma vset_segment_length start n (src dst : Vector R) :
  length (vset_segment start n src dst) = length dst.
Proof. apply length_vbuild. Qed.

(** Lines 158-175: the stacking loop returns, with rowIdx and colIdx at the
    totals the two assertions ask for, and the buffers keep their sizes. *)
Lemma stack_contacts_spec (rs : HumanoidStatus) (input : QPInput R) (t : Topology)
    (s : Scratch R) :
  num_contact_body_ t = length (contact_info input) →
  ∃ b2f J Jdv,
    stack_contacts rs input t s
      = Returned (3 * total_points (contact_info input), total_basis (contact_info input),
                  b2f, J, Jdv) ∧
    (∀ r c, has_dims r c (basis_to_force_matrix_ s) → has_dims r c b2f) ∧
    (∀ r c, has_dims r c (stacked_contact_jacobians_ s) → has_dims r c J) ∧
    length Jdv = length (stacked_contact_jacobians_dot_times_v_ s).
Proof.
  intros Hn. unfold stack_contacts. rewrite Hn.
  set (l := contact_info input).
  set (P := λ (k : nat) (st : nat * nat * Matrix R * Matrix R * Vector R),
    let '(rowIdx, colIdx, b2f, J, Jdv) := st in
    rowIdx = 3 * total_points (take k l) ∧ colIdx = total_basis (take k l) ∧
    (∀ r c, has_dims r c (basis_to_force_matrix_ s) → has_dims r c b2f) ∧
    (∀ r c, has_dims r c (stacked_contact_jacobians_ s) → has_dims r c J) ∧
    length Jdv = length (stacked_contact_jacobians_dot_times_v_ s)).
  match goal with |- context [for_range 0 _ ?body ?init] =>
    destruct (for_range_inv P body 0 (length l) init) as (st & E & HP) end.
  - simpl. done.
  - intros k [[[[rowIdx colIdx] b2f] J] Jdv] Hk (-> & -> & Hb & HJ & HJdv).
    destruct (lookup_lt_is_Some_2 l k) as [support Es]; [lia |].
    rewrite Es. simpl. eexists. split; [done |]. simpl.
    rewrite (total_points_take_S _ _ _ Es), (total_basis_take_S _ _ _ Es).
    unfold force_dim_of. split; [lia |]. split; [lia |]. split; [| split].
    + intros r c Hd. by apply mset_block_dims, Hb.
    + intros r c Hd. by apply mset_block_dims, HJ.
    + by rewrite vset_segment_length.
  - destruct st as [[[[rowIdx colIdx] b2f] J] Jdv]. simpl in HP.
    rewrite firstn_all in HP. destruct HP as (-> & -> & Hb & HJ & HJdv).
    exists b2f, J, Jdv. done.
Qed.

Lemma update_binding_in_range i f (p : MathematicalProgram R) :
  i < length (bindings p) →
  update_binding (Some i) f p
    = Some {| variables := variables p; num_vars := num_vars p;
              bindings := alter f i (bindings p); x_values := x_values p |}.
Proof.
  intros Hi. unfold update_binding. simpl. by rewrite decide_True.
Qed.

(** Lines 194-202: the loop over the contact equalities returns with rowIdx
    at the asserted total; it rewrites positions 1 .. num_contact_body_ of
    the registry and nothing else. *)
Lemma update_contacts_spec (input : QPInput R) (t : Topology) (hs : Handles)
    (J : Matrix R) (Jdv : Vector R) (prog : MathematicalProgram R) :
  num_contact_body_ t = length (contact_info input) →
  eq_contacts_ hs = Some <$> seq 1 (num_contact_body_ t) →
  1 + num_contact_body_ t ≤ length (bindings prog) →
  ∃ prog',
    update_contacts input t hs J Jdv prog
      = Returned (3 * total_points (contact_info input), prog') ∧
    variables prog' = variables prog ∧
    num_vars prog' = num_vars prog ∧
    x_values prog' = x_values prog ∧
    length (bindings prog') = length (bindings prog) ∧
    (∀ j, j < 1 ∨ 1 + num_contact_body_ t ≤ j → bindings prog' !! j = bindings prog !! j) ∧
    (∀ i s, contact_info input !! i = Some s →
       bindings prog' !! (1 + i) =
         with_constraint
           (LinearEqualityConstraint
              (mblock (3 * total_points (take i (contact_info input))) 0 (force_dim_of s)
                 (num_vd_ t) J)
              (vneg (vsegment (3 * total_points (take i (contact_info input)))
                       (force_dim_of s) Jdv)))
         <$> bindings prog !! (1 + i)).
Proof.
  intros Hn Hh Hlen. unfold update_contacts. rewrite Hn in *.
  set (l := contact_info input) in *.
  set (P := λ (k : nat) (st : nat * MathematicalProgram R),
    let '(rowIdx, prog') := st in
    rowIdx = 3 * total_points (take k l) ∧
    variables prog' = variables prog ∧
    num_vars prog' = num_vars prog ∧
    x_values prog' = x_values prog ∧
    length (bindings prog') = length (bindings prog) ∧
    (∀ j, j < 1 ∨ 1 + k ≤ j → bindings prog' !! j = bindings prog !! j) ∧
    (∀ i s, i < k → l !! i = Some s →
       bindings prog' !! (1 + i) =
         with_constraint
           (LinearEqualityConstraint
              (mblock (3 * total_points (take i l)) 0 (force_dim_of s) (num_vd_ t) J)
              (vneg (vsegment (3 * total_points (take i l)) (force_dim_of s) Jdv)))
         <$> bindings prog !! (1 + i))).
  match goal with |- context [for_range 0 _ ?body ?init] =>
    destruct (for_range_inv P body 0 (length l) init) as (st & E & HP) end.
  - simpl. repeat split; try done. intros; lia.
  - intros k [rowIdx prog1] Hk (-> & Hv & Hnv & Hx & Hl & Hframe & Hdone).
    destruct (lookup_lt_is_Some_2 l k) as [support Es]; [lia |].
    rewrite Es, Hh, list_lookup_fmap. simpl.
    rewrite (proj2 (lookup_seq 1 (length l) k (1 + k))) by (split; [done | lia]). simpl.
    rewrite decide_True by lia. simpl.
    eexists. split; [done |]. simpl.
    rewrite (total_points_take_S _ _ _ Es). unfold force_dim_of at 1.
    split; [lia |]. rewrite length_alter.
    split; [done |]. split; [done |]. split; [done |]. split; [done |]. split.
    + intros j Hj. rewrite list_lookup_alter_ne by lia. apply Hframe. lia.
    + intros i s Hi Ei. destruct (decide (i = k)) as [->|Hne].
      * rewrite list_lookup_alter_eq, Hframe by lia.
        rewrite Es in Ei. by injection Ei as ->.
      * rewrite list_lookup_alter_ne by lia. apply Hdone; [lia | done].
  - destruct st as [rowIdx prog']. simpl in HP.
    rewrite firstn_all in HP. destruct HP as (-> & Hv & Hnv & Hx & Hl & Hframe & Hdone).
    exists prog'. repeat split; try done.
    intros i s Ei. apply Hdone; [| done]. by apply lookup_lt_Some in Ei.
Qed.

(** Lines 237-247: the loop over the tracked bodies returns; it stores one
    Jacobian pair per body and rewrites the positions of their costs. *)
Lemma update_body_costs_spec (rs : HumanoidStatus)
    (l : list (DesiredBodyAcceleration R)) (hs : Handles) (base : nat)
    (body_J : list (Matrix R)) (body_Jdv : list (Vector R)) (prog : MathematicalProgram R) :
  cost_body_accelerations_ hs = Some <$> seq base (length l) →
  base + length l ≤ length (bindings prog) →
  length body_J = length l →
  length body_Jdv = length l →
  ∃ body_J' body_Jdv' prog',
    update_body_costs rs l hs (body_J, body_Jdv, prog) = Returned (body_J', body_Jdv', prog') ∧
    length body_J' = length l ∧
    length body_Jdv' = length l ∧
    variables prog' = variables prog ∧
    num_vars prog' = num_vars prog ∧
    x_values prog' = x_values prog ∧
    length (bindings prog') = length (bindings prog) ∧
    (∀ j, j < base ∨ base + length l ≤ j → bindings prog' !! j = bindings prog !! j) ∧
    (∀ i d, l !! i = Some d →
       let J := GetTaskSpaceJacobian (robot rs) (cache rs) (dba_body d) (vZero 3) in
       let Jdv := GetTaskSpaceJacobianDotTimesV (robot rs) (cache rs) (dba_body d) (vZero 3) in
       body_J' !! i = Some J ∧
       body_Jdv' !! i = Some Jdv ∧
       bindings prog' !! (base + i) =
         with_constraint
           (QuadraticConstraint
              (mmul (mscale (dba_weight d) (mtranspose J)) J)
              (mvmul (mscale (dba_weight d) (mtranspose J)) (vsub Jdv (dba_acceleration d))))
         <$> bindings prog !! (base + i)).
Proof.
  intros Hh Hlen HJ HJdv. unfold update_body_costs.
  set (P := λ (k : nat) (st : list (Matrix R) * list (Vector R) * MathematicalProgram R),
    let '(body_J', body_Jdv', prog') := st in
    length body_J' = length l ∧
    length body_Jdv' = length l ∧
    variables prog' = variables prog ∧
    num_vars prog' = num_vars prog ∧
    x_values prog' = x_values prog ∧
    length (bindings prog') = length (bindings prog) ∧
    (∀ j, j < base ∨ base + k ≤ j → bindings prog' !! j = bindings prog !! j) ∧
    (∀ i d, i < k → l !! i = Some d →
       let J := GetTaskSpaceJacobian (robot rs) (cache rs) (dba_body d) (vZero 3) in
       let Jdv := GetTaskSpaceJacobianDotTimesV (robot rs) (cache rs) (dba_body d) (vZero 3) in
       body_J' !! i = Some J ∧
       body_Jdv' !! i = Some Jdv ∧
       bindings prog' !! (base + i) =
         with_constraint
           (QuadraticConstraint
              (mmul (mscale (dba_weight d) (mtranspose J)) J)
              (mvmul (mscale (dba_weight d) (mtranspose J)) (vsub Jdv (dba_acceleration d))))
         <$> bindings prog !! (base + i))).
  match goal with |- context [for_each ?body 0 l ?init] =>
    destruct (for_each_inv P body l init) as (st & E & HP) end.
  - simpl. repeat split; try done; intros; lia.
  - intros k d [[bJ bJdv] prog1] Ed (HlJ & HlJdv & Hv & Hnv & Hx & Hl & Hframe & Hdone).
    assert (Hk : k < length l) by (by apply lookup_lt_Some in Ed).
    unfold assign_at. rewrite !decide_True by lia. simpl.
    rewrite Hh, list_lookup_fmap.
    rewrite (proj2 (lookup_seq base (length l) k (base + k))) by (split; [done | lia]). simpl.
    rewrite decide_True by lia. simpl.
    eexists. split; [done |]. simpl. rewrite !length_insert, length_alter.
    do 6 (split; [done |]). split.
    + intros j Hj. rewrite list_lookup_alter_ne by lia. apply Hframe. lia.
    + intros i d' Hi Ei. destruct (decide (i = k)) as [->|Hne].
      * rewrite Ed in Ei. injection Ei as <-.
        rewrite !list_lookup_insert_eq by lia.
        rewrite list_lookup_alter_eq, Hframe by lia. done.
      * rewrite !list_lookup_insert_ne by lia.
        rewrite list_lookup_alter_ne by lia. apply Hdone; [lia | done].
  - destruct st as [[bJ bJdv] prog']. simpl in HP.
    destruct HP as (HlJ & HlJdv & Hv & Hnv & Hx & Hl & Hframe & Hdone).
    exists bJ, bJdv, prog'. do 8 (split; [done |]).
    intros i d Ei. apply Hdone; [| done]. by apply lookup_lt_Some in Ei.
Qed.

Lemma eqb_true_intro (a b : nat) : a = b → Nat.eqb a b = true.
Proof. apply Nat.eqb_eq. Qed.

(** Formulate returns on a structured controller whose counts are the
    cycle's, and leaves it formulated. *)
Lemma Formulate_spec (rs : HumanoidStatus) (input : QPInput R) (c : QPController R) :
  structured c →
  topology c = current_topology (robot rs) (contact_info input)
                 (desired_body_accelerations input) →
  ∃ c',
    Formulate rs input
      {| dv_index := 0; dv_size := num_vd_ (topology c) |}
      {| dv_index := num_vd_ (topology c); dv_size := num_basis_ (topology c) |} c
      = Returned c' ∧
    formulated rs input c c'.
Proof.
  intros Hs Ht. rewrite current_topology_eq in Ht.
  assert (Hn : num_contact_body_ (topology c) = length (contact_info input))
    by (by rewrite Ht).
  assert (Hm : num_body_acceleration_ (topology c) = length (desired_body_accelerations input))
    by (by rewrite Ht).
  assert (Hp : num_point_force_ (topology c) = total_points (contact_info input))
    by (by rewrite Ht).
  assert (Hb : num_basis_ (topology c) = total_basis (contact_info input))
    by (by rewrite Ht).
  clear Ht. destruct Hs as [Hvars Hnvar Hh Hlen HbJ HbJdv _ _ _ _ _].
  unfold Formulate.
  destruct (stack_contacts_spec rs input (topology c) (scratch c) Hn)
    as (b2f & J & Jdv & E1 & Hb2f & HJ & HJdv).
  rewrite E1. cbn [mbind Run_bind].
  rewrite (eqb_true_intro (3 * total_points (contact_info input))
             (num_point_force_ (topology c) * 3)) by lia.
  rewrite (eqb_true_intro (total_basis (contact_info input)) (num_basis_ (topology c)))
    by done.
  rewrite !DRAKE_ASSERT_true. cbn [mbind Run_bind dv_index].
  rewrite Hh. cbn [layout eq_dynamics_ ineq_torque_limit_ cost_comdd_ cost_vd_reg_
    cost_basis_reg_].
  unfold UpdateEquality, UpdateLinear, UpdateQuadratic.
  rewrite (update_binding_in_range 0) by lia.
  cbn [or_abort mbind Run_bind].
  match goal with |- context [update_contacts input ?t ?hs ?J ?Jdv ?p] =>
    destruct (update_contacts_spec input t hs J Jdv p)
      as (prog2 & E2 & Hv2 & Hnv2 & Hx2 & Hl2 & Hframe2 & Hdone2) end.
  { done. } { done. } { cbn [bindings]. rewrite length_alter. lia. }
  rewrite E2. cbn [mbind Run_bind].
  rewrite (eqb_true_intro (3 * total_points (contact_info input))
             (num_point_force_ (topology c) * 3)) by lia.
  rewrite DRAKE_ASSERT_true. cbn [mbind Run_bind].
  cbn [bindings variables num_vars x_values] in Hv2, Hnv2, Hx2, Hl2, Hframe2, Hdone2.
  rewrite length_alter in Hl2.
  destruct (add_effort_limits _ _ _) as [lb ub] eqn:Ebounds.
  rewrite (update_binding_in_range (2 + num_contact_body_ (topology c))) by lia.
  cbn [or_abort mbind Run_bind].
  rewrite (update_binding_in_range (3 + num_contact_body_ (topology c)))
    by (cbn [bindings]; rewrite length_alter; lia).
  cbn [or_abort mbind Run_bind bindings variables num_vars x_values].
  match goal with |- context [update_body_costs rs ?l ?hs (?bJ, ?bJdv, ?p)] =>
    destruct (update_body_costs_spec rs l hs (4 + num_contact_body_ (topology c)) bJ bJdv p)
      as (bJ3 & bJdv3 & prog3 & E3 & HlJ3 & HlJdv3 & Hv3 & Hnv3 & Hx3 & Hl3 & Hframe3 & Hdone3)
  end.
  { cbn [layout cost_body_accelerations_]. by rewrite Hm. }
  { cbn [bindings]. rewrite !length_alter. lia. }
  { lia. } { lia. }
  rewrite E3. cbn [mbind Run_bind].
  cbn [bindings variables num_vars x_values] in Hv3, Hnv3, Hx3, Hl3, Hframe3, Hdone3.
  rewrite !length_alter in Hl3.
  rewrite (update_binding_in_range
             (4 + num_contact_body_ (topology c) + num_body_acceleration_ (topology c)))
    by lia.
  cbn [or_abort mbind Run_bind].
  rewrite (update_binding_in_range
             (5 + num_contact_body_ (topology c) + num_body_acceleration_ (topology c)))
    by (cbn [bindings]; rewrite length_alter; lia).
  cbn [or_abort mbind Run_bind bindings variables num_vars x_values].
  eexists. split; [reflexivity |].
  constructor; cbn [topology handles prog_ scratch bindings variables num_vars x_values
    stacked_contact_jacobians_ basis_to_force_matrix_ stacked_contact_jacobians_dot_times_v_
    torque_linear_ dynamics_linear_ torque_constant_ dynamics_constant_ JB_
    inequality_linear_ inequality_lower_bound_ inequality_upper_bound_ point_forces_
    body_J_ body_Jdv_].
  - done.
  - done.
  - congruence.
  - congruence.
  - congruence.
  - rewrite !length_alter. lia.
  - done.
  - done.
  - done.
  - lia.
  - lia.
  - done.
  - done.
  - done.
  - done.
  - done.
  - done.
  - done.
  - done.
  - (* eq_dynamics_ *)
    rewrite !list_lookup_alter_ne by lia.
    rewrite Hframe3 by lia. rewrite !list_lookup_alter_ne by lia.
    rewrite Hframe2 by lia. by rewrite list_lookup_alter_eq.
  - (* eq_contacts_ *)
    intros i s Ei. assert (i < num_contact_body_ (topology c))
      by (rewrite Hn; by apply lookup_lt_Some in Ei).
    rewrite !list_lookup_alter_ne by lia.
    rewrite Hframe3 by lia. rewrite !list_lookup_alter_ne by lia.
    rewrite (Hdone2 i s Ei). by rewrite list_lookup_alter_ne by lia.
  - (* ineq_contact_wrench_ *)
    rewrite !list_lookup_alter_ne by lia.
    rewrite Hframe3 by lia. rewrite !list_lookup_alter_ne by lia.
    rewrite Hframe2 by lia. by rewrite list_lookup_alter_ne by lia.
  - (* ineq_torque_limit_ *)
    rewrite !list_lookup_alter_ne by lia.
    rewrite Hframe3 by lia. rewrite list_lookup_alter_ne by lia.
    rewrite list_lookup_alter_eq.
    rewrite Hframe2 by lia. by rewrite list_lookup_alter_ne by lia.
  - (* cost_comdd_ *)
    rewrite !list_lookup_alter_ne by lia.
    rewrite Hframe3 by lia. rewrite list_lookup_alter_eq.
    rewrite list_lookup_alter_ne by lia.
    rewrite Hframe2 by lia. by rewrite list_lookup_alter_ne by lia.
  - (* cost_body_accelerations_ *)
    intros i d Ei. assert (i < num_body_acceleration_ (topology c))
      by (rewrite Hm; by apply lookup_lt_Some in Ei).
    destruct (Hdone3 i d Ei) as (EJ & EJdv & Eb).
    split; [done |]. split; [done |].
    rewrite !list_lookup_alter_ne by lia.
    rewrite Eb. rewrite !list_lookup_alter_ne by lia.
    rewrite Hframe2 by lia. by rewrite list_lookup_alter_ne by lia.
  - (* cost_vd_reg_ *)
    rewrite list_lookup_alter_ne by lia. rewrite list_lookup_alter_eq.
    rewrite Hframe3 by lia. rewrite !list_lookup_alter_ne by lia.
    rewrite Hframe2 by lia. by rewrite list_lookup_alter_ne by lia.
  - (* cost_basis_reg_ *)
    rewrite list_lookup_alter_eq. rewrite list_lookup_alter_ne by lia.
    rewrite Hframe3 by lia. rewrite !list_lookup_alter_ne by lia.
    rewrite Hframe2 by lia. by rewrite list_lookup_alter_ne by lia.
Qed.

Lemma SetTempMatricesToZero_structured (c : QPController R) :
  structured c → structured (SetTempMatricesToZero c).
Proof.
  intros [Hvars Hnvar Hh Hlen HbJ HbJdv [? ?] [? ?] ? [? ?] [? ?]].
  constructor; simpl; try done.
Qed.

Lemma GetVariable_structured (c : QPController R) :
  structured c →
  GetVariable "vd" (prog_ c) = Some {| dv_index := 0; dv_size := num_vd_ (topology c) |} ∧
  GetVariable "basis" (prog_ c)
    = Some {| dv_index := num_vd_ (topology c); dv_size := num_basis_ (topology c) |}.
Proof.
  intros Hs. unfold GetVariable. rewrite (st_variables c Hs). done.
Qed.

Lemma formulated_structured (rs : HumanoidStatus) (input : QPInput R) (c c' : QPController R) :
  structured c → formulated rs input c c' → structured c'.
Proof.
  intros Hs Hf.
  pose proof (fm_topology _ _ _ _ Hf) as Et.
  constructor; rewrite Et.
  - rewrite (fm_variables _ _ _ _ Hf). apply Hs.
  - apply Hs.
  - rewrite (fm_handles _ _ _ _ Hf). apply Hs.
  - rewrite (fm_length _ _ _ _ Hf). apply Hs.
  - rewrite (fm_body_J_length _ _ _ _ Hf). apply Hs.
  - rewrite (fm_body_Jdv_length _ _ _ _ Hf). apply Hs.
  - apply (fm_stacked_dims _ _ _ _ Hf), Hs.
  - apply (fm_basis_to_force_dims _ _ _ _ Hf), Hs.
  - rewrite (fm_stacked_dot_length _ _ _ _ Hf). apply Hs.
  - rewrite (fm_torque_linear _ _ _ _ Hf). apply mset_block_dims, mset_block_dims, Hs.
  - rewrite (fm_dynamics_linear _ _ _ _ Hf). apply mset_block_dims, mset_block_dims, Hs.
Qed.

(** With a valid input and a controller that is ready, Control reaches the
    solver: the formulation step returns. *)
Lemma Control_formulates (rs : HumanoidStatus) (input : QPInput R) (c : QPController R)
    (output : QPOutput R) :
  QPInput_is_valid input (number_of_velocities (robot rs)) = true →
  ready rs input c →
  ∃ c1,
    formulated rs input (prepared rs input c) c1 ∧
    structured c1 ∧
    topology c1 = current_topology (robot rs) (contact_info input)
                    (desired_body_accelerations input) ∧
    Control rs input c output
      = solve_and_decompose rs input
          {| dv_index := 0; dv_size := num_vd_ (topology c1) |}
          {| dv_index := num_vd_ (topology c1); dv_size := num_basis_ (topology c1) |}
          c1 output.
Proof.
  intros Hvalid Hready. unfold Control. rewrite Hvalid. cbn [negb]. cbv zeta.
  assert (Hs : structured (prepared rs input c)).
  { apply SetTempMatricesToZero_structured, ResizeQP_structured, Hready. }
  assert (Ht : topology (prepared rs input c)
               = current_topology (robot rs) (contact_info input)
                   (desired_body_accelerations input)).
  { unfold prepared. simpl. apply ResizeQP_topology. }
  destruct (GetVariable_structured _ Hs) as [-> ->]. cbn [or_abort mbind Run_bind].
  destruct (Formulate_spec rs input _ Hs Ht) as (c1 & E & Hf).
  rewrite E. cbn [mbind Run_bind].
  exists c1. split; [done |]. split; [by eapply formulated_structured |].
  split; [by rewrite (fm_topology _ _ _ _ Hf) |].
  by rewrite (fm_topology _ _ _ _ Hf).
Qed.

(** Formulate does not touch the stored counts. *)
Lemma Formulate_topology (rs : HumanoidStatus) (input : QPInput R)
    (vd_view basis_view : DecisionVariableView) (c c' : QPController R) :
  Formulate rs input vd_view basis_view c = Returned c' → topology c' = topology c.
Proof.
  unfold Formulate. intros E.
  repeat match type of E with
  | (_ ≫= _) = Returned _ =>
      let a := fresh "a" in
      apply bind_Returned in E as (a & _ & E);
      repeat match goal with p : (_ * _)%type |- _ => destruct p end
  | (let '(_, _) := ?p in _) = Returned _ => destruct p
  end.
  by injection E as <-.
Qed.

End FormulateFacts.

(** ** The checks after the solve *)

Section DecomposeFacts.
Context {R : Type} `{Collaborators R}.




(** An index loop that reads l[i] at every step is the left fold over l. *)
Lemma for_range_lookup_fold {A St} (g : A → St → St) (why : string) (l : list A) :
  ∀ (pre : list A) (s : St),
  for_range (length pre) (length l)
    (λ i s, x ← or_abort why ((pre ++ l) !! i); Returned (g x s)) s
  = Returned (fold_left (λ s x, g x s) l s).
Proof.
  induction l as [|a l IH]; intros pre s; simpl; [done |].
  rewrite list_lookup_middle by done. simpl.
  specialize (IH (pre ++ [a]) (g a s)).
  rewrite length_app, <- app_assoc in IH. simpl in IH.
  by rewrite Nat.add_1_r in IH.
Qed.

Lemma net_external_wrench_eq (rs : HumanoidStatus) (t : Topology)
    (resolved : list (ResolvedContact R)) :
  num_contact_body_ t = length resolved →
  net_external_wrench rs t resolved = Returned (net_wrench_about_com rs resolved).
Proof.
  intros Hn. unfold net_external_wrench, net_wrench_about_com. rewrite Hn.
  exact (for_range_lookup_fold (recombined_about_com rs) out_of_range resolved [] _).
Qed.

Lemma resolve_contacts_length (rs : HumanoidStatus) (l : list (ContactInformation R))
    (basis_value point_forces : Vector R) :
  length (resolve_contacts rs l basis_value point_forces) = length l.
Proof.
  unfold resolve_contacts.
  match goal with |- context [fold_left ?f l _] => set (step := f) end.
  assert (G : ∀ l st, length (snd (fold_left step l st)) = length (snd st) + length l).
  { clear l. induction l as [|a l IH]; intros [[bi pi] acc]; simpl; [lia |].
    rewrite IH. unfold step.
    destruct (ComputeContactPointsAndWrenchReferencePoint _ _ _ _). simpl.
    rewrite length_app. simpl. lia. }
  by rewrite G.
Qed.

(** Decompose returns only after every check of lines 289-303 and 362 has
    passed; what it returns is read off the program and the buffers. *)
Lemma Decompose_Returned (rs : HumanoidStatus) (input : QPInput R)
    (vd_view basis_view : DecisionVariableView) (c : QPController R)
    (output : QPOutput R) (r : ControlResult R) :
  Decompose rs input vd_view basis_view c output = Returned r →
  let point_forces :=
    mvmul (basis_to_force_matrix_ (scratch c)) (value basis_view (prog_ c)) in
  let resolved :=
    resolve_contacts rs (contact_info input) (value basis_view (prog_ c)) point_forces in
  check_equalities (prog_ c) = Returned () ∧
  check_inequalities (prog_ c) = Returned () ∧
  (∃ net_wrench,
     net_external_wrench rs (topology c) resolved = Returned net_wrench ∧
     (kDrakeAssertIsArmed = true →
      visZero EPSILON (vsub net_wrench (momentum_rate rs (value vd_view (prog_ c)))) = true)) ∧
  controller r = with_point_forces point_forces c ∧
  vd (qp_output r) = value vd_view (prog_ c) ∧
  resolved_contacts (qp_output r) = resolved ∧
  joint_torque (qp_output r) =
    vadd (mvmul (torque_linear_ (scratch c)) (GetSolution (prog_ c)))
         (torque_constant_ (scratch c)) ∧
  (ret r = 0%Z ∧ cerr r = [] ∨ ret r = (-1)%Z ∧ cerr r = ["output is invalid"]).
Proof.
  unfold Decompose. intros E.
  apply bind_Returned in E as ([] & Eeq & E).
  apply bind_Returned in E as ([] & Eineq & E).
  apply bind_Returned in E as (accelerations & Eacc & E).
  apply bind_Returned in E as (net_wrench & Enet & E).
  apply bind_Returned in E as ([] & Eassert & E).
  cbv zeta. split; [done |]. split; [done |]. split.
  { exists net_wrench. split; [done |]. intros Harmed. by eapply DRAKE_ASSERT_Returned. }
  destruct (negb (QPOutput_is_valid _ _ _)); injection E as <-; simpl; auto 10.
Qed.

(** The three ways out of lines 257-369. *)
Lemma solve_and_decompose_Returned (rs : HumanoidStatus) (input : QPInput R)
    (vd_view basis_view : DecisionVariableView) (c : QPController R)
    (output : QPOutput R) (r : ControlResult R) :
  solve_and_decompose rs input vd_view basis_view c output = Returned r →
  (available = false ∧
   r = {| ret := (-1)%Z; cerr := ["Solver not available."];
          controller := c; qp_output := output |}) ∨
  (available = true ∧ ∃ result x,
     Solve (prog_ c) = (result, x) ∧
     let c2 := with_prog (SetDecisionVariableValues x (prog_ c)) c in
     (is_kSolutionFound result = false ∧
      r = {| ret := (-1)%Z; cerr := ["solution not found"];
             controller := c2; qp_output := output |}) ∨
     (is_kSolutionFound result = true ∧
      Decompose rs input vd_view basis_view c2 output = Returned r)).
Proof.
  unfold solve_and_decompose. destruct available; cbn [negb].
  - intros E. right. split; [done |].
    destruct (Solve (prog_ c)) as [result x]. exists result, x. split; [done |].
    destruct (is_kSolutionFound result); cbn [negb] in E.
    + right. done.
    + left. split; [done |]. by injection E as <-.
  - intros [= <-]. by left.
Qed.

(** Every way out of Control. *)
Lemma Control_Returned (rs : HumanoidStatus) (input : QPInput R) (c : QPController R)
    (output : QPOutput R) (r : ControlResult R) :
  Control rs input c output = Returned r →
  (QPInput_is_valid input (number_of_velocities (robot rs)) = false ∧
   r = {| ret := (-1)%Z; cerr := ["input is invalid"];
          controller := c; qp_output := output |}) ∨
  (QPInput_is_valid input (number_of_velocities (robot rs)) = true ∧
   ∃ vd_view basis_view c1,
     Formulate rs input vd_view basis_view (prepared rs input c) = Returned c1 ∧
     solve_and_decompose rs input vd_view basis_view c1 output = Returned r).
Proof.
  unfold Control. destruct (QPInput_is_valid _ _); cbn [negb].
  - intros E. right. split; [done |]. cbv zeta in E.
    apply bind_Returned in E as (vd_view & _ & E).
    apply bind_Returned in E as (basis_view & _ & E).
    apply bind_Returned in E as (c1 & E1 & E).
    by exists vd_view, basis_view, c1.
  - intros [= <-]. by left.
Qed.

End DecomposeFacts.

(** ** The claims about Control *)

Section ControlClaims.
Context {R : Type} `{Collaborators R}.

(** C3, as amended.  The int Control returns tells success from failure and
    nothing more: it is 0 exactly when the cycle succeeded, and -1 for each
    of the four failures, which differ only in the line written to
    std::cerr. *)
Theorem Control_return_code (rs : HumanoidStatus) (input : QPInput R) (c : QPController R)
    (output : QPOutput R) (r : ControlResult R) :
  Control rs input c output = Returned r →
  (ret r = 0%Z ∧ cerr r = message success) ∨
  (ret r = (-1)%Z ∧
   (cerr r = message input_invalid ∨ cerr r = message solver_unavailable ∨
    cerr r = message no_solution_found ∨ cerr r = message output_invalid)).
Proof.
  intros E. apply Control_Returned in E as [[_ ->] | (_ & vdv & bv & c1 & _ & E)].
  { right. simpl. auto. }
  apply solve_and_decompose_Returned in E
    as [[_ ->] | (_ & result & x & _ & [[_ ->] | [_ E]])].
  - right. simpl. auto.
  - right. simpl. auto.
  - apply Decompose_Returned in E as (_ & _ & _ & _ & _ & _ & _ & [[-> ->] | [-> ->]]).
    + by left.
    + right. simpl. auto.
Qed.

(** C4.  A QPInput whose regularization target has not the model's number of
    velocities is refused: Control returns -1 with the line "input is
    invalid", and hands back the controller and the output exactly as it
    received them, whatever the solver is. *)
Theorem Control_rejects_malformed_input (rs : HumanoidStatus) (input : QPInput R)
    (c : QPController R) (output : QPOutput R) :
  length (desired_vd input) ≠ number_of_velocities (robot rs) →
  Control rs input c output
    = Returned {| ret := (-1)%Z; cerr := message input_invalid;
                  controller := c; qp_output := output |}.
Proof.
  intros Hne. unfold Control, QPInput_is_valid.
  by rewrite (proj2 (Nat.eqb_neq _ _) Hne).
Qed.

(** C9.  With a valid input and a controller that is ready, a solver that is
    not available makes Control return -1 with the line "Solver not
    available.", and the output is the one it received. *)
Theorem Control_solver_unavailable (rs : HumanoidStatus) (input : QPInput R)
    (c : QPController R) (output : QPOutput R) :
  available = false →
  QPInput_is_valid input (number_of_velocities (robot rs)) = true →
  ready rs input c →
  ∃ r, Control rs input c output = Returned r ∧
       ret r = (-1)%Z ∧ cerr r = message solver_unavailable ∧ qp_output r = output.
Proof.
  intros Hav Hvalid Hready.
  destruct (Control_formulates rs input c output Hvalid Hready) as (c1 & _ & _ & _ & ->).
  unfold solve_and_decompose. rewrite Hav. cbn [negb]. eexists. done.
Qed.

(** C1.  In every cycle that succeeds, the joint torque written to the
    output is torque_linear_ times the vector the solver returned plus
    torque_constant_, whatever that vector is; the vd-block of torque_linear_
    is the lower rows of the mass matrix, its basis-block the negated lower
    rows of JB_ (the transposed stacked contact Jacobian times the basis
    matrix), and torque_constant_ the lower rows of the bias term. *)
Theorem Control_joint_torque (rs : HumanoidStatus) (input : QPInput R) (c : QPController R)
    (output : QPOutput R) (r : ControlResult R) :
  ready rs input c →
  mcols (M rs) = number_of_velocities (robot rs) →
  Control rs input c output = Returned r →
  ret r = 0%Z →
  torque_affine_map rs r.
Proof.
  unfold torque_affine_map. intros Hready HM E Hret.
  destruct (Control_Returned _ _ _ _ _ E) as [[_ ->] | (Hvalid & _)]; [done |].
  destruct (Control_formulates rs input c output Hvalid Hready) as (c1 & Hf & Hs & Ht & E').
  rewrite E' in E. clear E'.
  apply solve_and_decompose_Returned in E
    as [[_ ->] | (_ & result & x & ES & [[_ ->] | [_ E]])]; [done | done |].
  apply Decompose_Returned in E as (_ & _ & _ & Ec & _ & _ & Ejt & _).
  assert (Hs0 : structured (prepared rs input c)).
  { apply SetTempMatricesToZero_structured, ResizeQP_structured, Hready. }
  pose proof (fm_topology _ _ _ _ Hf) as Et.
  cbv zeta. rewrite Ec.
  cbn [with_point_forces with_prog scratch topology prog_ torque_linear_ torque_constant_
    JB_ stacked_contact_jacobians_ basis_to_force_matrix_ GetSolution
    SetDecisionVariableValues x_values] in *.
  split; [by exists (prog_ c1), result |]. split; [done |].
  rewrite (fm_torque_linear _ _ _ _ Hf), (fm_torque_constant _ _ _ _ Hf), <- Et.
  destruct (st_torque_linear _ Hs0) as [Hrows Hcols].
  rewrite (st_num_variable _ Hs0) in Hcols.
  assert (HnM : mcols (M rs) = num_vd_ (topology c1)).
  { rewrite HM, Ht, current_topology_eq. done. }
  assert (HnJB : mcols (JB_ (scratch c1)) = num_basis_ (topology c1)).
  { rewrite (fm_JB _ _ _ _ Hf). simpl. apply (st_basis_to_force _ Hs). }
  rewrite <- Et in Hrows, Hcols.
  split; [| split; [| split]].
  - unfold bottomRows at 3. rewrite HnM. unfold bottomRows at 2. rewrite HnM.
    by apply side_by_side_left.
  - unfold mneg at 2. simpl. rewrite HnJB. unfold mneg. simpl. rewrite HnJB.
    by apply side_by_side_right.
  - apply (fm_JB _ _ _ _ Hf).
  - done.
Qed.

(** A cycle that got past the solve: Decompose returned on the program
    holding the solver's values, and the counts are the cycle's. *)
Lemma Control_past_solve (rs : HumanoidStatus) (input : QPInput R) (c : QPController R)
    (output : QPOutput R) (r : ControlResult R) :
  Control rs input c output = Returned r →
  past_solve r →
  ∃ vd_view basis_view c2,
    Decompose rs input vd_view basis_view c2 output = Returned r ∧
    topology c2 = current_topology (robot rs) (contact_info input)
                    (desired_body_accelerations input).
Proof.
  unfold past_solve. intros E Hcerr.
  apply Control_Returned in E as [[_ ->] | (_ & vdv & bv & c1 & EF & E)].
  { simpl in Hcerr. by destruct Hcerr. }
  apply solve_and_decompose_Returned in E
    as [[_ ->] | (_ & result & x & _ & [[_ ->] | [_ E]])].
  - simpl in Hcerr. by destruct Hcerr.
  - simpl in Hcerr. by destruct Hcerr.
  - eexists vdv, bv, _. split; [apply E |]. simpl.
    rewrite (Formulate_topology _ _ _ _ _ _ EF). apply ResizeQP_topology.
Qed.



Section TorqueLimit.
Context `{!ScalarLaws R}.

(** C5.  In every cycle that gets past the input check, the torque-limit
    inequality (the declaration ineq_torque_limit_ points to) holds the
    matrix B.bottomRows(num_torque_)' * torque_linear_, and for each
    actuator the bounds effort_limit_min_ and effort_limit_max_ minus that
    actuator's coefficient of B.bottomRows(num_torque_)' * torque_constant_. *)
Theorem Control_torque_limit (rs : HumanoidStatus) (input : QPInput R) (c : QPController R)
    (output : QPOutput R) (r : ControlResult R) :
  ready rs input c →
  mcols (B (robot rs)) = length (actuators (robot rs)) →
  Control rs input c output = Returned r →
  cerr r ≠ message input_invalid →
  torque_limit_refreshed rs r.
Proof.
  unfold torque_limit_refreshed. intros Hready HB E Hcerr.
  destruct (Control_Returned _ _ _ _ _ E) as [[_ ->] | (Hvalid & _)]; [done |].
  destruct (Control_formulates rs input c output Hvalid Hready) as (c1 & Hf & Hs & Ht & E').
  rewrite E' in E. clear E'.
  assert (Hsame : handles (controller r) = handles c1 ∧
                  bindings (prog_ (controller r)) = bindings (prog_ c1) ∧
                  scratch (controller r)
                    = scratch (with_point_forces (point_forces_ (scratch (controller r))) c1) ∧
                  topology (controller r) = topology c1).
  { apply solve_and_decompose_Returned in E
      as [[_ ->] | (_ & result & x & _ & [[_ ->] | [_ E]])].
    - simpl. by destruct c1 as [? ? ? []].
    - simpl. by destruct c1 as [? ? ? []].
    - apply Decompose_Returned in E as (_ & _ & _ & -> & _). done. }
  destruct Hsame as (Eh & Eb & Es & Et). clear E Hcerr.
  cbv zeta. rewrite Eh, Eb, Es, Et. cbn [with_point_forces scratch torque_linear_
    torque_constant_].
  assert (Hs0 : structured (prepared rs input c)).
  { apply SetTempMatricesToZero_structured, ResizeQP_structured, Hready. }
  pose proof (fm_topology _ _ _ _ Hf) as Et0.
  destruct (lookup_lt_is_Some_2 (bindings (prog_ (prepared rs input c)))
              (2 + num_contact_body_ (topology c1))) as [b0 Eb0].
  { rewrite (st_bindings _ Hs0), Et0. lia. }
  pose proof (fm_ineq_torque_limit _ _ _ _ Hf) as Elim.
  pose proof (fm_inequality_bounds _ _ _ _ Hf) as Ebounds.
  rewrite <- Et0 in Elim, Ebounds. rewrite Eb0 in Elim.
  symmetry in Ebounds. apply add_effort_limits_spec in Ebounds as (Elb & Eub & Hat);
    try (unfold mvmul; rewrite length_vbuild; simpl; lia).
  eexists _, _, _, _. split; [| split; [apply Elim | split; [| split; [| split]]]].
  - rewrite (fm_handles _ _ _ _ Hf), (st_handles _ Hs0), Et0. done.
  - simpl. by rewrite (fm_inequality_linear _ _ _ _ Hf), Et0.
  - rewrite Elb. unfold mvmul. rewrite length_vbuild. simpl. done.
  - rewrite Eub. unfold mvmul. rewrite length_vbuild. simpl. done.
  - intros i a Ea. assert (i < mcols (B (robot rs))).
    { rewrite HB. by apply lookup_lt_Some in Ea. }
    destruct (Hat i a Ea) as [-> ->].
    unfold mtranspose at 1 3.
    rewrite !vget_mvmul_mneg by (simpl; lia).
    by rewrite !minus_as_negated_sum.
Qed.

End TorqueLimit.

(** Once structured, a controller stays structured over every cycle that
    returns, so it is ready for the next one. *)
Lemma Control_keeps_structured (rs : HumanoidStatus) (input : QPInput R) (c : QPController R)
    (output : QPOutput R) (r : ControlResult R) :
  structured c → Control rs input c output = Returned r → structured (controller r).
Proof.
  intros Hc E.
  destruct (Control_Returned _ _ _ _ _ E) as [[_ ->] | (Hvalid & _)]; [done |].
  destruct (Control_formulates rs input c output Hvalid (or_introl Hc))
    as (c1 & _ & Hs & _ & E').
  rewrite E' in E. clear E'.
  apply solve_and_decompose_Returned in E
    as [[_ ->] | (_ & result & x & _ & [[_ ->] | [_ E]])].
  - done.
  - destruct Hs. by constructor.
  - apply Decompose_Returned in E as (_ & _ & _ & -> & _).
    destruct Hs. by constructor.
Qed.

End ControlClaims.

(** ** The claims on the concrete robot *)

Module OnTheRobot.
Import QArith Example.

Lemma Q_scalar_laws : ScalarLaws Q.
Proof.
  constructor.
  - intros [a b] [c d]. unfold sc_add; simpl. unfold Qplus; simpl.
    f_equal; [lia | apply Pos.mul_comm].
  - intros x y. reflexivity.
  - reflexivity.
  - intros [a b] [c d]. unfold sc_neg, sc_add; simpl. unfold Qopp, Qplus; simpl.
    f_equal. lia.
  - intros [a b] [c d]. unfold sc_neg, sc_mul; simpl. unfold Qopp, Qmult; simpl.
    f_equal. lia.
Qed.

Lemma fresh_controller_ready armed solver_available solve :
  @ready Q _ (collaborators armed solver_available solve)
    (@standing (collaborators armed solver_available solve) tt) stand_still fresh_controller.
Proof. right. vm_compute. discriminate. Defined.

(** The standing cycle succeeds and its torque is the affine map. *)
Lemma Control_joint_torque_witness :
  @torque_affine_map Q _ checked_build (@standing checked_build tt) balanced_result.
Proof.
  apply (@Control_joint_torque Q _ checked_build (@standing checked_build tt) stand_still
           fresh_controller blank_output balanced_result).
  - apply fresh_controller_ready.
  - reflexivity.
  - vm_compute. reflexivity.
  - reflexivity.
Defined.

(** The first cycle rebuilds; a second cycle with the same descriptors
    leaves the controller alone. *)
Lemma ResizeQP_reuses_or_rebuilds_witness :
  @ResizeQP Q _ checked_build the_robot [foot_contact] [hold_pelvis]
    (controller balanced_result) = controller balanced_result ∧
  @ResizeQP Q _ checked_build the_robot [foot_contact] [hold_pelvis] fresh_controller
    ≠ fresh_controller.
Proof.
  split.
  - apply (proj1 (proj2 (@ResizeQP_reuses_or_rebuilds Q _ checked_build the_robot
                           [foot_contact] [hold_pelvis] (controller balanced_result)))).
    vm_compute. reflexivity.
  - apply (proj2 (proj2 (@ResizeQP_reuses_or_rebuilds Q _ checked_build the_robot
                           [foot_contact] [hold_pelvis] fresh_controller))).
    vm_compute. discriminate.
Defined.

(** The standing cycle returns 0 and writes nothing to std::cerr. *)
Lemma Control_return_code_witness :
  (ret balanced_result = 0%Z ∧ cerr balanced_result = message success) ∨
  (ret balanced_result = (-1)%Z ∧
   (cerr balanced_result = message input_invalid ∨
    cerr balanced_result = message solver_unavailable ∨
    cerr balanced_result = message no_solution_found ∨
    cerr balanced_result = message output_invalid)).
Proof.
  apply (@Control_return_code Q _ checked_build (@standing checked_build tt) stand_still
           fresh_controller blank_output balanced_result).
  vm_compute. reflexivity.
Defined.

(** C3, as stated, fails: without a solver, a malformed request and a
    well-formed one fail for different reasons and return the same -1, so no
    reading of the int recovers the outcome. *)
Lemma return_code_does_not_tell_outcome :
  ¬ @return_code_tells_outcome Q _ solverless_build.
Proof.
  intros [decode Hdecode].
  assert (E1 : cerr rejected_result = message (decode (ret rejected_result))).
  { apply (Hdecode (@standing solverless_build tt) malformed fresh_controller blank_output).
    vm_compute. reflexivity. }
  assert (E2 : cerr unavailable_result = message (decode (ret unavailable_result))).
  { apply (Hdecode (@standing solverless_build tt) stand_still fresh_controller blank_output).
    vm_compute. reflexivity. }
  change (ret unavailable_result) with (ret rejected_result) in E2.
  rewrite <- E1 in E2. discriminate E2.
Qed.

(** The malformed request is refused and nothing is touched. *)
Lemma Control_rejects_malformed_input_witness :
  @Control Q _ checked_build (@standing checked_build tt) malformed fresh_controller
    blank_output
  = Returned {| ret := (-1)%Z; cerr := message input_invalid;
                controller := fresh_controller; qp_output := blank_output |}.
Proof.
  apply (@Control_rejects_malformed_input Q _ checked_build).
  vm_compute. discriminate.
Defined.

(** The torque-limit inequality of the standing cycle. *)
Lemma Control_torque_limit_witness :
  @torque_limit_refreshed Q _ checked_build (@standing checked_build tt) balanced_result.
Proof.
  apply (@Control_torque_limit Q _ checked_build Q_scalar_laws
           (@standing checked_build tt) stand_still fresh_controller blank_output
           balanced_result).
  - apply fresh_controller_ready.
  - reflexivity.
  - vm_compute. reflexivity.
  - vm_compute. discriminate.
Defined.

(** The declarations of the first cycle, in order. *)
Lemma ResizeQP_declaration_order_witness :
  declaration <$>
    bindings (prog_ (@ResizeQP Q _ checked_build the_robot [foot_contact] [hold_pelvis]
                       fresh_controller))
  = [ (equality, "dynamics eq"); (equality, "foot contact eq");
      (inequality, "contact force basis ineq"); (inequality, "torque limit ineq");
      (cost, "com cost"); (cost, "pelvis cost"); (cost, "vd reg cost");
      (cost, "basis reg cost") ].
Proof.
  apply (@ResizeQP_declaration_order Q _ checked_build the_robot [foot_contact] [hold_pelvis]
           fresh_controller).
  vm_compute. discriminate.
Defined.



(** Without a solver the standing cycle fails and the output stays blank. *)
Lemma Control_solver_unavailable_witness :
  ∃ r, @Control Q _ solverless_build (@standing solverless_build tt) stand_still
         fresh_controller blank_output = Returned r ∧
       ret r = (-1)%Z ∧ cerr r = message solver_unavailable ∧ qp_output r = blank_output.
Proof.
  apply (@Control_solver_unavailable Q _ solverless_build).
  - reflexivity.
  - reflexivity.
  - apply fresh_controller_ready.
Defined.

(** A second cycle on the controller the first one left, with the same
    request: nothing is rebuilt and the same result comes back. *)
Example second_cycle_reuses_the_structure :
  @structured Q (controller balanced_result) ∧
  @Control Q _ checked_build (@standing checked_build tt) stand_still
    (controller balanced_result) (qp_output balanced_result) = Returned balanced_result.
Proof.
  split.
  - constructor; vm_compute; repeat split; reflexivity.
  - vm_compute. reflexivity.
Qed.

(** With assertions armed the careless back end does not get through: the
    cycle is cut short at the first equality. *)
Example careless_solution_is_caught :
  @Control Q _ careless_build (@standing careless_build tt) stand_still fresh_controller
    blank_output = Aborted "equality constraint residual".
Proof. vm_compute. reflexivity. Qed.

(** The controller that failed at the solver is not the fresh one. *)
Example failed_cycle_changed_the_controller :
  controller no_solution_result ≠ fresh_controller ∧
  controller unavailable_result ≠ fresh_controller.
Proof. split; vm_compute; discriminate. Qed.

End OnTheRobot.

(** ** What else a cycle does *)

Section CycleFacts.
Context {R : Type} `{Collaborators R}.

#[local] Arguments Nat.mul : simpl never.

Lemma bind_Aborted {A B} (m : Run A) (f : A → Run B) why :
  m ≫= f = Aborted why → m = Aborted why ∨ ∃ a, m = Returned a ∧ f a = Aborted why.
Proof. destruct m as [a|w]; simpl; [eauto | intros [= ->]; by left]. Qed.

(** A loop is cut short only where its body is. *)
Lemma for_range_Aborted {St} (Q : string → Prop) (body : nat → St → Run St) :
  (∀ k s why, body k s = Aborted why → Q why) →
  ∀ n start s why, for_range start n body s = Aborted why → Q why.
Proof.
  intros HQ. induction n as [|n IH]; intros start s why E; [done |].
  simpl in E. apply bind_Aborted in E as [E | (s1 & _ & E)]; [by eapply HQ | by eapply IH].
Qed.

Lemma for_each_Aborted {A St} (Q : string → Prop) (body : nat → A → St → Run St) :
  (∀ k a s why, body k a s = Aborted why → Q why) →
  ∀ l i s why, for_each body i l s = Aborted why → Q why.
Proof.
  intros HQ. induction l as [|a l IH]; intros i s why E; [done |].
  simpl in E. apply bind_Aborted in E as [E | (s1 & _ & E)]; [by eapply HQ | by eapply IH].
Qed.

Lemma DRAKE_ASSERT_Aborted condition what why :
  DRAKE_ASSERT condition what = Aborted why → kDrakeAssertIsArmed = true ∧ why = what.
Proof.
  unfold DRAKE_ASSERT. destruct kDrakeAssertIsArmed, condition; simpl; try done.
  by intros [= ->].
Qed.

(** Lines 339-344: with one stored Jacobian pair per tracked body, the loop
    returns one acceleration per body, in descriptor order. *)
Lemma output_body_accelerations_eq
    (gJ : DesiredBodyAcceleration R → Matrix R) (gJdv : DesiredBodyAcceleration R → Vector R)
    (motions : list (DesiredBodyAcceleration R)) (body_J : list (Matrix R))
    (body_Jdv : list (Vector R)) (vd_out : Vector R) :
  (∀ i d, motions !! i = Some d → body_J !! i = Some (gJ d) ∧ body_Jdv !! i = Some (gJdv d)) →
  output_body_accelerations motions body_J body_Jdv vd_out
  = Returned ((λ d, {| ba_body := dba_body d;
                       ba_acceleration := vadd (mvmul (gJ d) vd_out) (gJdv d) |}) <$> motions).
Proof.
  intros Hat. unfold output_body_accelerations.
  set (f := λ d, {| ba_body := dba_body d;
                    ba_acceleration := vadd (mvmul (gJ d) vd_out) (gJdv d) |}).
  match goal with |- for_each ?body 0 motions [] = _ =>
    destruct (for_each_inv (λ k acc, acc = f <$> take k motions) body motions [])
      as (acc & E & ->) end.
  - done.
  - intros k d acc Ed ->. destruct (Hat k d Ed) as [-> ->]. simpl.
    eexists. split; [done |]. by rewrite (take_S_r _ _ _ Ed), fmap_app.
  - by rewrite E, firstn_all.
Qed.

(** The formulation step of a cycle that got past the input check, with the
    call that produced it. *)
Lemma Control_formulates_with (rs : HumanoidStatus) (input : QPInput R) (c : QPController R)
    (output : QPOutput R) :
  QPInput_is_valid input (number_of_velocities (robot rs)) = true →
  ready rs input c →
  ∃ c1,
    Formulate rs input
      {| dv_index := 0; dv_size := num_vd_ (topology c1) |}
      {| dv_index := num_vd_ (topology c1); dv_size := num_basis_ (topology c1) |}
      (prepared rs input c) = Returned c1 ∧
    formulated rs input (prepared rs input c) c1 ∧
    structured (prepared rs input c) ∧
    structured c1 ∧
    topology (prepared rs input c)
      = current_topology (robot rs) (contact_info input) (desired_body_accelerations input) ∧
    topology c1 = topology (prepared rs input c) ∧
    Control rs input c output
      = solve_and_decompose rs input
          {| dv_index := 0; dv_size := num_vd_ (topology c1) |}
          {| dv_index := num_vd_ (topology c1); dv_size := num_basis_ (topology c1) |}
          c1 output.
Proof.
  intros Hvalid Hready. unfold Control. rewrite Hvalid. cbn [negb]. cbv zeta.
  assert (Hs : structured (prepared rs input c)).
  { apply SetTempMatricesToZero_structured, ResizeQP_structured, Hready. }
  assert (Ht : topology (prepared rs input c)
               = current_topology (robot rs) (contact_info input)
                   (desired_body_accelerations input)).
  { unfold prepared. simpl. apply ResizeQP_topology. }
  destruct (GetVariable_structured _ Hs) as [-> ->]. cbn [or_abort mbind Run_bind].
  destruct (Formulate_spec rs input _ Hs Ht) as (c1 & E & Hf).
  pose proof (fm_topology _ _ _ _ Hf) as Et.
  exists c1. rewrite Et, E. cbn [mbind Run_bind].
  split; [done |]. split; [done |]. split; [done |].
  split; [by eapply formulated_structured |]. done.
Qed.

(** Where the controller of a cycle that got past the input check comes
    from: the formulated one, with at most the solver's values and the point
    forces written on top. *)
Lemma Control_controller (rs : HumanoidStatus) (input : QPInput R) (c : QPController R)
    (output : QPOutput R) (r : ControlResult R) :
  ready rs input c →
  Control rs input c output = Returned r →
  cerr r ≠ message input_invalid →
  ∃ c1,
    Formulate rs input
      {| dv_index := 0; dv_size := num_vd_ (topology c1) |}
      {| dv_index := num_vd_ (topology c1); dv_size := num_basis_ (topology c1) |}
      (prepared rs input c) = Returned c1 ∧
    formulated rs input (prepared rs input c) c1 ∧
    structured (prepared rs input c) ∧
    structured c1 ∧
    topology (prepared rs input c)
      = current_topology (robot rs) (contact_info input) (desired_body_accelerations input) ∧
    topology c1 = topology (prepared rs input c) ∧
    topology (controller r) = topology c1 ∧
    handles (controller r) = handles c1 ∧
    variables (prog_ (controller r)) = variables (prog_ c1) ∧
    bindings (prog_ (controller r)) = bindings (prog_ c1) ∧
    scratch (controller r)
      = scratch (with_point_forces (point_forces_ (scratch (controller r))) c1).
Proof.
  intros Hready E Hcerr.
  destruct (Control_Returned _ _ _ _ _ E) as [[_ ->] | (Hvalid & _)]; [done |].
  destruct (Control_formulates_with rs input c output Hvalid Hready)
    as (c1 & EF & Hf & Hs0 & Hs & Ht0 & Et & E').
  rewrite E' in E. clear E'. exists c1. do 6 (split; [done |]).
  apply solve_and_decompose_Returned in E
    as [[_ ->] | (_ & result & x & _ & [[_ ->] | [_ E]])].
  - simpl. by destruct c1 as [? ? ? []].
  - simpl. by destruct c1 as [? ? ? []].
  - apply Decompose_Returned in E as (_ & _ & _ & -> & _). done.
Qed.

(** The cycle that got past the solve: Decompose ran on the formulated
    controller holding the solver's values. *)
Lemma Control_decomposes (rs : HumanoidStatus) (input : QPInput R) (c : QPController R)
    (output : QPOutput R) (r : ControlResult R) :
  ready rs input c →
  Control rs input c output = Returned r →
  past_solve r →
  ∃ c1 result x,
    formulated rs input (prepared rs input c) c1 ∧
    structured (prepared rs input c) ∧
    structured c1 ∧
    topology c1
      = current_topology (robot rs) (contact_info input) (desired_body_accelerations input) ∧
    available = true ∧
    Solve (prog_ c1) = (result, x) ∧
    is_kSolutionFound result = true ∧
    Decompose rs input
      {| dv_index := 0; dv_size := num_vd_ (topology c1) |}
      {| dv_index := num_vd_ (topology c1); dv_size := num_basis_ (topology c1) |}
      (with_prog (SetDecisionVariableValues x (prog_ c1)) c1) output = Returned r.
Proof.
  unfold past_solve. intros Hready E Hcerr.
  destruct (Control_Returned _ _ _ _ _ E) as [[_ ->] | (Hvalid & _)].
  { simpl in Hcerr. by destruct Hcerr. }
  destruct (Control_formulates_with rs input c output Hvalid Hready)
    as (c1 & EF & Hf & Hs0 & Hs & Ht0 & Et & E').
  rewrite E' in E. clear E'.
  apply solve_and_decompose_Returned in E
    as [[_ ->] | (Hav & result & x & ES & [[_ ->] | [Hfound E]])].
  - simpl in Hcerr. by destruct Hcerr.
  - simpl in Hcerr. by destruct Hcerr.
  - exists c1, result, x. do 3 (split; [done |]). split; [congruence |]. done.
Qed.

(** What Decompose writes to the output, and how the validity check decides
    the return code. *)
Lemma Decompose_output (rs : HumanoidStatus) (input : QPInput R)
    (vd_view basis_view : DecisionVariableView) (c : QPController R)
    (output : QPOutput R) (r : ControlResult R) :
  Decompose rs input vd_view basis_view c output = Returned r →
  ∃ accelerations,
    output_body_accelerations (desired_body_accelerations input) (body_J_ (scratch c))
      (body_Jdv_ (scratch c)) (value vd_view (prog_ c)) = Returned accelerations ∧
    qp_output r =
      {| vd := value vd_view (prog_ c);
         comdd := vadd (mvmul (J_com rs) (value vd_view (prog_ c))) (Jdot_times_v_com rs);
         joint_torque :=
           vadd (mvmul (torque_linear_ (scratch c)) (GetSolution (prog_ c)))
                (torque_constant_ (scratch c));
         resolved_contacts :=
           resolve_contacts rs (contact_info input) (value basis_view (prog_ c))
             (mvmul (basis_to_force_matrix_ (scratch c)) (value basis_view (prog_ c)));
         body_accelerations := accelerations;
         costs := cost_values (prog_ c) |} ∧
    controller r
      = with_point_forces
          (mvmul (basis_to_force_matrix_ (scratch c)) (value basis_view (prog_ c))) c ∧
    (QPOutput_is_valid (qp_output r) (number_of_velocities (robot rs))
       (length (actuators (robot rs))) = true ∧ ret r = 0%Z ∧ cerr r = message success ∨
     QPOutput_is_valid (qp_output r) (number_of_velocities (robot rs))
       (length (actuators (robot rs))) = false ∧ ret r = (-1)%Z ∧
     cerr r = message output_invalid).
Proof.
  unfold Decompose. intros E.
  apply bind_Returned in E as ([] & _ & E).
  apply bind_Returned in E as ([] & _ & E).
  apply bind_Returned in E as (accelerations & Eacc & E).
  apply bind_Returned in E as (net_wrench & _ & E).
  apply bind_Returned in E as ([] & _ & E).
  exists accelerations. split; [done |].
  destruct (QPOutput_is_valid _ _ _) eqn:Ev; cbn [negb] in E; injection E as <-;
    cbn [qp_output controller ret cerr]; rewrite Ev; auto 10.
Qed.

(** Lines 270-369 are cut short only by one of the three checks, and only
    with assertions armed: the loops over the tracked bodies and over the
    resolved contacts stay within their vectors. *)
Lemma Decompose_Aborted (rs : HumanoidStatus) (input : QPInput R)
    (vd_view basis_view : DecisionVariableView) (c : QPController R)
    (output : QPOutput R) (why : string) :
  num_contact_body_ (topology c) = length (contact_info input) →
  (∀ i d, desired_body_accelerations input !! i = Some d →
     body_J_ (scratch c) !! i
       = Some (GetTaskSpaceJacobian (robot rs) (cache rs) (dba_body d) (vZero 3)) ∧
     body_Jdv_ (scratch c) !! i
       = Some (GetTaskSpaceJacobianDotTimesV (robot rs) (cache rs) (dba_body d) (vZero 3))) →
  Decompose rs input vd_view basis_view c output = Aborted why →
  kDrakeAssertIsArmed = true ∧ post_solve_check why.
Proof.
  intros Hn Hbodies. unfold Decompose. intros E.
  apply bind_Aborted in E as [E | ([] & _ & E)].
  { unfold check_equalities in E.
    eapply (for_each_Aborted (λ w, kDrakeAssertIsArmed = true ∧ post_solve_check w)); [| apply E].
    intros k eq_b [] w Ea. apply DRAKE_ASSERT_Aborted in Ea as [? ->]. split; [done |].
    by left. }
  apply bind_Aborted in E as [E | ([] & _ & E)].
  { unfold check_inequalities in E.
    eapply (for_each_Aborted (λ w, kDrakeAssertIsArmed = true ∧ post_solve_check w)); [| apply E].
    intros k ineq_b [] w Ea. cbv zeta in Ea.
    eapply (for_range_Aborted (λ w, kDrakeAssertIsArmed = true ∧ post_solve_check w)); [| apply Ea].
    intros i [] w' Ei. apply DRAKE_ASSERT_Aborted in Ei as [? ->]. split; [done |].
    right. by left. }
  rewrite (output_body_accelerations_eq
             (λ d, GetTaskSpaceJacobian (robot rs) (cache rs) (dba_body d) (vZero 3))
             (λ d, GetTaskSpaceJacobianDotTimesV (robot rs) (cache rs) (dba_body d) (vZero 3))
             _ _ _ _ Hbodies) in E.
  cbn [mbind Run_bind] in E.
  rewrite net_external_wrench_eq in E by (by rewrite resolve_contacts_length).
  cbn [mbind Run_bind] in E.
  apply bind_Aborted in E as [E | ([] & _ & E)].
  - apply DRAKE_ASSERT_Aborted in E as [? ->]. split; [done |]. right. by right.
  - by destruct (negb _).
Qed.

Lemma solve_and_decompose_Aborted (rs : HumanoidStatus) (input : QPInput R)
    (vd_view basis_view : DecisionVariableView) (c c1 : QPController R)
    (output : QPOutput R) (why : string) :
  formulated rs input c c1 →
  topology c
    = current_topology (robot rs) (contact_info input) (desired_body_accelerations input) →
  solve_and_decompose rs input vd_view basis_view c1 output = Aborted why →
  kDrakeAssertIsArmed = true ∧ available = true ∧ post_solve_check why.
Proof.
  intros Hf Ht. unfold solve_and_decompose.
  destruct available; cbn [negb]; [| done].
  destruct (Solve (prog_ c1)) as [result x].
  destruct (is_kSolutionFound result); cbn [negb]; [| done].
  intros E. apply Decompose_Aborted in E as [? ?]; [done | |].
  - cbn [with_prog topology]. rewrite (fm_topology _ _ _ _ Hf), Ht.
    by rewrite current_topology_eq.
  - intros i d Ed. cbn [with_prog scratch].
    destruct (fm_cost_bodies _ _ _ _ Hf i d Ed) as (? & ? & _). done.
Qed.

(** X1.  With a valid input and a controller that is ready, nothing cuts a
    cycle short before the solve: the assertions on rowIdx and colIdx
    (lines 174, 175 and 202) hold, GetVariable finds both variables, no
    handle is null and no index leaves its vector.  A cycle is cut short
    only by one of the three checks after the solve, and then assertions
    are armed and the solver was available. *)
Theorem Control_cut_short_only_by_checks (rs : HumanoidStatus) (input : QPInput R)
    (c : QPController R) (output : QPOutput R) (why : string) :
  QPInput_is_valid input (number_of_velocities (robot rs)) = true →
  ready rs input c →
  Control rs input c output = Aborted why →
  kDrakeAssertIsArmed = true ∧ available = true ∧ post_solve_check why.
Proof.
  intros Hvalid Hready E.
  destruct (Control_formulates_with rs input c output Hvalid Hready)
    as (c1 & _ & Hf & _ & _ & Ht0 & _ & E').
  rewrite E' in E. by eapply solve_and_decompose_Aborted.
Qed.

(** X2.  In a build where assertions are compiled out, Control returns on
    every controller that is ready, whatever the input and the solver
    are. *)
Theorem Control_returns_without_assertions (rs : HumanoidStatus) (input : QPInput R)
    (c : QPController R) (output : QPOutput R) :
  kDrakeAssertIsArmed = false →
  ready rs input c →
  ∃ r, Control rs input c output = Returned r.
Proof.
  intros Hoff Hready.
  destruct (QPInput_is_valid input (number_of_velocities (robot rs))) eqn:Hvalid.
  - destruct (Control_formulates_with rs input c output Hvalid Hready)
      as (c1 & _ & Hf & _ & _ & Ht0 & _ & E').
    destruct (Control rs input c output) as [r|why] eqn:E; [by exists r |].
    symmetry in E'. eapply solve_and_decompose_Aborted in E' as [Hon _]; [| done | done].
    congruence.
  - unfold Control. rewrite Hvalid. cbn [negb]. by eexists.
Qed.

(** Two blocks written side by side into a matrix of exactly their joint
    width leave nothing of what the matrix held. *)
Lemma side_by_side_whole (h w1 w2 : nat) (X Y dst : Matrix R) :
  mrows dst = h → mcols dst = w1 + w2 →
  mset_block 0 w1 h w2 Y (mset_block 0 0 h w1 X dst) = beside h w1 w2 X Y.
Proof.
  intros Hr Hc. unfold mset_block at 1, beside. cbn [mrows mcols mset_block mbuild].
  rewrite Hr, Hc. apply mbuild_ext. intros i j Hi Hj.
  rewrite (has_window 0 h i) by lia. cbn [andb].
  destruct (j <? w1) eqn:Ej.
  - apply Nat.ltb_lt in Ej. rewrite (out_of_window w1 w2 j) by lia.
    unfold mset_block. rewrite mget_mbuild by lia.
    rewrite !has_window by lia. cbn [andb]. by rewrite !Nat.sub_0_r.
  - apply Nat.ltb_ge in Ej. rewrite (has_window w1 w2 j) by lia.
    by rewrite Nat.sub_0_r.
Qed.

(** X3.  In every cycle that gets past the input check, the dynamics
    equality (the declaration eq_dynamics_ points to) holds dynamics_linear_
    and dynamics_constant_; dynamics_linear_ is the upper six rows of the
    mass matrix beside the negated upper six rows of JB_, with no
    coefficient left from an earlier cycle, and dynamics_constant_ is minus
    the upper six coefficients of the bias term. *)
Theorem Control_dynamics_equality (rs : HumanoidStatus) (input : QPInput R)
    (c : QPController R) (output : QPOutput R) (r : ControlResult R) :
  ready rs input c →
  Control rs input c output = Returned r →
  cerr r ≠ message input_invalid →
  dynamics_equality_refreshed rs r.
Proof.
  unfold dynamics_equality_refreshed. intros Hready E Hcerr.
  destruct (Control_controller _ _ _ _ _ Hready E Hcerr)
    as (c1 & _ & Hf & Hs0 & Hs & _ & Et0 & Et & Eh & _ & Eb & Es).
  cbv zeta. rewrite Eh, Eb, Es, Et.
  cbn [with_point_forces scratch dynamics_linear_ dynamics_constant_ JB_].
  destruct (lookup_lt_is_Some_2 (bindings (prog_ (prepared rs input c))) 0) as [b0 Eb0].
  { rewrite (st_bindings _ Hs0). lia. }
  pose proof (fm_eq_dynamics _ _ _ _ Hf) as Edyn. rewrite Eb0 in Edyn.
  eexists 0, _. split; [| split; [apply Edyn | split; [done | split]]].
  - by rewrite (st_handles _ Hs).
  - rewrite (fm_dynamics_linear _ _ _ _ Hf), Et0.
    destruct (st_dynamics_linear _ Hs0) as [Hrows Hcols].
    rewrite (st_num_variable _ Hs0) in Hcols.
    by apply side_by_side_whole.
  - apply (fm_dynamics_constant _ _ _ _ Hf).
Qed.

Lemma total_points_take_le (l : list (ContactInformation R)) i k :
  i ≤ k → total_points (take i l) ≤ total_points (take k l).
Proof.
  intros Hik. rewrite <- (take_drop i (take k l)), total_points_app.
  rewrite take_take, Nat.min_l by done. lia.
Qed.

Lemma total_points_take_all (l : list (ContactInformation R)) k :
  total_points (take k l) ≤ total_points l.
Proof. rewrite <- (take_drop k l) at 2. rewrite total_points_app. lia. Qed.

Lemma mget_mset_block r0 c0 h w (src dst : Matrix R) i j :
  i < mrows dst → j < mcols dst →
  mget (mset_block r0 c0 h w src dst) i j
  = if in_window r0 h i && in_window c0 w j then mget src (i - r0) (j - c0) else mget dst i j.
Proof. intros Hi Hj. unfold mset_block. by rewrite mget_mbuild. Qed.

Lemma vget_vset_segment start n (src dst : Vector R) i :
  i < length dst →
  vget (vset_segment start n src dst) i
  = if in_window start n i then vget src (i - start) else vget dst i.
Proof. intros Hi. unfold vset_segment. by rewrite vget_vbuild. Qed.

(** Lines 158-172: what the stacking loop leaves in the stacked Jacobian and
    in the stacked Jacobian-dot-times-v, contact by contact.  The rows of
    one contact are not touched by the contacts after it. *)
Lemma stack_contacts_content (rs : HumanoidStatus) (input : QPInput R) (t : Topology)
    (s : Scratch R) rowIdx colIdx (b2f J : Matrix R) (Jdv : Vector R) :
  num_contact_body_ t = length (contact_info input) →
  has_dims (3 * total_points (contact_info input)) (num_vd_ t) (stacked_contact_jacobians_ s) →
  length (stacked_contact_jacobians_dot_times_v_ s) = 3 * total_points (contact_info input) →
  stack_contacts rs input t s = Returned (rowIdx, colIdx, b2f, J, Jdv) →
  ∀ i support, contact_info input !! i = Some support →
    mblock (3 * total_points (take i (contact_info input))) 0 (force_dim_of support)
      (num_vd_ t) J
      = mbuild (force_dim_of support) (num_vd_ t)
          (mget (ComputeJacobianAtContactPoints support (robot rs) (cache rs))) ∧
    vsegment (3 * total_points (take i (contact_info input))) (force_dim_of support) Jdv
      = vbuild (force_dim_of support)
          (vget (ComputeJacobianDotTimesVAtContactPoints support (robot rs) (cache rs))).
Proof.
  intros Hn [Hrows Hcols] Hlen. unfold stack_contacts. rewrite Hn.
  set (l := contact_info input) in *.
  set (P := λ (k : nat) (st : nat * nat * Matrix R * Matrix R * Vector R),
    let '(rowIdx, colIdx, b2f, J, Jdv) := st in
    rowIdx = 3 * total_points (take k l) ∧
    mrows J = 3 * total_points l ∧ mcols J = num_vd_ t ∧
    length Jdv = 3 * total_points l ∧
    ∀ i support, i < k → l !! i = Some support →
      (∀ a b, a < force_dim_of support → b < num_vd_ t →
         mget J (3 * total_points (take i l) + a) b
         = mget (ComputeJacobianAtContactPoints support (robot rs) (cache rs)) a b) ∧
      (∀ a, a < force_dim_of support →
         vget Jdv (3 * total_points (take i l) + a)
         = vget (ComputeJacobianDotTimesVAtContactPoints support (robot rs) (cache rs)) a)).
  match goal with |- context [for_range 0 _ ?body ?init] =>
    destruct (for_range_inv P body 0 (length l) init) as (st & E & HP) end.
  - simpl. do 4 (split; [done |]). intros; lia.
  - intros k [[[[row col] b2f'] J'] Jdv'] Hk (-> & HrJ & HcJ & HlJdv & Hdone).
    destruct (lookup_lt_is_Some_2 l k) as [sk Ek]; [lia |].
    rewrite Ek. simpl. eexists. split; [done |]. simpl.
    rewrite (total_points_take_S _ _ _ Ek). unfold force_dim_of at 1.
    split; [lia |]. split; [done |]. split; [done |].
    split; [by rewrite vset_segment_length |].
    intros i support Hi Ei.
    pose proof (total_points_take_all l (S k)) as Hall.
    rewrite (total_points_take_S _ _ _ Ek) in Hall.
    destruct (decide (i = k)) as [->|Hne].
    + rewrite Ek in Ei. injection Ei as <-. unfold force_dim_of in *. split.
      * intros a b Ha Hb. rewrite mget_mset_block by lia.
        rewrite !has_window by lia. cbn [andb]. f_equal; lia.
      * intros a Ha. rewrite vget_vset_segment by lia.
        rewrite has_window by lia. f_equal; lia.
    + assert (Hik : i < k) by lia.
      destruct (Hdone i support Hik Ei) as [HJi HJdvi].
      pose proof (total_points_take_le l (S i) k ltac:(lia)) as Hle.
      rewrite (total_points_take_S _ _ _ Ei) in Hle.
      unfold force_dim_of in *. split.
      * intros a b Ha Hb. rewrite mget_mset_block by lia.
        rewrite (out_of_window (3 * total_points (take k l))) by lia. cbn [andb].
        by apply HJi.
      * intros a Ha. rewrite vget_vset_segment by lia.
        rewrite out_of_window by lia. by apply HJdvi.
  - intros E' i support Ei. rewrite E in E'. injection E' as ->. simpl in HP.
    destruct HP as (_ & HrJ & HcJ & HlJdv & Hdone).
    assert (Hi : i < length l) by (by apply lookup_lt_Some in Ei).
    destruct (Hdone i support Hi Ei) as [HJi HJdvi]. split.
    + unfold mblock. apply mbuild_ext. intros a b Ha Hb. rewrite Nat.add_0_l. by apply HJi.
    + unfold vsegment. apply vbuild_ext. intros a Ha. by apply HJdvi.
Qed.

(** The stacking loop behind a formulation that returned. *)
Lemma Formulate_stacked (rs : HumanoidStatus) (input : QPInput R)
    (vd_view basis_view : DecisionVariableView) (c c' : QPController R) :
  Formulate rs input vd_view basis_view c = Returned c' →
  ∃ rowIdx colIdx,
    stack_contacts rs input (topology c) (scratch c)
    = Returned (rowIdx, colIdx, basis_to_force_matrix_ (scratch c'),
                stacked_contact_jacobians_ (scratch c'),
                stacked_contact_jacobians_dot_times_v_ (scratch c')).
Proof.
  unfold Formulate. intros E.
  apply bind_Returned in E as ([[[[rowIdx colIdx] b2f] J] Jdv] & E1 & E).
  exists rowIdx, colIdx. rewrite E1.
  repeat match type of E with
  | (_ ≫= _) = Returned _ =>
      let a := fresh "a" in
      apply bind_Returned in E as (a & _ & E);
      repeat match goal with p : (_ * _)%type |- _ => destruct p end
  | (let '(_, _) := ?p in _) = Returned _ => destruct p
  end.
  by injection E as <-.
Qed.

(** X4.  In every cycle that gets past the input check, the contact equality
    of contact i (the declaration eq_contacts_[i] points to) holds the
    Jacobian of that contact at its contact points, read as three rows per
    contact point by num_vd_ columns, and minus its Jacobian-dot-times-v
    term: what was stacked for one contact is read back for that contact,
    whatever the other contacts are. *)
Theorem Control_contact_equalities (rs : HumanoidStatus) (input : QPInput R)
    (c : QPController R) (output : QPOutput R) (r : ControlResult R) :
  ready rs input c →
  Control rs input c output = Returned r →
  cerr r ≠ message input_invalid →
  contact_equalities_refreshed rs input r.
Proof.
  unfold contact_equalities_refreshed. intros Hready E Hcerr i support Ei.
  destruct (Control_controller _ _ _ _ _ Hready E Hcerr)
    as (c1 & EF & Hf & Hs0 & Hs & Ht0 & Et0 & Et & Eh & _ & Eb & _).
  apply Formulate_stacked in EF as (rowIdx & colIdx & ES).
  pose proof Ht0 as Ht0'. rewrite current_topology_eq in Ht0'.
  assert (Hn : num_contact_body_ (topology (prepared rs input c))
               = length (contact_info input)) by (by rewrite Ht0').
  assert (Hp : num_point_force_ (topology (prepared rs input c))
               = total_points (contact_info input)) by (by rewrite Ht0').
  assert (Hi : i < length (contact_info input)) by (by apply lookup_lt_Some in Ei).
  assert (HdJ : has_dims (3 * total_points (contact_info input))
                   (num_vd_ (topology (prepared rs input c)))
                   (stacked_contact_jacobians_ (scratch (prepared rs input c)))).
  { rewrite <- Hp. apply (st_stacked _ Hs0). }
  assert (HlJdv : length (stacked_contact_jacobians_dot_times_v_
                            (scratch (prepared rs input c)))
                  = 3 * total_points (contact_info input)).
  { rewrite <- Hp. apply (st_stacked_dot _ Hs0). }
  destruct (stack_contacts_content _ _ _ _ _ _ _ _ _ Hn HdJ HlJdv ES i support Ei)
    as [EJ EJdv].
  destruct (lookup_lt_is_Some_2 (bindings (prog_ (prepared rs input c))) (1 + i))
    as [b0 Eb0].
  { rewrite (st_bindings _ Hs0). lia. }
  pose proof (fm_eq_contacts _ _ _ _ Hf i support Ei) as Econ.
  rewrite Eb0, EJ, EJdv in Econ.
  exists (1 + i). eexists. rewrite Eh, Eb, Et. split; [| split; [apply Econ |]].
  - rewrite (st_handles _ Hs). cbn [layout eq_contacts_].
    rewrite list_lookup_fmap, Et0, Hn.
    by rewrite (proj2 (lookup_seq 1 (length (contact_info input)) i (1 + i)))
      by (split; [done | lia]).
  - cbn [with_constraint constraint]. by rewrite Et0.
Qed.

(** *** Segments of a vector *)

Lemma vsegment_app (a n m : nat) (v : Vector R) :
  vsegment a n v ++ vsegment (a + n) m v = vsegment a (n + m) v.
Proof.
  unfold vsegment, vbuild. rewrite seq_app, map_app. f_equal.
  replace (seq (0 + n) m) with (Nat.add n <$> seq 0 m)
    by (rewrite fmap_add_seq; f_equal; lia).
  change (map ?f ?l) with (f <$> l). rewrite <- list_fmap_compose.
  apply list_fmap_ext. intros i j _. simpl. f_equal. lia.
Qed.

Lemma vsegment_all (v : Vector R) : vsegment 0 (length v) v = v.
Proof.
  unfold vsegment, vbuild. apply list_eq. intros i.
  change (map ?f ?l) with (f <$> l). rewrite list_lookup_fmap.
  destruct (decide (i < length v)) as [Hi|Hi].
  - rewrite lookup_seq_lt by done. simpl. unfold vget. rewrite nth_lookup.
    destruct (lookup_lt_is_Some_2 v i Hi) as [x ->]. done.
  - rewrite lookup_seq_ge by lia. simpl. symmetry. apply lookup_ge_None_2. lia.
Qed.

Lemma vsegment_vsegment (a n : nat) (v : Vector R) :
  vsegment 0 n (vsegment a n v) = vsegment a n v.
Proof.
  rewrite <- (length_vbuild n (λ i, vget v (a + i))) at 1. apply vsegment_all.
Qed.

(** Lines 328-332: the 3-vectors cut from point_forces_ for one contact,
    put end to end, are the segment the wrench of line 325 is computed
    from. *)
Lemma concat_point_forces (p n : nat) (v : Vector R) :
  concat (map (λ j, vsegment (p + 3 * j) 3 v) (seq 0 n)) = vsegment p (3 * n) v.
Proof.
  induction n as [|n IH].
  - done.
  - rewrite seq_S, map_app, concat_app, IH.
    change (concat (map (λ j, vsegment (p + 3 * j) 3 v) [0 + n]))
      with (vsegment (p + 3 * (0 + n)) 3 v ++ []).
    rewrite app_nil_r, Nat.add_0_l, vsegment_app. f_equal. lia.
Qed.

(** *** The resolved contacts, lines 308-333 *)

Lemma resolve_contacts_like (rs : HumanoidStatus) (l : list (ContactInformation R))
    (basis_value point_forces : Vector R) :
  Forall2 (resolved_like rs) l (resolve_contacts rs l basis_value point_forces).
Proof.
  unfold resolve_contacts.
  match goal with |- context [fold_left ?f l _] => set (step := f) end.
  assert (G : ∀ l done st,
    Forall2 (resolved_like rs) done (snd st) →
    Forall2 (resolved_like rs) (done ++ l) (snd (fold_left step l st))).
  { clear l. induction l as [|a l IH]; intros done [[bi pi] acc] Hacc; simpl.
    - by rewrite app_nil_r.
    - rewrite (cons_middle a done l), app_assoc. apply IH.
      destruct (ComputeContactPointsAndWrenchReferencePoint a (robot rs) (cache rs) (vZero 3))
        as [cp rp] eqn:Ecp. simpl.
      apply Forall2_app; [done |]. constructor; [| constructor].
      unfold resolved_like. simpl.
      split; [done |]. split; [apply length_vbuild |].
      split; [by rewrite length_map, length_seq |].
      split; [| split; [done |]].
      + apply List.Forall_forall. intros f Hf. apply in_map_iff in Hf as (j & <- & _).
        apply length_vbuild.
      + by rewrite concat_point_forces. }
  apply (G l [] (0, 0, [])). constructor.
Qed.

Lemma resolve_contacts_basis (rs : HumanoidStatus) (l : list (ContactInformation R))
    (basis_value point_forces : Vector R) :
  concat (rc_basis <$> resolve_contacts rs l basis_value point_forces)
  = vsegment 0 (total_basis l) basis_value.
Proof.
  unfold resolve_contacts.
  match goal with |- context [fold_left ?f l _] => set (step := f) end.
  assert (G : ∀ l bi pi acc,
    concat (rc_basis <$> snd (fold_left step l (bi, pi, acc)))
    = concat (rc_basis <$> acc) ++ vsegment bi (total_basis l) basis_value).
  { clear l. induction l as [|a l IH]; intros bi pi acc; simpl.
    - by rewrite app_nil_r.
    - destruct (ComputeContactPointsAndWrenchReferencePoint a (robot rs) (cache rs) (vZero 3))
        as [cp rp]. rewrite IH. rewrite fmap_app, concat_app. simpl.
      rewrite app_nil_r, <- app_assoc. f_equal. apply vsegment_app. }
  by rewrite G.
Qed.

Lemma resolve_contacts_point_forces (rs : HumanoidStatus) (l : list (ContactInformation R))
    (basis_value point_forces : Vector R) :
  concat (concat (rc_point_forces <$> resolve_contacts rs l basis_value point_forces))
  = vsegment 0 (3 * total_points l) point_forces.
Proof.
  unfold resolve_contacts.
  match goal with |- context [fold_left ?f l _] => set (step := f) end.
  assert (G : ∀ l bi pi acc,
    concat (concat (rc_point_forces <$> snd (fold_left step l (bi, pi, acc))))
    = concat (concat (rc_point_forces <$> acc))
      ++ vsegment pi (3 * total_points l) point_forces).
  { clear l. induction l as [|a l IH]; intros bi pi acc; simpl.
    - by rewrite Nat.mul_0_r, app_nil_r.
    - destruct (ComputeContactPointsAndWrenchReferencePoint a (robot rs) (cache rs) (vZero 3))
        as [cp rp]. rewrite IH. rewrite fmap_app, !concat_app. simpl.
      rewrite !app_nil_r, <- app_assoc. f_equal.
      unfold ci_num_contact_points. rewrite concat_point_forces, vsegment_app.
      f_equal. lia. }
  by rewrite G.
Qed.

(** X5.  In every cycle that got past the solve, the output holds one
    resolved contact per contact descriptor, in descriptor order; each has
    the descriptor's body, as many basis coefficients as the descriptor has
    basis vectors, one 3-vector per contact point, the contact points and
    the reference point the descriptor computes, and as equivalent wrench
    the descriptor's wrench matrix applied to that contact's own point
    forces. *)
Theorem Control_resolved_contacts (rs : HumanoidStatus) (input : QPInput R)
    (c : QPController R) (output : QPOutput R) (r : ControlResult R) :
  Control rs input c output = Returned r →
  past_solve r →
  Forall2 (resolved_like rs) (contact_info input) (resolved_contacts (qp_output r)).
Proof.
  intros E Hcerr.
  destruct (Control_past_solve _ _ _ _ _ E Hcerr) as (vdv & bv & c2 & ED & _).
  apply Decompose_Returned in ED as (_ & _ & _ & _ & _ & -> & _).
  apply resolve_contacts_like.
Qed.

(** X6.  In every cycle that got past the solve, the solver's vector is
    split over the output without loss: when it has num_variable_
    coefficients, it is the output acceleration followed by the basis
    coefficients of the resolved contacts, in descriptor order. *)
Theorem Control_solution_layout (rs : HumanoidStatus) (input : QPInput R)
    (c : QPController R) (output : QPOutput R) (r : ControlResult R) :
  ready rs input c →
  Control rs input c output = Returned r →
  past_solve r →
  length (GetSolution (prog_ (controller r))) = num_variable_ (topology (controller r)) →
  GetSolution (prog_ (controller r))
  = vd (qp_output r) ++ concat (rc_basis <$> resolved_contacts (qp_output r)).
Proof.
  intros Hready E Hcerr.
  destruct (Control_decomposes _ _ _ _ _ Hready E Hcerr)
    as (c1 & result & x & _ & _ & Hs & Ht & _ & _ & _ & ED).
  apply Decompose_Returned in ED as (_ & _ & _ & -> & -> & -> & _).
  cbn [with_point_forces with_prog prog_ topology GetSolution SetDecisionVariableValues
    x_values]. intros Hlen.
  rewrite resolve_contacts_basis. unfold value.
  cbn [dv_index dv_size with_prog prog_ SetDecisionVariableValues x_values].
  pose proof Ht as Ht'. rewrite current_topology_eq in Ht'.
  replace (total_basis (contact_info input)) with (num_basis_ (topology c1))
    by (by rewrite Ht').
  rewrite vsegment_vsegment.
  rewrite <- (Nat.add_0_l (num_vd_ (topology c1))) at 2.
  rewrite vsegment_app, <- (st_num_variable _ Hs), <- Hlen. symmetry. apply vsegment_all.
Qed.

(** X7.  In every cycle that got past the solve, point_forces_ is
    basis_to_force_matrix_ applied to the basis coefficients the resolved
    contacts hold, and the point forces of the resolved contacts, put end to
    end in descriptor order, are point_forces_: every coefficient goes to
    exactly one contact point. *)
Theorem Control_point_forces (rs : HumanoidStatus) (input : QPInput R)
    (c : QPController R) (output : QPOutput R) (r : ControlResult R) :
  ready rs input c →
  Control rs input c output = Returned r →
  past_solve r →
  point_forces_ (scratch (controller r))
    = mvmul (basis_to_force_matrix_ (scratch (controller r)))
            (concat (rc_basis <$> resolved_contacts (qp_output r))) ∧
  concat (concat (rc_point_forces <$> resolved_contacts (qp_output r)))
    = point_forces_ (scratch (controller r)).
Proof.
  intros Hready E Hcerr.
  destruct (Control_decomposes _ _ _ _ _ Hready E Hcerr)
    as (c1 & result & x & _ & _ & Hs & Ht & _ & _ & _ & ED).
  apply Decompose_Returned in ED as (_ & _ & _ & -> & _ & -> & _).
  cbn [with_point_forces with_prog prog_ scratch point_forces_ basis_to_force_matrix_].
  pose proof Ht as Ht'. rewrite current_topology_eq in Ht'.
  rewrite resolve_contacts_basis, resolve_contacts_point_forces. split.
  - f_equal. unfold value. cbn [dv_index dv_size].
    replace (total_basis (contact_info input)) with (num_basis_ (topology c1))
      by (by rewrite Ht').
    by rewrite vsegment_vsegment.
  - replace (3 * total_points (contact_info input))
      with (length (mvmul (basis_to_force_matrix_ (scratch c1))
                      (value {| dv_index := num_vd_ (topology c1);
                                dv_size := num_basis_ (topology c1) |}
                         (SetDecisionVariableValues x (prog_ c1))))).
    + apply vsegment_all.
    + unfold mvmul. rewrite length_vbuild.
      rewrite (proj1 (st_basis_to_force _ Hs)). by rewrite Ht'.
Qed.

(** X8.  In every cycle that got past the solve, the output holds one body
    acceleration per tracked body motion, in descriptor order: the body's
    task-space Jacobian at this cycle's state times the output acceleration,
    plus its Jacobian-dot-times-v term.  The Jacobians read back from body_J_
    and body_Jdv_ are the ones this cycle stored. *)
Theorem Control_body_accelerations (rs : HumanoidStatus) (input : QPInput R)
    (c : QPController R) (output : QPOutput R) (r : ControlResult R) :
  ready rs input c →
  Control rs input c output = Returned r →
  past_solve r →
  body_accelerations (qp_output r)
  = body_acceleration_of rs (vd (qp_output r)) <$> desired_body_accelerations input.
Proof.
  intros Hready E Hcerr.
  destruct (Control_decomposes _ _ _ _ _ Hready E Hcerr)
    as (c1 & result & x & Hf & _ & Hs & Ht & _ & _ & _ & ED).
  apply Decompose_output in ED as (accelerations & Eacc & -> & _).
  cbn [body_accelerations vd with_prog scratch] in *.
  rewrite (output_body_accelerations_eq
             (λ d, GetTaskSpaceJacobian (robot rs) (cache rs) (dba_body d) (vZero 3))
             (λ d, GetTaskSpaceJacobianDotTimesV (robot rs) (cache rs) (dba_body d) (vZero 3)))
    in Eacc.
  - by injection Eacc as <-.
  - intros i d Ed. destruct (fm_cost_bodies _ _ _ _ Hf i d Ed) as (? & ? & _). done.
Qed.

(** X9.  A cycle that got past the solve returns 0 exactly when the output
    it wrote passes QPOutput::is_valid.  The output is written before that
    check: also when Control returns -1 with "output is invalid", the
    caller's output holds this cycle's accelerations, torques, contacts and
    costs, not what it held before. *)
Theorem Control_output_written (rs : HumanoidStatus) (input : QPInput R)
    (c : QPController R) (output : QPOutput R) (r : ControlResult R) :
  ready rs input c →
  Control rs input c output = Returned r →
  past_solve r →
  (ret r = 0%Z ↔
   QPOutput_is_valid (qp_output r) (number_of_velocities (robot rs))
     (length (actuators (robot rs))) = true) ∧
  output_written rs input r.
Proof.
  intros Hready E Hcerr.
  destruct (Control_decomposes _ _ _ _ _ Hready E Hcerr)
    as (c1 & result & x & Hf & _ & Hs & Ht & _ & _ & _ & ED).
  apply Decompose_output in ED as (accelerations & Eacc & Eout & Ec & Hvalid).
  split.
  - destruct Hvalid as [(-> & -> & _) | (-> & -> & _)]; done.
  - unfold output_written. rewrite Eout, Ec.
    cbn [vd comdd joint_torque resolved_contacts body_accelerations costs
      with_point_forces with_prog prog_ topology scratch torque_linear_ torque_constant_].
    do 3 (split; [done |]). split; [apply resolve_contacts_length |]. split; [| done].
    cbn [with_prog scratch] in Eacc.
    rewrite (output_body_accelerations_eq
               (λ d, GetTaskSpaceJacobian (robot rs) (cache rs) (dba_body d) (vZero 3))
               (λ d, GetTaskSpaceJacobianDotTimesV (robot rs) (cache rs) (dba_body d)
                       (vZero 3))) in Eacc.
    + injection Eacc as <-. by rewrite length_fmap.
    + intros i d Ed. destruct (fm_cost_bodies _ _ _ _ Hf i d Ed) as (? & ? & _). done.
Qed.

(** *** What a cycle leaves as ResizeQP declared it *)

Lemma is_quadratic_cost_kind (b : Binding R) :
  is_quadratic_cost b = match kind_of b with cost => true | _ => false end.
Proof. unfold is_quadratic_cost, kind_of. by destruct (constraint b). Qed.

(** The formulation step rewrites every declaration but the basis
    inequality, each with a constraint of the kind its place in the layout
    asks for. *)
Lemma formulated_lookup (rs : HumanoidStatus) (input : QPInput R) (c c' : QPController R) j :
  structured c →
  topology c
    = current_topology (robot rs) (contact_info input) (desired_body_accelerations input) →
  formulated rs input c c' →
  j < 6 + num_contact_body_ (topology c) + num_body_acceleration_ (topology c) →
  j ≠ 1 + num_contact_body_ (topology c) →
  ∃ X, bindings (prog_ c') !! j = with_constraint X <$> bindings (prog_ c) !! j ∧
       ∀ b, kind_of (with_constraint X b)
            = if j <? 1 + num_contact_body_ (topology c) then equality
              else if j <? 3 + num_contact_body_ (topology c) then inequality
              else cost.
Proof.
  intros Hs Ht Hf Hj Hne. rewrite current_topology_eq in Ht.
  assert (Hn : num_contact_body_ (topology c) = length (contact_info input))
    by (by rewrite Ht).
  assert (Hm : num_body_acceleration_ (topology c) = length (desired_body_accelerations input))
    by (by rewrite Ht).
  set (n := num_contact_body_ (topology c)) in *.
  set (m := num_body_acceleration_ (topology c)) in *.
  destruct (decide (j = 0)) as [->|Hj0].
  { eexists. split; [apply (fm_eq_dynamics _ _ _ _ Hf) |]. intros b. done. }
  destruct (decide (j < 1 + n)) as [Hj1|Hj1].
  { destruct (lookup_lt_is_Some_2 (contact_info input) (j - 1)) as [s Es]; [lia |].
    pose proof (fm_eq_contacts _ _ _ _ Hf (j - 1) s Es) as E.
    replace (1 + (j - 1)) with j in E by lia.
    eexists. split; [apply E |]. intros b.
    rewrite (proj2 (Nat.ltb_lt _ _) Hj1). done. }
  rewrite (proj2 (Nat.ltb_ge _ _)) by lia.
  destruct (decide (j = 2 + n)) as [->|Hj2].
  { eexists. split; [apply (fm_ineq_torque_limit _ _ _ _ Hf) |]. intros b.
    rewrite (proj2 (Nat.ltb_lt _ _)) by lia. done. }
  rewrite (proj2 (Nat.ltb_ge _ _)) by lia.
  destruct (decide (j = 3 + n)) as [->|Hj3].
  { eexists. split; [apply (fm_cost_comdd _ _ _ _ Hf) |]. done. }
  destruct (decide (j < 4 + n + m)) as [Hj4|Hj4].
  { destruct (lookup_lt_is_Some_2 (desired_body_accelerations input) (j - (4 + n)))
      as [d Ed]; [lia |].
    destruct (fm_cost_bodies _ _ _ _ Hf (j - (4 + n)) d Ed) as (_ & _ & E).
    fold n in E. replace (4 + n + (j - (4 + n))) with j in E by lia.
    eexists. split; [apply E |]. done. }
  destruct (decide (j = 4 + n + m)) as [->|Hj5].
  { eexists. split; [apply (fm_cost_vd_reg _ _ _ _ Hf) |]. done. }
  replace j with (5 + n + m) by lia.
  eexists. split; [apply (fm_cost_basis_reg _ _ _ _ Hf) |]. done.
Qed.

Lemma formulated_descriptions (rs : HumanoidStatus) (input : QPInput R)
    (c c' : QPController R) :
  structured c →
  topology c
    = current_topology (robot rs) (contact_info input) (desired_body_accelerations input) →
  formulated rs input c c' →
  description <$> bindings (prog_ c') = description <$> bindings (prog_ c) ∧
  variable_list <$> bindings (prog_ c') = variable_list <$> bindings (prog_ c).
Proof.
  intros Hs Ht Hf.
  assert (G : ∀ j, description <$> bindings (prog_ c') !! j
                     = description <$> bindings (prog_ c) !! j ∧
                   variable_list <$> bindings (prog_ c') !! j
                     = variable_list <$> bindings (prog_ c) !! j).
  { intros j.
    destruct (decide (j = 1 + num_contact_body_ (topology c))) as [->|Hne].
    { by rewrite (fm_ineq_contact_wrench _ _ _ _ Hf). }
    destruct (decide (j < 6 + num_contact_body_ (topology c)
                           + num_body_acceleration_ (topology c))) as [Hj|Hj].
    - destruct (formulated_lookup _ _ _ _ j Hs Ht Hf Hj Hne) as (X & -> & _).
      by destruct (bindings (prog_ c) !! j).
    - rewrite !lookup_ge_None_2; [done | |].
      + rewrite (st_bindings _ Hs). lia.
      + rewrite (fm_length _ _ _ _ Hf), (st_bindings _ Hs). lia. }
  split; apply list_eq; intros j; rewrite !list_lookup_fmap; apply G.
Qed.

(** X10.  Control never rewrites the basis inequality 0 <= basis <= 1000
    (lines 205-207): after a cycle that reused the structure the declaration
    ineq_contact_wrench_ points to is the one the controller held before the
    cycle, and after a cycle that rebuilt it is the identity matrix with the
    bounds 0 and 1000 on the basis variables, as ResizeQP declared it. *)
Theorem Control_keeps_basis_inequality (rs : HumanoidStatus) (input : QPInput R)
    (c : QPController R) (output : QPOutput R) (r : ControlResult R) :
  ready rs input c →
  Control rs input c output = Returned r →
  cerr r ≠ message input_invalid →
  let now := current_topology (robot rs) (contact_info input)
               (desired_body_accelerations input) in
  ∃ i,
    ineq_contact_wrench_ (handles (controller r)) = Some i ∧
    (topology c = now → bindings (prog_ (controller r)) !! i = bindings (prog_ c) !! i) ∧
    (topology c ≠ now → bindings (prog_ (controller r)) !! i = Some (basis_inequality now)).
Proof.
  intros Hready E Hcerr now.
  destruct (Control_controller _ _ _ _ _ Hready E Hcerr)
    as (c1 & _ & Hf & Hs0 & Hs & Ht0 & Et0 & Et & Eh & _ & Eb & _).
  exists (1 + num_contact_body_ (topology c1)). rewrite Eh, Eb, Et0.
  rewrite (fm_ineq_contact_wrench _ _ _ _ Hf).
  split; [by rewrite (st_handles _ Hs), Et0 |].
  unfold prepared. cbn [SetTempMatricesToZero prog_ topology]. split.
  - intros Esame. by rewrite ResizeQP_same.
  - intros Hne. rewrite ResizeQP_changed by done. fold now.
    assert (Hn : num_contact_body_ now = length (contact_info input)).
    { unfold now. by rewrite current_topology_eq. }
    destruct (rebuild_components now (contact_info input) (desired_body_accelerations input)
                c Hn) as (-> & _ & -> & _).
    rewrite Hn. cbn [Nat.add]. rewrite lookup_cons_ne_0 by done. cbn [Nat.pred].
    rewrite lookup_app_r by (by rewrite length_fmap).
    rewrite length_fmap, Nat.sub_diag. done.
Qed.

(** X11.  A cycle that reuses the structure keeps the description and the
    variables of every declaration as they were: the labels are those of the
    last rebuild, whatever names the contact and body descriptors of this
    cycle carry. *)
Theorem Control_keeps_descriptions (rs : HumanoidStatus) (input : QPInput R)
    (c : QPController R) (output : QPOutput R) (r : ControlResult R) :
  structured c →
  topology c
    = current_topology (robot rs) (contact_info input) (desired_body_accelerations input) →
  Control rs input c output = Returned r →
  description <$> bindings (prog_ (controller r)) = description <$> bindings (prog_ c) ∧
  variable_list <$> bindings (prog_ (controller r)) = variable_list <$> bindings (prog_ c).
Proof.
  intros Hc Ht E.
  destruct (Control_Returned _ _ _ _ _ E) as [[_ ->] | (Hvalid & _)]; [done |].
  assert (Hcerr : cerr r ≠ message input_invalid).
  { apply Control_Returned in E as [[Hinv _] | (_ & vdv & bv & c1 & _ & E)]; [congruence |].
    apply solve_and_decompose_Returned in E
      as [[_ ->] | (_ & result & x & _ & [[_ ->] | [_ E]])]; [done | done |].
    apply Decompose_Returned in E as (_ & _ & _ & _ & _ & _ & _ & [[_ ->] | [_ ->]]); done. }
  destruct (Control_controller _ _ _ _ _ (or_introl Hc) E Hcerr)
    as (c1 & _ & Hf & Hs0 & Hs & Ht0 & _ & _ & _ & _ & -> & _).
  destruct (formulated_descriptions _ _ _ _ Hs0 Ht0 Hf) as [-> ->].
  unfold prepared. cbn [SetTempMatricesToZero prog_]. by rewrite ResizeQP_same.
Qed.

Lemma filter_from {A} (P : A → bool) (l : list A) :
  ∀ k, (∀ j a, l !! j = Some a → P a = (k <=? j)) → List.filter P l = drop k l.
Proof.
  induction l as [|a l IH]; intros k HP; [by destruct k |].
  simpl. rewrite (HP 0 a) by done. destruct k as [|k]; simpl.
  - f_equal. rewrite (IH 0); [done |]. intros j a' Ej. by rewrite (HP (S j) a' Ej).
  - apply IH. intros j a' Ej. by rewrite (HP (S j) a' Ej).
Qed.

(** After a formulation that started from a rebuilt controller, the kinds
    and descriptions are the ones ResizeQP declared, and the costs are the
    declarations from position 3 + num_contact_body_ on. *)
Lemma formulated_after_rebuild (rs : HumanoidStatus) (input : QPInput R)
    (c : QPController R) (c1 : QPController R) :
  topology c ≠ current_topology (robot rs) (contact_info input)
                 (desired_body_accelerations input) →
  formulated rs input (prepared rs input c) c1 →
  declaration <$> bindings (prog_ c1)
    = declared (contact_info input) (desired_body_accelerations input) ∧
  quadratic_costs (prog_ c1) = drop (3 + length (contact_info input)) (bindings (prog_ c1)).
Proof.
  intros Hne Hf.
  set (now := current_topology (robot rs) (contact_info input)
                (desired_body_accelerations input)) in *.
  assert (Hs0 : structured (prepared rs input c)).
  { apply SetTempMatricesToZero_structured, ResizeQP_structured. by right. }
  assert (Ht0 : topology (prepared rs input c) = now) by apply ResizeQP_topology.
  assert (Hn : num_contact_body_ now = length (contact_info input)).
  { unfold now. by rewrite current_topology_eq. }
  assert (Hm : num_body_acceleration_ now = length (desired_body_accelerations input)).
  { unfold now. by rewrite current_topology_eq. }
  destruct (rebuild_components now (contact_info input) (desired_body_accelerations input)
              c Hn) as (_ & _ & Eb0 & _).
  cbv zeta in Eb0.
  assert (Eprep : bindings (prog_ (prepared rs input c))
                  = bindings (prog_ (rebuild now (contact_info input)
                                       (desired_body_accelerations input) c))).
  { unfold prepared. cbn [SetTempMatricesToZero prog_]. by rewrite ResizeQP_changed. }
  assert (Hkinds : ∀ j b, bindings (prog_ c1) !! j = Some b →
            kind_of b = if j <? 1 + length (contact_info input) then equality
                        else if j <? 3 + length (contact_info input) then inequality
                        else cost).
  { intros j b Ej. assert (Hj := lookup_lt_Some _ _ _ Ej).
    rewrite (fm_length _ _ _ _ Hf), (st_bindings _ Hs0), Ht0 in Hj.
    destruct (decide (j = 1 + length (contact_info input))) as [->|Hj1].
    - rewrite <- Hn, <- Ht0 in Ej. rewrite (fm_ineq_contact_wrench _ _ _ _ Hf) in Ej.
      rewrite Ht0, Hn, Eprep, Eb0 in Ej.
      cbn [Nat.add] in Ej. rewrite lookup_cons_ne_0 in Ej by done. cbn [Nat.pred] in Ej.
      rewrite lookup_app_r in Ej by (by rewrite length_fmap).
      rewrite length_fmap, Nat.sub_diag in Ej. injection Ej as <-.
      rewrite (proj2 (Nat.ltb_ge _ _)) by lia. rewrite (proj2 (Nat.ltb_lt _ _)) by lia.
      done.
    - destruct (formulated_lookup _ _ _ _ j Hs0 Ht0 Hf) as (X & EX & HX).
      { rewrite Ht0. lia. } { rewrite Ht0, Hn. lia. }
      rewrite EX in Ej. destruct (bindings (prog_ (prepared rs input c)) !! j) as [b0|];
        [| done].
      injection Ej as <-. rewrite HX, Ht0, Hn. done. }
  split.
  - destruct (formulated_descriptions _ _ _ _ Hs0 Ht0 Hf) as [Ed _].
    assert (Edecl : declaration <$> bindings (prog_ (prepared rs input c))
                    = declared (contact_info input) (desired_body_accelerations input)).
    { rewrite Eprep, Eb0. unfold declared.
      rewrite fmap_cons, !fmap_app, <- !list_fmap_compose. done. }
    rewrite <- Edecl. apply list_eq. intros j. rewrite !list_lookup_fmap.
    assert (Edj := f_equal (λ l, l !! j) Ed). cbv beta in Edj.
    rewrite !list_lookup_fmap in Edj.
    assert (Edeclj := f_equal (λ l, l !! j) Edecl). cbv beta in Edeclj.
    rewrite list_lookup_fmap in Edeclj.
    destruct (bindings (prog_ c1) !! j) as [b|] eqn:Ej;
      destruct (bindings (prog_ (prepared rs input c)) !! j) as [b0|] eqn:Ej0;
      try done.
    simpl in *. injection Edj as Edj. f_equal. unfold declaration. rewrite Edj. f_equal.
    rewrite (Hkinds j b Ej).
    assert (Hk0 : (declared (contact_info input) (desired_body_accelerations input)) !! j
                  = Some (kind_of b0, description b0)) by done.
    clear -Hk0. unfold declared in Hk0.
    destruct j as [|j]; [by injection Hk0 as <- |].
    cbn [app] in Hk0. rewrite lookup_cons_ne_0 in Hk0 by done. cbn [Nat.pred] in Hk0.
    destruct (decide (j < length (contact_info input))) as [Hj|Hj].
    + rewrite lookup_app_l in Hk0 by (by rewrite length_fmap).
      rewrite list_lookup_fmap in Hk0.
      destruct (contact_info input !! j); [| done]. injection Hk0 as <- _.
      by rewrite (proj2 (Nat.ltb_lt _ _)) by lia.
    + rewrite lookup_app_r in Hk0 by (rewrite length_fmap; lia).
      rewrite length_fmap in Hk0.
      rewrite (proj2 (Nat.ltb_ge _ _)) by lia.
      destruct (j - length (contact_info input)) as [|[|[|k]]] eqn:Ek.
      * injection Hk0 as <- _. by rewrite (proj2 (Nat.ltb_lt _ _)) by lia.
      * injection Hk0 as <- _. by rewrite (proj2 (Nat.ltb_lt _ _)) by lia.
      * injection Hk0 as <- _. by rewrite (proj2 (Nat.ltb_ge _ _)) by lia.
      * rewrite (proj2 (Nat.ltb_ge _ _)) by lia.
        rewrite !lookup_cons_ne_0 in Hk0 by done. cbn [Nat.pred] in Hk0.
        destruct (decide (k < length (desired_body_accelerations input))) as [Hk|Hk].
        -- rewrite lookup_app_l in Hk0 by (by rewrite length_fmap).
           rewrite list_lookup_fmap in Hk0.
           destruct (desired_body_accelerations input !! k); [| done].
           by injection Hk0 as <- _.
        -- rewrite lookup_app_r in Hk0 by (rewrite length_fmap; lia).
           destruct (k - length ((λ a, (cost, dba_name a +:+ " cost"))
                                   <$> desired_body_accelerations input)) as [|[|?]];
             [by injection Hk0 as <- _ | by injection Hk0 as <- _ | done].
  - unfold quadratic_costs. apply filter_from. intros j b Ej.
    rewrite is_quadratic_cost_kind, (Hkinds j b Ej).
    destruct (decide (j < 1 + length (contact_info input))).
    { rewrite (proj2 (Nat.ltb_lt _ _)) by lia. symmetry. apply Nat.leb_gt. lia. }
    rewrite (proj2 (Nat.ltb_ge _ _)) by lia.
    destruct (decide (j < 3 + length (contact_info input))).
    { rewrite (proj2 (Nat.ltb_lt _ _)) by lia. symmetry. apply Nat.leb_gt. lia. }
    rewrite (proj2 (Nat.ltb_ge _ _)) by lia. symmetry. apply Nat.leb_le. lia.
Qed.

(** X12.  The kinds and descriptions ResizeQP gave to the declarations
    survive the cycle that rebuilt: when Control returns, the registry still
    lists the dynamics equality, the contact equalities, the two
    inequalities and the costs in the declared order, each under the name
    of this cycle's descriptor. *)
Theorem Control_keeps_declarations (rs : HumanoidStatus) (input : QPInput R)
    (c : QPController R) (output : QPOutput R) (r : ControlResult R) :
  topology c ≠ current_topology (robot rs) (contact_info input)
                 (desired_body_accelerations input) →
  Control rs input c output = Returned r →
  cerr r ≠ message input_invalid →
  declaration <$> bindings (prog_ (controller r))
  = declared (contact_info input) (desired_body_accelerations input).
Proof.
  intros Hne E Hcerr.
  destruct (Control_controller _ _ _ _ _ (or_intror Hne) E Hcerr)
    as (c1 & _ & Hf & _ & _ & _ & _ & _ & _ & _ & -> & _).
  by apply (formulated_after_rebuild rs input c c1).
Qed.

(** X13.  In a cycle that rebuilt and got past the solve, the output's cost
    list has one entry per quadratic cost, labelled in declaration order:
    "com cost", one "<name> cost" per tracked body motion in descriptor
    order, "vd reg cost", "basis reg cost". *)
Theorem Control_cost_labels (rs : HumanoidStatus) (input : QPInput R)
    (c : QPController R) (output : QPOutput R) (r : ControlResult R) :
  topology c ≠ current_topology (robot rs) (contact_info input)
                 (desired_body_accelerations input) →
  Control rs input c output = Returned r →
  past_solve r →
  fst <$> costs (qp_output r)
  = [ "com cost" ] ++
    ((λ a, dba_name a +:+ " cost") <$> desired_body_accelerations input) ++
    [ "vd reg cost"; "basis reg cost" ].
Proof.
  intros Hne E Hcerr.
  destruct (Control_decomposes _ _ _ _ _ (or_intror Hne) E Hcerr)
    as (c1 & result & x & Hf & _ & _ & _ & _ & _ & _ & ED).
  apply Decompose_output in ED as (accelerations & _ & -> & _).
  cbn [costs]. unfold cost_values.
  change (map ?f ?l) with (f <$> l). rewrite <- list_fmap_compose.
  change (quadratic_costs (with_prog (SetDecisionVariableValues x (prog_ c1)) c1).(prog_))
    with (quadratic_costs (prog_ c1)).
  destruct (formulated_after_rebuild rs input c c1 Hne Hf) as [Edecl ->].
  transitivity (snd <$> drop (3 + length (contact_info input))
                         (declaration <$> bindings (prog_ c1))).
  { rewrite <- fmap_drop, <- list_fmap_compose. done. }
  rewrite Edecl. unfold declared. cbn [app Nat.add drop].
  rewrite drop_app_ge by (rewrite length_fmap; lia). rewrite length_fmap.
  replace (S (S (length (contact_info input))) - length (contact_info input)) with 2 by lia.
  cbn [drop]. rewrite fmap_cons, fmap_app, <- list_fmap_compose. done.
Qed.

(** X14.  Once ResizeQP has run, a second call with descriptors that give
    the same seven counts changes nothing, also when the descriptors
    themselves (names, bodies, contact points) are different ones: the
    problem is declared once for a run of cycles with the same counts, and it
    keeps the layout and the labels of the first of them. *)
Theorem ResizeQP_settles (robot : RigidBodyTree R)
    (all_supports later_supports : list (ContactInformation R))
    (all_body_accelerations later_body_accelerations : list (DesiredBodyAcceleration R))
    (c : QPController R) :
  current_topology robot later_supports later_body_accelerations
    = current_topology robot all_supports all_body_accelerations →
  ResizeQP robot later_supports later_body_accelerations
    (ResizeQP robot all_supports all_body_accelerations c)
  = ResizeQP robot all_supports all_body_accelerations c.
Proof.
  intros Esame. apply ResizeQP_same. rewrite Esame. apply ResizeQP_topology.
Qed.

(** X15.  Every cycle that gets past the input check leaves the controller
    structured for the counts of that cycle, whether it succeeded or failed:
    the controller is then ready for any request that follows. *)
Theorem Control_leaves_structured (rs : HumanoidStatus) (input : QPInput R)
    (c : QPController R) (output : QPOutput R) (r : ControlResult R) :
  ready rs input c →
  Control rs input c output = Returned r →
  cerr r ≠ message input_invalid →
  structured (controller r) ∧
  topology (controller r)
    = current_topology (robot rs) (contact_info input) (desired_body_accelerations input).
Proof.
  intros Hready E Hcerr.
  destruct (Control_Returned _ _ _ _ _ E) as [[_ ->] | (Hvalid & _)]; [done |].
  destruct (Control_formulates_with rs input c output Hvalid Hready)
    as (c1 & _ & _ & _ & Hs & Ht0 & Et0 & E').
  rewrite E' in E. clear E'. rewrite <- Ht0, <- Et0.
  apply solve_and_decompose_Returned in E
    as [[_ ->] | (_ & result & x & _ & [[_ ->] | [_ E]])].
  - done.
  - split; [| done]. destruct Hs. by constructor.
  - apply Decompose_Returned in E as (_ & _ & _ & -> & _).
    split; [| done]. destruct Hs. by constructor.
Qed.

(** X16.  ResizeQP compares counts, not structure: a controller whose
    program has no variables but whose stored counts are already those of
    the cycle is not rebuilt, and Control is cut short at GetVariable on a
    valid input. *)
Theorem Control_on_unbuilt_controller (rs : HumanoidStatus) (input : QPInput R)
    (c : QPController R) (output : QPOutput R) :
  QPInput_is_valid input (number_of_velocities (robot rs)) = true →
  variables (prog_ c) = [] →
  topology c
    = current_topology (robot rs) (contact_info input) (desired_body_accelerations input) →
  Control rs input c output = Aborted no_such_variable.
Proof.
  intros Hvalid Hvars Ht. unfold Control. rewrite Hvalid. cbn [negb]. cbv zeta.
  unfold prepared. rewrite ResizeQP_same by done.
  unfold GetVariable. cbn [SetTempMatricesToZero prog_]. by rewrite Hvars.
Qed.

(** X17.  A rebuild starts from an empty program (line 40): the handles,
    the variables and, declaration by declaration, the kind, the
    description, the variables and the coefficients of every constraint that
    ResizeQP leaves depend on the robot and the descriptors only, whatever
    the controller held before.  Nothing declared for the old counts
    survives. *)
Theorem ResizeQP_starts_from_scratch (robot : RigidBodyTree R)
    (all_supports : list (ContactInformation R))
    (all_body_accelerations : list (DesiredBodyAcceleration R)) (c c' : QPController R) :
  topology c ≠ current_topology robot all_supports all_body_accelerations →
  topology c' ≠ current_topology robot all_supports all_body_accelerations →
  handles (ResizeQP robot all_supports all_body_accelerations c)
    = handles (ResizeQP robot all_supports all_body_accelerations c') ∧
  variables (prog_ (ResizeQP robot all_supports all_body_accelerations c))
    = variables (prog_ (ResizeQP robot all_supports all_body_accelerations c')) ∧
  Forall2 same_declaration
    (bindings (prog_ (ResizeQP robot all_supports all_body_accelerations c)))
    (bindings (prog_ (ResizeQP robot all_supports all_body_accelerations c'))).
Proof.
  intros Hc Hc'. rewrite !ResizeQP_changed by done.
  set (t := current_topology robot all_supports all_body_accelerations).
  assert (Hn : num_contact_body_ t = length all_supports).
  { unfold t. by rewrite current_topology_eq. }
  destruct (rebuild_components t all_supports all_body_accelerations c Hn)
    as (_ & -> & -> & -> & _).
  destruct (rebuild_components t all_supports all_body_accelerations c' Hn)
    as (_ & -> & -> & -> & _).
  split; [done |]. split; [done |].
  assert (Hrefl : ∀ l : list (Binding R), Forall2 same_declaration l l).
  { induction l as [|b l IH]; constructor; [| done]. by repeat split. }
  apply Hrefl.
Qed.

(** X18.  In every cycle that gets past the input check, each cost holds
    this cycle's coefficients (lines 232-255): the CoM cost w_com * J_com' *
    J_com with w_com * J_com' * (Jdot_times_v_com - desired_comdd), the cost
    of tracked body i the same expression in that body's weight, task-space
    Jacobian and desired acceleration, the vd regularization w_vd * I with
    -w_vd * desired_vd, and the basis regularization w_basis_reg * I with
    zero.  The loop over the tracked bodies writes body i to the declaration
    cost_body_accelerations_[i] points to. *)
Theorem Control_costs_refreshed (rs : HumanoidStatus) (input : QPInput R)
    (c : QPController R) (output : QPOutput R) (r : ControlResult R) :
  ready rs input c →
  Control rs input c output = Returned r →
  cerr r ≠ message input_invalid →
  costs_refreshed rs input r.
Proof.
  unfold costs_refreshed, holds. intros Hready E Hcerr.
  destruct (Control_controller _ _ _ _ _ Hready E Hcerr)
    as (c1 & _ & Hf & Hs0 & Hs & Ht0 & Et0 & Et & Eh & _ & Eb & _).
  cbv zeta. rewrite Eh, Eb, Et, (st_handles _ Hs), Et0.
  cbn [layout cost_comdd_ cost_body_accelerations_ cost_vd_reg_ cost_basis_reg_].
  pose proof Ht0 as Ht0'. rewrite current_topology_eq in Ht0'.
  assert (Hm : num_body_acceleration_ (topology (prepared rs input c))
               = length (desired_body_accelerations input)) by (by rewrite Ht0').
  assert (Hin : ∀ j, j < 6 + num_contact_body_ (topology (prepared rs input c))
                          + num_body_acceleration_ (topology (prepared rs input c)) →
                ∃ b0, bindings (prog_ (prepared rs input c)) !! j = Some b0).
  { intros j Hj. apply lookup_lt_is_Some_2. rewrite (st_bindings _ Hs0). lia. }
  split; [| split; [| split]].
  - destruct (Hin (3 + num_contact_body_ (topology (prepared rs input c)))) as [b0 Eb0];
      [lia |].
    pose proof (fm_cost_comdd _ _ _ _ Hf) as Ec. rewrite Eb0 in Ec.
    eexists _, _. split; [done |]. split; [apply Ec | done].
  - intros i d Ed. assert (Hi := lookup_lt_Some _ _ _ Ed).
    destruct (Hin (4 + num_contact_body_ (topology (prepared rs input c)) + i)) as [b0 Eb0];
      [lia |].
    destruct (fm_cost_bodies _ _ _ _ Hf i d Ed) as (_ & _ & Ec). rewrite Eb0 in Ec.
    eexists. split.
    + rewrite list_lookup_fmap, Hm.
      by rewrite (proj2 (lookup_seq _ (length (desired_body_accelerations input)) i _))
        by (split; [done | lia]).
    + eexists _, _. split; [done |]. split; [apply Ec | done].
  - destruct (Hin (4 + num_contact_body_ (topology (prepared rs input c))
                     + num_body_acceleration_ (topology (prepared rs input c))))
      as [b0 Eb0]; [lia |].
    pose proof (fm_cost_vd_reg _ _ _ _ Hf) as Ec. rewrite Eb0 in Ec.
    eexists _, _. split; [done |]. split; [apply Ec | done].
  - destruct (Hin (5 + num_contact_body_ (topology (prepared rs input c))
                     + num_body_acceleration_ (topology (prepared rs input c))))
      as [b0 Eb0]; [lia |].
    pose proof (fm_cost_basis_reg _ _ _ _ Hf) as Ec. rewrite Eb0 in Ec.
    eexists _, _. split; [done |]. split; [apply Ec | done].
Qed.

(** X19.  In every cycle that got past the solve, the output has one
    acceleration per generalized velocity of the model and one torque per
    actuator, whatever the length of the vector the solver returned. *)
Theorem Control_output_dimensions (rs : HumanoidStatus) (input : QPInput R)
    (c : QPController R) (output : QPOutput R) (r : ControlResult R) :
  ready rs input c →
  Control rs input c output = Returned r →
  past_solve r →
  length (vd (qp_output r)) = number_of_velocities (robot rs) ∧
  length (joint_torque (qp_output r)) = length (actuators (robot rs)).
Proof.
  intros Hready E Hcerr.
  destruct (Control_decomposes _ _ _ _ _ Hready E Hcerr)
    as (c1 & result & x & Hf & Hs0 & Hs & Ht & _ & _ & _ & ED).
  apply Decompose_Returned in ED as (_ & _ & _ & _ & -> & _ & -> & _).
  pose proof Ht as Ht'. rewrite current_topology_eq in Ht'.
  split.
  - unfold value, vsegment. rewrite length_vbuild. cbn [dv_size]. by rewrite Ht'.
  - cbn [with_prog scratch]. unfold vadd. rewrite length_zip_with.
    unfold mvmul. rewrite length_vbuild.
    rewrite (proj1 (st_torque_linear _ Hs)).
    rewrite (fm_torque_constant _ _ _ _ Hf). unfold vtail. rewrite length_vbuild.
    rewrite <- (fm_topology _ _ _ _ Hf), Ht'. cbn [num_torque_]. lia.
Qed.

(** *** The basis matrix, lines 110 and 164-165 *)

Lemma mget_mbuild_outside r c (f : nat → nat → R) i j :
  r ≤ i ∨ c ≤ j → mget (mbuild r c f) i j = sc_zero.
Proof.
  intros Hout. unfold mget, mbuild; simpl.
  destruct (decide (i < r)) as [Hi|Hi].
  - rewrite (nth_lookup _ i), list_lookup_fmap.
    rewrite (proj2 (lookup_seq 0 r i i)); [simpl | lia].
    apply nth_overflow. rewrite length_map, length_seq. lia.
  - rewrite (nth_overflow _ [] (n := i)) by (rewrite length_map, length_seq; lia).
    by destruct j.
Qed.

Lemma total_basis_take_le (l : list (ContactInformation R)) i k :
  i ≤ k → total_basis (take i l) ≤ total_basis (take k l).
Proof.
  intros Hik. rewrite <- (take_drop i (take k l)), total_basis_app.
  rewrite take_take, Nat.min_l by done. lia.
Qed.

Lemma total_basis_take_all (l : list (ContactInformation R)) k :
  total_basis (take k l) ≤ total_basis l.
Proof. rewrite <- (take_drop k l) at 2. rewrite total_basis_app. lia. Qed.

(** Lines 158-172 on a basis matrix that was zeroed: each contact fills its
    own block and nothing else is written. *)
Lemma stack_contacts_basis (rs : HumanoidStatus) (input : QPInput R) (t : Topology)
    (s : Scratch R) rowIdx colIdx (b2f J : Matrix R) (Jdv : Vector R) :
  num_contact_body_ t = length (contact_info input) →
  basis_to_force_matrix_ s
    = mZero (3 * total_points (contact_info input)) (total_basis (contact_info input)) →
  stack_contacts rs input t s = Returned (rowIdx, colIdx, b2f, J, Jdv) →
  (∀ i support a b, contact_info input !! i = Some support →
     a < force_dim_of support → b < ci_num_basis support →
     mget b2f (3 * total_points (take i (contact_info input)) + a)
              (total_basis (take i (contact_info input)) + b)
     = mget (ComputeBasisMatrix support (robot rs) (cache rs)) a b) ∧
  (∀ x y,
     (∀ i support, contact_info input !! i = Some support →
        ¬ in_contact_block (contact_info input) i support x y) →
     mget b2f x y = sc_zero).
Proof.
  intros Hn Hzero. unfold stack_contacts. rewrite Hn, Hzero.
  set (l := contact_info input) in *.
  set (P := λ (k : nat) (st : nat * nat * Matrix R * Matrix R * Vector R),
    let '(rowIdx, colIdx, b2f, J, Jdv) := st in
    rowIdx = 3 * total_points (take k l) ∧ colIdx = total_basis (take k l) ∧
    (∃ f, b2f = mbuild (3 * total_points l) (total_basis l) f) ∧
    (∀ i support a b, i < k → l !! i = Some support →
       a < force_dim_of support → b < ci_num_basis support →
       mget b2f (3 * total_points (take i l) + a) (total_basis (take i l) + b)
       = mget (ComputeBasisMatrix support (robot rs) (cache rs)) a b) ∧
    (∀ x y,
       (∀ i support, i < k → l !! i = Some support → ¬ in_contact_block l i support x y) →
       mget b2f x y = sc_zero)).
  match goal with |- context [for_range 0 _ ?body ?init] =>
    destruct (for_range_inv P body 0 (length l) init) as (st & E & HP) end.
  - simpl. do 2 (split; [done |]). split; [by eexists |]. split; [intros; lia |].
    intros x y _. unfold mZero.
    destruct (decide (x < 3 * total_points l ∧ y < total_basis l)) as [[Hx Hy]|Hout].
    + by rewrite mget_mbuild.
    + apply mget_mbuild_outside. lia.
  - intros k [[[[row col] b2f'] J'] Jdv'] Hk (-> & -> & [f ->] & Hdone & Hrest).
    destruct (lookup_lt_is_Some_2 l k) as [sk Ek]; [lia |].
    rewrite Ek. simpl. eexists. split; [done |]. simpl.
    rewrite (total_points_take_S _ _ _ Ek), (total_basis_take_S _ _ _ Ek).
    unfold force_dim_of at 1.
    split; [lia |]. split; [done |]. split; [by eexists |].
    pose proof (total_points_take_all l (S k)) as Hallp.
    rewrite (total_points_take_S _ _ _ Ek) in Hallp.
    pose proof (total_basis_take_all l (S k)) as Hallb.
    rewrite (total_basis_take_S _ _ _ Ek) in Hallb.
    split.
    + intros i support a b Hi Ei Ha Hb.
      destruct (decide (i = k)) as [->|Hne].
      * rewrite Ek in Ei. injection Ei as <-. unfold force_dim_of in *.
        rewrite mget_mset_block by (simpl; lia).
        rewrite !has_window by lia. cbn [andb]. f_equal; lia.
      * assert (Hik : i < k) by lia.
        pose proof (total_points_take_le l (S i) k ltac:(lia)) as Hlep.
        rewrite (total_points_take_S _ _ _ Ei) in Hlep.
        pose proof (total_basis_take_le l (S i) k ltac:(lia)) as Hleb.
        rewrite (total_basis_take_S _ _ _ Ei) in Hleb.
        unfold force_dim_of in *.
        rewrite mget_mset_block by (simpl; lia).
        rewrite (out_of_window (3 * total_points (take k l))) by lia. cbn [andb].
        by apply Hdone.
    + intros x y Hnot.
      destruct (decide (x < 3 * total_points l ∧ y < total_basis l)) as [[Hx Hy]|Hout].
      * rewrite mget_mset_block by done.
        destruct (in_window (3 * total_points (take k l)) (force_dim_of sk) x
                  && in_window (total_basis (take k l)) (ci_num_basis sk) y) eqn:Ew.
        -- apply andb_true_iff in Ew as [Ewx Ewy].
           apply in_window_true in Ewx, Ewy.
           destruct (Hnot k sk) ; [lia | done | done].
        -- apply Hrest. intros i support Hi. apply Hnot. lia.
      * unfold mset_block. apply mget_mbuild_outside. simpl. lia.
  - intros E'. rewrite E in E'. injection E' as ->. simpl in HP.
    destruct HP as (_ & _ & _ & Hdone & Hrest). split.
    + intros i support a b Ei. apply Hdone; [| done]. by apply lookup_lt_Some in Ei.
    + intros x y Hnot. apply Hrest. intros i support _. apply Hnot.
Qed.

(** X20.  In every cycle that gets past the input check,
    basis_to_force_matrix_ is block diagonal: the block of contact i (the
    three rows of each of its contact points, the columns of its basis
    vectors) is the basis matrix of that contact, and every other
    coefficient is zero, so the point forces of a contact are computed from
    its own basis coefficients only.  Nothing of an earlier cycle is left in
    the matrix. *)
Theorem Control_basis_to_force (rs : HumanoidStatus) (input : QPInput R)
    (c : QPController R) (output : QPOutput R) (r : ControlResult R) :
  ready rs input c →
  Control rs input c output = Returned r →
  cerr r ≠ message input_invalid →
  basis_to_force_block_diagonal rs input r.
Proof.
  unfold basis_to_force_block_diagonal. intros Hready E Hcerr.
  destruct (Control_controller _ _ _ _ _ Hready E Hcerr)
    as (c1 & EF & Hf & Hs0 & Hs & Ht0 & Et0 & Et & Eh & _ & Eb & Es).
  apply Formulate_stacked in EF as (rowIdx & colIdx & ES).
  pose proof Ht0 as Ht0'. rewrite current_topology_eq in Ht0'.
  assert (Hn : num_contact_body_ (topology (prepared rs input c))
               = length (contact_info input)) by (by rewrite Ht0').
  assert (Hres : structured (ResizeQP (robot rs) (contact_info input)
                               (desired_body_accelerations input) c))
    by (by apply ResizeQP_structured).
  assert (Hzero : basis_to_force_matrix_ (scratch (prepared rs input c))
                  = mZero (3 * total_points (contact_info input))
                          (total_basis (contact_info input))).
  { unfold prepared. cbn [SetTempMatricesToZero scratch basis_to_force_matrix_].
    unfold msetZero. destruct (st_basis_to_force _ Hres) as [-> ->].
    by rewrite ResizeQP_topology, current_topology_eq. }
  destruct (stack_contacts_basis _ _ _ _ _ _ _ _ _ Hn Hzero ES) as [Hblocks Hrest].
  cbv zeta. rewrite Es. cbn [with_point_forces scratch basis_to_force_matrix_].
  split; [| done].
  intros i support Ei. unfold mblock. apply mbuild_ext. intros a b Ha Hb.
  by apply Hblocks.
Qed.

(** *** The controller after a failure at the solver *)

(** Lines 221-224, without assuming that the bounds are long enough: every
    bound that exists receives its actuator's limit. *)
Lemma add_effort_limits_within (acts : list (RigidBodyActuator R)) (lb0 ub0 lb ub : Vector R) :
  add_effort_limits acts lb0 ub0 = (lb, ub) →
  length lb = length lb0 ∧ length ub = length ub0 ∧
  ∀ i a, acts !! i = Some a →
    (i < length lb0 → vget lb i = sc_add (vget lb0 i) (effort_limit_min_ a)) ∧
    (i < length ub0 → vget ub i = sc_add (vget ub0 i) (effort_limit_max_ a)).
Proof.
  unfold add_effort_limits.
  match goal with |- context [fold_indexed ?f 0 acts _] => set (body := f) end.
  assert (G : ∀ l k lb0 ub0 lb ub,
    fold_indexed body k l (lb0, ub0) = (lb, ub) →
    length lb = length lb0 ∧ length ub = length ub0 ∧
    (∀ i, i < k → vget lb i = vget lb0 i ∧ vget ub i = vget ub0 i) ∧
    (∀ i a, l !! i = Some a →
       (k + i < length lb0 →
        vget lb (k + i) = sc_add (vget lb0 (k + i)) (effort_limit_min_ a)) ∧
       (k + i < length ub0 →
        vget ub (k + i) = sc_add (vget ub0 (k + i)) (effort_limit_max_ a)))).
  { clear. induction l as [|a l IH]; intros k lb0 ub0 lb ub E; simpl in *.
    - injection E as <- <-. repeat split; try done.
    - apply IH in E as (El & Eu & Hbelow & Hat).
      rewrite !length_insert in *. split; [done |]. split; [done |]. split.
      + intros i Hi. destruct (Hbelow i) as [-> ->]; [lia |].
        by rewrite !vget_insert_ne by lia.
      + intros [|i] a' Ei; simpl in Ei.
        * injection Ei as <-. rewrite Nat.add_0_r.
          destruct (Hbelow k) as [-> ->]; [lia |].
          split; intros Hk; by rewrite vget_insert_eq.
        * destruct (Hat i a' Ei) as [E1 E2].
          replace (k + S i) with (S k + i) by lia. split; intros Hk.
          -- rewrite E1 by done. by rewrite vget_insert_ne by lia.
          -- rewrite E2 by done. by rewrite vget_insert_ne by lia. }
  intros E. destruct (G acts 0 lb0 ub0 lb ub E) as (El & Eu & _ & Hat). done.
Qed.

(** Every buffer of the formulated controller holds this cycle's
    quantities. *)
Lemma Formulate_buffers (rs : HumanoidStatus) (input : QPInput R) (c c1 : QPController R) :
  ready rs input c →
  Formulate rs input
    {| dv_index := 0; dv_size := num_vd_ (topology c1) |}
    {| dv_index := num_vd_ (topology c1); dv_size := num_basis_ (topology c1) |}
    (prepared rs input c) = Returned c1 →
  formulated rs input (prepared rs input c) c1 →
  buffers_refreshed rs input c1.
Proof.
  intros Hready EF Hf.
  assert (Hs0 : structured (prepared rs input c)).
  { apply SetTempMatricesToZero_structured, ResizeQP_structured, Hready. }
  assert (Ht0 : topology (prepared rs input c)
                = current_topology (robot rs) (contact_info input)
                    (desired_body_accelerations input)) by apply ResizeQP_topology.
  pose proof (fm_topology _ _ _ _ Hf) as Et0.
  apply Formulate_stacked in EF as (rowIdx & colIdx & ES).
  pose proof Ht0 as Ht0'. rewrite current_topology_eq in Ht0'.
  assert (Hn : num_contact_body_ (topology (prepared rs input c))
               = length (contact_info input)) by (by rewrite Ht0').
  assert (Hp : num_point_force_ (topology (prepared rs input c))
               = total_points (contact_info input)) by (by rewrite Ht0').
  assert (HdJ : has_dims (3 * total_points (contact_info input))
                   (num_vd_ (topology (prepared rs input c)))
                   (stacked_contact_jacobians_ (scratch (prepared rs input c)))).
  { rewrite <- Hp. apply (st_stacked _ Hs0). }
  assert (HlJdv : length (stacked_contact_jacobians_dot_times_v_
                            (scratch (prepared rs input c)))
                  = 3 * total_points (contact_info input)).
  { rewrite <- Hp. apply (st_stacked_dot _ Hs0). }
  assert (Hres : structured (ResizeQP (robot rs) (contact_info input)
                               (desired_body_accelerations input) c))
    by (by apply ResizeQP_structured).
  assert (Hzero : basis_to_force_matrix_ (scratch (prepared rs input c))
                  = mZero (3 * total_points (contact_info input))
                          (total_basis (contact_info input))).
  { unfold prepared. cbn [SetTempMatricesToZero scratch basis_to_force_matrix_].
    unfold msetZero. destruct (st_basis_to_force _ Hres) as [-> ->].
    by rewrite ResizeQP_topology, current_topology_eq. }
  destruct (stack_contacts_basis _ _ _ _ _ _ _ _ _ Hn Hzero ES) as [Hblocks Hrest].
  unfold buffers_refreshed. cbv zeta. rewrite Et0.
  split; [| split; [done | split; [apply (fm_JB _ _ _ _ Hf) |]]].
  { intros i support Ei.
    destruct (stack_contacts_content _ _ _ _ _ _ _ _ _ Hn HdJ HlJdv ES i support Ei)
      as [EJ EJdv].
    split; [done |]. split; [done |].
    unfold mblock. apply mbuild_ext. intros a b Ha Hb. by apply Hblocks. }
  split.
  { rewrite (fm_torque_linear _ _ _ _ Hf).
    destruct (st_torque_linear _ Hs0) as [Hrows Hcols].
    rewrite (st_num_variable _ Hs0) in Hcols. by apply side_by_side_whole. }
  split; [apply (fm_torque_constant _ _ _ _ Hf) |].
  split.
  { rewrite (fm_dynamics_linear _ _ _ _ Hf).
    destruct (st_dynamics_linear _ Hs0) as [Hrows Hcols].
    rewrite (st_num_variable _ Hs0) in Hcols. by apply side_by_side_whole. }
  split; [apply (fm_dynamics_constant _ _ _ _ Hf) |].
  split; [apply (fm_inequality_linear _ _ _ _ Hf) |].
  pose proof (fm_inequality_bounds _ _ _ _ Hf) as Ebounds. symmetry in Ebounds.
  apply add_effort_limits_within in Ebounds as (Elb & Eub & Hat).
  split; [done |]. split; [done |]. split.
  - intros i a Ea Hi. destruct (Hat i a Ea) as [Hl Hu]. split; [by apply Hl | by apply Hu].
  - intros i d Ed. destruct (fm_cost_bodies _ _ _ _ Hf i d Ed) as (? & ? & _). done.
Qed.

(** C10.  When Control fails because the solver is not available or finds
    no solution, the output is the one it received, but the controller is
    not: it holds the counts of this cycle and the structure for them; every
    buffer the formulation step fills holds this cycle's quantities (the
    stacked contact Jacobian, its dot-times-v term and the basis matrix
    contact by contact, JB_, the torque and dynamics maps, the projected
    torque limits, the Jacobians of the tracked bodies); and every
    declaration the step updates holds this cycle's coefficients. *)
Theorem Control_failure_after_formulation (rs : HumanoidStatus) (input : QPInput R)
    (c : QPController R) (output : QPOutput R) (r : ControlResult R) :
  ready rs input c →
  Control rs input c output = Returned r →
  failed_at_solver r →
  formulation_kept rs input output r.
Proof.
  unfold failed_at_solver, formulation_kept. intros Hready E Hcerr.
  destruct (Control_Returned _ _ _ _ _ E) as [[_ ->] | (Hvalid & _)].
  { simpl in Hcerr. by destruct Hcerr. }
  destruct (Control_formulates_with rs input c output Hvalid Hready)
    as (c1 & EF & Hf & Hs0 & Hs & Ht0 & Et0 & E').
  rewrite E' in E. clear E'.
  pose proof (Formulate_buffers _ _ _ _ Hready EF Hf) as Hbuf.
  assert (Hkept : ∃ p,
    r = {| ret := (-1)%Z; cerr := cerr r; controller := with_prog p c1;
           qp_output := output |} ∧
    bindings p = bindings (prog_ c1) ∧ variables p = variables (prog_ c1)).
  { apply solve_and_decompose_Returned in E
      as [[_ ->] | (_ & result & x & _ & [[_ ->] | [_ E]])].
    - exists (prog_ c1). by destruct c1.
    - by eexists.
    - apply Decompose_Returned in E as (_ & _ & _ & _ & _ & _ & _ & [[_ Ec] | [_ Ec]]);
        rewrite Ec in Hcerr; simpl in Hcerr; by destruct Hcerr. }
  destruct Hkept as (p & -> & Ebp & Evp). clear E Hcerr.
  cbn [ret qp_output controller].
  split; [done |]. split; [done |].
  split; [cbn [with_prog topology]; by rewrite Et0 |].
  split; [destruct Hs; constructor; cbn [with_prog prog_ topology handles scratch];
          by rewrite ?Ebp, ?Evp |].
  split; [done |].
  unfold coefficients_refreshed, contact_equalities_refreshed, costs_refreshed, holds.
  cbv zeta. cbn [controller with_prog prog_ topology handles scratch].
  rewrite Ebp, (st_handles _ Hs), Et0.
  cbn [layout eq_dynamics_ eq_contacts_ ineq_torque_limit_ cost_comdd_
    cost_body_accelerations_ cost_vd_reg_ cost_basis_reg_].
  pose proof Ht0 as Ht0'. rewrite current_topology_eq in Ht0'.
  assert (Hn : num_contact_body_ (topology (prepared rs input c))
               = length (contact_info input)) by (by rewrite Ht0').
  assert (Hm : num_body_acceleration_ (topology (prepared rs input c))
               = length (desired_body_accelerations input)) by (by rewrite Ht0').
  assert (Hin : ∀ j, j < 6 + num_contact_body_ (topology (prepared rs input c))
                          + num_body_acceleration_ (topology (prepared rs input c)) →
                ∃ b0, bindings (prog_ (prepared rs input c)) !! j = Some b0).
  { intros j Hj. apply lookup_lt_is_Some_2. rewrite (st_bindings _ Hs0). lia. }
  split; [| split; [| split; [| split; [| split; [| split]]]]].
  - (* the dynamics equality, line 191 *)
    destruct (Hin 0) as [b0 Eb0]; [lia |].
    pose proof (fm_eq_dynamics _ _ _ _ Hf) as Ec. rewrite Eb0 in Ec.
    eexists _, _. split; [done |]. split; [apply Ec | done].
  - (* the contact equalities, lines 194-201 *)
    intros i support Ei. assert (Hi := lookup_lt_Some _ _ _ Ei).
    destruct Hbuf as (Hstacked & _).
    destruct (Hstacked i support Ei) as (EJ & EJdv & _).
    destruct (Hin (1 + i)) as [b0 Eb0]; [lia |].
    pose proof (fm_eq_contacts _ _ _ _ Hf i support Ei) as Ec.
    rewrite Eb0, <- Et0, EJ, EJdv in Ec.
    exists (1 + i). eexists. split; [| split; [apply Ec |]].
    + rewrite list_lookup_fmap, Hn.
      by rewrite (proj2 (lookup_seq 1 (length (contact_info input)) i (1 + i)))
        by (split; [done | lia]).
    + cbn [with_constraint constraint]. by rewrite Et0.
  - (* the torque limits, lines 225-226 *)
    destruct (Hin (2 + num_contact_body_ (topology (prepared rs input c)))) as [b0 Eb0];
      [lia |].
    pose proof (fm_ineq_torque_limit _ _ _ _ Hf) as Ec. rewrite Eb0 in Ec.
    eexists _, _. split; [done |]. split; [apply Ec | done].
  - (* the CoM cost, lines 232-235 *)
    destruct (Hin (3 + num_contact_body_ (topology (prepared rs input c)))) as [b0 Eb0];
      [lia |].
    pose proof (fm_cost_comdd _ _ _ _ Hf) as Ec. rewrite Eb0 in Ec.
    eexists _, _. split; [done |]. split; [apply Ec | done].
  - (* the costs of the tracked bodies, lines 237-247 *)
    intros i d Ed. assert (Hi := lookup_lt_Some _ _ _ Ed).
    destruct (Hin (4 + num_contact_body_ (topology (prepared rs input c)) + i)) as [b0 Eb0];
      [lia |].
    destruct (fm_cost_bodies _ _ _ _ Hf i d Ed) as (_ & _ & Ec). rewrite Eb0 in Ec.
    eexists. split.
    + rewrite list_lookup_fmap, Hm.
      by rewrite (proj2 (lookup_seq _ (length (desired_body_accelerations input)) i _))
        by (split; [done | lia]).
    + eexists _, _. split; [done |]. split; [apply Ec | done].
  - (* the regularization of vd, lines 249-251 *)
    destruct (Hin (4 + num_contact_body_ (topology (prepared rs input c))
                     + num_body_acceleration_ (topology (prepared rs input c))))
      as [b0 Eb0]; [lia |].
    pose proof (fm_cost_vd_reg _ _ _ _ Hf) as Ec. rewrite Eb0 in Ec.
    eexists _, _. split; [done |]. split; [apply Ec | done].
  - (* the regularization of the basis, lines 253-255 *)
    destruct (Hin (5 + num_contact_body_ (topology (prepared rs input c))
                     + num_body_acceleration_ (topology (prepared rs input c))))
      as [b0 Eb0]; [lia |].
    pose proof (fm_cost_basis_reg _ _ _ _ Hf) as Ec. rewrite Eb0 in Ec.
    eexists _, _. split; [done |]. split; [apply Ec | done].
Qed.

End CycleFacts.

(** ** The further properties on the concrete robot *)

Module MoreOnTheRobot.
Import QArith Example MoreExamples.

Lemma balanced_controller_structured : @structured Q (controller balanced_result).
Proof. constructor; vm_compute; repeat split; reflexivity. Defined.

(** The careless back end is stopped by the first of the three checks. *)
Lemma Control_cut_short_only_by_checks_witness :
  @kDrakeAssertIsArmed Q _ careless_build = true ∧
  @available Q _ careless_build = true ∧
  post_solve_check "equality constraint residual".
Proof.
  apply (@Control_cut_short_only_by_checks Q _ careless_build (@standing careless_build tt)
           stand_still fresh_controller blank_output "equality constraint residual").
  - reflexivity.
  - apply OnTheRobot.fresh_controller_ready.
  - vm_compute. reflexivity.
Defined.

(** With assertions compiled out the careless back end gets through. *)
Lemma Control_returns_without_assertions_witness :
  ∃ r, @Control Q _ unchecked_build (@standing unchecked_build tt) stand_still
         fresh_controller blank_output = Returned r.
Proof.
  apply (@Control_returns_without_assertions Q _ unchecked_build).
  - reflexivity.
  - apply OnTheRobot.fresh_controller_ready.
Defined.

(** The dynamics equality of the standing cycle. *)
Lemma Control_dynamics_equality_witness :
  @dynamics_equality_refreshed Q _ checked_build (@standing checked_build tt) balanced_result.
Proof.
  apply (@Control_dynamics_equality Q _ checked_build (@standing checked_build tt) stand_still
           fresh_controller blank_output balanced_result).
  - apply OnTheRobot.fresh_controller_ready.
  - vm_compute. reflexivity.
  - vm_compute. discriminate.
Defined.

(** The contact equality of the foot. *)
Lemma Control_contact_equalities_witness :
  @contact_equalities_refreshed Q _ checked_build (@standing checked_build tt) stand_still
    balanced_result.
Proof.
  apply (@Control_contact_equalities Q _ checked_build (@standing checked_build tt) stand_still
           fresh_controller blank_output balanced_result).
  - apply OnTheRobot.fresh_controller_ready.
  - vm_compute. reflexivity.
  - vm_compute. discriminate.
Defined.

(** The one resolved contact of the standing cycle is the foot's. *)
Lemma Control_resolved_contacts_witness :
  Forall2 (@resolved_like Q _ checked_build (@standing checked_build tt))
    [foot_contact] (resolved_contacts (qp_output balanced_result)).
Proof.
  apply (@Control_resolved_contacts Q _ checked_build (@standing checked_build tt) stand_still
           fresh_controller blank_output balanced_result).
  - vm_compute. reflexivity.
  - left. reflexivity.
Defined.

(** The eight coefficients of the balancing solution: seven accelerations
    and the basis coefficient of the foot. *)
Lemma Control_solution_layout_witness :
  GetSolution (prog_ (controller balanced_result))
  = vd (qp_output balanced_result)
    ++ concat (rc_basis <$> resolved_contacts (qp_output balanced_result)).
Proof.
  apply (@Control_solution_layout Q _ checked_build (@standing checked_build tt) stand_still
           fresh_controller blank_output balanced_result).
  - apply OnTheRobot.fresh_controller_ready.
  - vm_compute. reflexivity.
  - left. reflexivity.
  - vm_compute. reflexivity.
Defined.

(** The three coefficients of point_forces_ go to the foot's contact
    point. *)
Lemma Control_point_forces_witness :
  point_forces_ (scratch (controller balanced_result))
    = mvmul (basis_to_force_matrix_ (scratch (controller balanced_result)))
            (concat (rc_basis <$> resolved_contacts (qp_output balanced_result))) ∧
  concat (concat (rc_point_forces <$> resolved_contacts (qp_output balanced_result)))
    = point_forces_ (scratch (controller balanced_result)).
Proof.
  apply (@Control_point_forces Q _ checked_build (@standing checked_build tt) stand_still
           fresh_controller blank_output balanced_result).
  - apply OnTheRobot.fresh_controller_ready.
  - vm_compute. reflexivity.
  - left. reflexivity.
Defined.

(** The acceleration of the pelvis in the standing cycle. *)
Lemma Control_body_accelerations_witness :
  body_accelerations (qp_output balanced_result)
  = @body_acceleration_of Q _ checked_build (@standing checked_build tt)
      (vd (qp_output balanced_result)) <$> [hold_pelvis].
Proof.
  apply (@Control_body_accelerations Q _ checked_build (@standing checked_build tt)
           stand_still fresh_controller blank_output balanced_result).
  - apply OnTheRobot.fresh_controller_ready.
  - vm_compute. reflexivity.
  - left. reflexivity.
Defined.

(** Where the validity check refuses the output, Control returns -1 and the
    output is written all the same. *)
Lemma Control_output_written_witness :
  (ret refused_result = 0%Z ↔
   @QPOutput_is_valid Q _ strict_build (qp_output refused_result) 7%nat 1%nat = true) ∧
  @output_written Q _ strict_build (@standing strict_build tt) stand_still refused_result.
Proof.
  apply (@Control_output_written Q _ strict_build (@standing strict_build tt) stand_still
           fresh_controller blank_output refused_result).
  - right. vm_compute. discriminate.
  - vm_compute. reflexivity.
  - right. reflexivity.
Defined.

(** The basis inequality after the standing cycle, which rebuilt. *)
Lemma Control_keeps_basis_inequality_witness :
  let now := current_topology the_robot [foot_contact] [hold_pelvis] in
  ∃ i,
    ineq_contact_wrench_ (handles (controller balanced_result)) = Some i ∧
    (topology fresh_controller = now →
     bindings (prog_ (controller balanced_result)) !! i
       = bindings (prog_ fresh_controller) !! i) ∧
    (topology fresh_controller ≠ now →
     bindings (prog_ (controller balanced_result)) !! i = Some (basis_inequality now)).
Proof.
  apply (@Control_keeps_basis_inequality Q _ checked_build (@standing checked_build tt)
           stand_still fresh_controller blank_output balanced_result).
  - apply OnTheRobot.fresh_controller_ready.
  - vm_compute. reflexivity.
  - vm_compute. discriminate.
Defined.

(** The second cycle asks for "toe" and "torso"; the declarations keep the
    labels of the first cycle, "foot contact eq" and "pelvis cost". *)
Lemma Control_keeps_descriptions_witness :
  description <$> bindings (prog_ (controller renamed_result))
    = description <$> bindings (prog_ (controller balanced_result)) ∧
  variable_list <$> bindings (prog_ (controller renamed_result))
    = variable_list <$> bindings (prog_ (controller balanced_result)).
Proof.
  apply (@Control_keeps_descriptions Q _ checked_build (@standing checked_build tt)
           stand_renamed (controller balanced_result) blank_output renamed_result).
  - apply balanced_controller_structured.
  - vm_compute. reflexivity.
  - vm_compute. reflexivity.
Defined.

(** The declarations after the standing cycle. *)
Lemma Control_keeps_declarations_witness :
  declaration <$> bindings (prog_ (controller balanced_result))
  = declared [foot_contact] [hold_pelvis].
Proof.
  apply (@Control_keeps_declarations Q _ checked_build (@standing checked_build tt)
           stand_still fresh_controller blank_output balanced_result).
  - vm_compute. discriminate.
  - vm_compute. reflexivity.
  - vm_compute. discriminate.
Defined.

(** The four cost labels of the standing cycle. *)
Lemma Control_cost_labels_witness :
  fst <$> costs (qp_output balanced_result)
  = [ "com cost" ] ++ ((λ a, dba_name a +:+ " cost") <$> [hold_pelvis])
    ++ [ "vd reg cost"; "basis reg cost" ].
Proof.
  apply (@Control_cost_labels Q _ checked_build (@standing checked_build tt)
           stand_still fresh_controller blank_output balanced_result).
  - vm_compute. discriminate.
  - vm_compute. reflexivity.
  - left. reflexivity.
Defined.

(** The controller of the cycle that found no solution is structured. *)
Lemma Control_leaves_structured_witness :
  @structured Q (controller no_solution_result) ∧
  topology (controller no_solution_result)
    = current_topology the_robot [foot_contact] [hold_pelvis].
Proof.
  apply (@Control_leaves_structured Q _ infeasible_build (@standing infeasible_build tt)
           stand_still fresh_controller blank_output no_solution_result).
  - apply OnTheRobot.fresh_controller_ready.
  - vm_compute. reflexivity.
  - vm_compute. discriminate.
Defined.

(** After the standing request, the renamed one is not declared anew. *)
Lemma ResizeQP_settles_witness :
  @ResizeQP Q _ checked_build the_robot [toe_contact] [hold_torso]
    (@ResizeQP Q _ checked_build the_robot [foot_contact] [hold_pelvis] fresh_controller)
  = @ResizeQP Q _ checked_build the_robot [foot_contact] [hold_pelvis] fresh_controller.
Proof.
  apply (@ResizeQP_settles Q _ checked_build the_robot [foot_contact] [toe_contact]
           [hold_pelvis] [hold_torso] fresh_controller).
  vm_compute. reflexivity.
Defined.

(** A model without velocities and a request for nothing have the counts of
    the controller that never ran: nothing is built and GetVariable fails. *)
Lemma Control_on_unbuilt_controller_witness :
  @Control Q _ checked_build (@nowhere checked_build tt) nothing_asked fresh_controller
    blank_output = Aborted no_such_variable.
Proof.
  apply (@Control_on_unbuilt_controller Q _ checked_build).
  - reflexivity.
  - reflexivity.
  - vm_compute. reflexivity.
Defined.

(** What is declared for the standing request does not depend on whether
    the controller never ran or was built for a request without contacts. *)
Lemma ResizeQP_starts_from_scratch_witness :
  let built_for_nothing := @ResizeQP Q _ checked_build the_robot [] [] fresh_controller in
  let from_fresh :=
    @ResizeQP Q _ checked_build the_robot [foot_contact] [hold_pelvis] fresh_controller in
  let from_built :=
    @ResizeQP Q _ checked_build the_robot [foot_contact] [hold_pelvis] built_for_nothing in
  handles from_fresh = handles from_built ∧
  variables (prog_ from_fresh) = variables (prog_ from_built) ∧
  Forall2 same_declaration (bindings (prog_ from_fresh)) (bindings (prog_ from_built)).
Proof.
  apply (@ResizeQP_starts_from_scratch Q _ checked_build the_robot [foot_contact] [hold_pelvis]
           fresh_controller
           (@ResizeQP Q _ checked_build the_robot [] [] fresh_controller)).
  - vm_compute. discriminate.
  - vm_compute. discriminate.
Defined.

(** The four costs of the standing cycle. *)
Lemma Control_costs_refreshed_witness :
  @costs_refreshed Q _ checked_build (@standing checked_build tt) stand_still balanced_result.
Proof.
  apply (@Control_costs_refreshed Q _ checked_build (@standing checked_build tt) stand_still
           fresh_controller blank_output balanced_result).
  - apply OnTheRobot.fresh_controller_ready.
  - vm_compute. reflexivity.
  - vm_compute. discriminate.
Defined.

(** Seven accelerations and one torque. *)
Lemma Control_output_dimensions_witness :
  length (vd (qp_output balanced_result)) = 7%nat ∧
  length (joint_torque (qp_output balanced_result)) = 1%nat.
Proof.
  apply (@Control_output_dimensions Q _ checked_build (@standing checked_build tt) stand_still
           fresh_controller blank_output balanced_result).
  - apply OnTheRobot.fresh_controller_ready.
  - vm_compute. reflexivity.
  - left. reflexivity.
Defined.

(** The 3 x 1 basis matrix of the foot is all of basis_to_force_matrix_. *)
Lemma Control_basis_to_force_witness :
  @basis_to_force_block_diagonal Q _ checked_build (@standing checked_build tt) stand_still
    balanced_result.
Proof.
  apply (@Control_basis_to_force Q _ checked_build (@standing checked_build tt) stand_still
           fresh_controller blank_output balanced_result).
  - apply OnTheRobot.fresh_controller_ready.
  - vm_compute. reflexivity.
  - vm_compute. discriminate.
Defined.

(** The labels the renamed cycle kept are not the ones its descriptors would
    have been given by a rebuild. *)
Example renamed_cycle_keeps_stale_labels :
  description <$> bindings (prog_ (controller renamed_result))
    = [ "dynamics eq"; "foot contact eq"; "contact force basis ineq"; "torque limit ineq";
        "com cost"; "pelvis cost"; "vd reg cost"; "basis reg cost" ] ∧
  ret renamed_result = 0%Z.
Proof. split; vm_compute; reflexivity. Qed.

(** With a back end that finds no solution the controller is formulated all
    the same. *)
Lemma Control_failure_after_formulation_witness :
  @formulation_kept Q _ infeasible_build (@standing infeasible_build tt) stand_still
    blank_output no_solution_result.
Proof.
  apply (@Control_failure_after_formulation Q _ infeasible_build
           (@standing infeasible_build tt) stand_still fresh_controller blank_output
           no_solution_result).
  - apply OnTheRobot.fresh_controller_ready.
  - vm_compute. reflexivity.
  - right. reflexivity.
Defined.

End MoreOnTheRobot.
